(** * safe_eval: a tokenizer, a shunting-yard converter and an RPN evaluator

    A shallow embedding of [src/safe_eval.py] and of the two tool
    functions built around it and beside it, [calculator_tool] and
    [shell_tool].  Python floats are IEEE
    binary64 values, modelled by Rocq's primitive floats; a Python [str] is
    modelled by [string], each character standing for the code point of the
    same number (so the model covers the code points below 256); a Python
    list used as a stack keeps its top at the head of the Rocq list, a list
    used as a queue is appended to at its end. *)

From Stdlib Require Import ZArith List String Ascii Bool Arith Lia.
From Stdlib Require Import Sorting.Permutation.
From Stdlib Require Import Floats.PrimFloat Floats.SpecFloat Floats.FloatOps.
Import ListNotations.

Local Open Scope string_scope.
Local Open Scope list_scope.
Local Open Scope nat_scope.

(** ** Tokens *)

(** An element of a token list: a float or a [str].  These are the
    elements [tokenize] makes, every number by [float(value)].  Where the
    source tests for a number it would also accept an [int]; token lists
    that hold an [int] are not modelled. *)
Inductive Token : Type :=
| Num (x : float)
| Str (s : string).

Definition is_number (t : Token) : bool :=
  match t with Num _ => true | Str _ => false end.

(** ** The Python runtime the module relies on *)

Module Py.

(** The exception classes that occur: the module's own five and the
    built-in ones its operations can raise. *)
Inductive exn_class : Type :=
| SafeEvalError
| InvalidExpressionError
| DivisionByZeroError
| UnbalancedParenthesesError
| UnknownCharacterError
| TypeError
| ValueError
| ZeroDivisionError
| IndexError
| KeyError.

Definition exn_class_eqb (c d : exn_class) : bool :=
  match c, d with
  | SafeEvalError, SafeEvalError
  | InvalidExpressionError, InvalidExpressionError
  | DivisionByZeroError, DivisionByZeroError
  | UnbalancedParenthesesError, UnbalancedParenthesesError
  | UnknownCharacterError, UnknownCharacterError
  | TypeError, TypeError
  | ValueError, ValueError
  | ZeroDivisionError, ZeroDivisionError
  | IndexError, IndexError
  | KeyError, KeyError => true
  | _, _ => false
  end.

(** The direct base class, [None] standing for the built-in [Exception]
    (or a built-in class below it). *)
Definition base (c : exn_class) : option exn_class :=
  match c with
  | InvalidExpressionError | DivisionByZeroError => Some SafeEvalError
  | UnbalancedParenthesesError | UnknownCharacterError =>
      Some InvalidExpressionError
  | _ => None
  end.

(** [issubclass c d]; the hierarchy is two levels deep. *)
Definition issubclass (c d : exn_class) : bool :=
  exn_class_eqb c d
  || match base c with
     | Some b =>
         exn_class_eqb b d
         || match base b with
            | Some b' => exn_class_eqb b' d
            | None => false
            end
     | None => false
     end.

Definition class_name (c : exn_class) : string :=
  match c with
  | SafeEvalError => "SafeEvalError"
  | InvalidExpressionError => "InvalidExpressionError"
  | DivisionByZeroError => "DivisionByZeroError"
  | UnbalancedParenthesesError => "UnbalancedParenthesesError"
  | UnknownCharacterError => "UnknownCharacterError"
  | TypeError => "TypeError"
  | ValueError => "ValueError"
  | ZeroDivisionError => "ZeroDivisionError"
  | IndexError => "IndexError"
  | KeyError => "KeyError"
  end.

(** A message is kept as the pieces of the f-string that builds it:
    literal text and the interpolated values, left unformatted. *)
Inductive piece : Type :=
| Text (s : string)
| OfNat (n : nat)
| OfFloat (x : float)
| OfToken (t : Token)
| OfTokens (l : list Token).

Definition message : Type := list piece.

Record exn : Type := mk_exn { exn_type : exn_class; exn_msg : message }.

(** The result of running a piece of code: it returns, it raises, or the
    model's loop counter ran out (shown below never to happen). *)
Inductive outcome (A : Type) : Type :=
| Return (a : A)
| Raise (e : exn)
| OutOfFuel.

Arguments Return {A} a.
Arguments Raise {A} e.
Arguments OutOfFuel {A}.

Definition bind {A B : Type} (m : outcome A) (k : A -> outcome B)
  : outcome B :=
  match m with
  | Return a => k a
  | Raise e => Raise e
  | OutOfFuel => OutOfFuel
  end.

(** [try: m  except Exception as e: handler e]. *)
Definition try_except {A : Type} (m : outcome A) (handler : exn -> outcome A)
  : outcome A :=
  match m with
  | Raise e => handler e
  | _ => m
  end.

Definition raise {A : Type} (c : exn_class) (msg : message) : outcome A :=
  Raise (mk_exn c msg).

(** ** dict *)

Fixpoint dict_get {V : Type} (d : list (string * V)) (k : string)
  : option V :=
  match d with
  | [] => None
  | (k', v) :: d' => if String.eqb k' k then Some v else dict_get d' k
  end.

(** ** str *)

(** [str.isspace] and the regular expression class [\s] on one character. *)
Definition isspace (c : ascii) : bool :=
  let n := nat_of_ascii c in
  ((9 <=? n) && (n <=? 13)) || ((28 <=? n) && (n <=? 32))
  || (n =? 133) || (n =? 160).

(** The regular expression class [\d] on one character. *)
Definition isdigit (c : ascii) : bool :=
  let n := nat_of_ascii c in (48 <=? n) && (n <=? 57).

(** The longest prefix of [s] whose characters satisfy [p]. *)
Fixpoint take_while (p : ascii -> bool) (s : string) : string :=
  match s with
  | String c s' => if p c then String c (take_while p s') else EmptyString
  | EmptyString => EmptyString
  end.

Fixpoint drop_while (p : ascii -> bool) (s : string) : string :=
  match s with
  | String c s' => if p c then drop_while p s' else s
  | EmptyString => EmptyString
  end.

(** [s[n:]]. *)
Fixpoint slice_from (n : nat) (s : string) : string :=
  match n, s with
  | S n', String _ s' => slice_from n' s'
  | _, _ => s
  end.

Fixpoint rev_string (s acc : string) : string :=
  match s with
  | String c s' => rev_string s' (String c acc)
  | EmptyString => acc
  end.

(** [s.strip()]. *)
Definition strip (s : string) : string :=
  let s1 := drop_while isspace s in
  rev_string (drop_while isspace (rev_string s1 EmptyString)) EmptyString.

(** ** float *)

Definition digit_value (c : ascii) : N := N.of_nat (nat_of_ascii c - 48).

Fixpoint digits_value (s : string) (acc : N) : N :=
  match s with
  | String c s' => digits_value s' (10 * acc + digit_value c)
  | EmptyString => acc
  end.

(** The binary64 value nearest to [m / 10^k], ties to even. *)
Definition decimal_to_float (m : N) (k : nat) : float :=
  match m with
  | N0 => PrimFloat.zero
  | Npos p =>
      SF2Prim (SFdiv prec emax (S754_finite false p 0)
                 (S754_finite false (Z.to_pos (10 ^ Z.of_nat k)) 0))
  end.

(** [float(value)] on the literals [\d+], [\d+\.\d*] and [\.\d+]; any
    other string is answered with [ValueError] (the tokenizer passes no
    other one). *)
Definition float_of_str (value : string) : outcome float :=
  let int_part := take_while isdigit value in
  let after := drop_while isdigit value in
  match after with
  | EmptyString =>
      if (0 <? String.length int_part)%nat
      then Return (decimal_to_float (digits_value int_part 0) 0)
      else raise ValueError [Text "could not convert string to float: "; Text value]
  | String c frac =>
      if Ascii.eqb c "."
         && (String.length (drop_while isdigit frac) =? 0)%nat
         && (0 <? String.length int_part + String.length frac)%nat
      then Return (decimal_to_float (digits_value (int_part ++ frac)%string 0)
                     (String.length frac))
      else raise ValueError [Text "could not convert string to float: "; Text value]
  end.

End Py.

Import Py.

Declare Scope outcome_scope.
Delimit Scope outcome_scope with outcome.
Notation "x <- m ;; k" := (bind m (fun x => k))
  (at level 61, m at next level, right associativity) : outcome_scope.
Notation "' p <- m ;; k" := (bind m (fun x => let p := x in k))
  (at level 61, p pattern, m at next level, right associativity)
  : outcome_scope.
Local Open Scope outcome_scope.

(** ** Tokenizer *)

(** The names of the groups of [tok_regex]. *)
Inductive kind : Type := NUMBER | OPERATOR | SPACE | MISMATCH.

Definition is_operator_char (c : ascii) : bool :=
  existsb (Ascii.eqb c) ["+"; "-"; "*"; "/"; "("; ")"]%char.

Definition starts_with_digit (s : string) : bool :=
  match s with
  | String c _ => isdigit c
  | EmptyString => false
  end.

(** [re.match(tok_regex, s)]: the group that matched ([mo.lastgroup]) and
    the text it matched ([mo.group()]).  The alternatives are tried in the
    order of [token_specification]: NUMBER (digits, then optionally a dot
    and further digits; or a dot and at least one digit), OPERATOR (one of
    the six symbols), SPACE (a run of whitespace), MISMATCH (any character
    but a newline).  Each part of NUMBER is greedy. *)
Definition re_match (s : string) : option (kind * string) :=
  match s with
  | EmptyString => None
  | String c s' =>
      if isdigit c then
        let int_part := take_while isdigit s in
        match drop_while isdigit s with
        | String d frac =>
            if Ascii.eqb d "." then
              Some (NUMBER,
                    (int_part ++ String d (take_while isdigit frac))%string)
            else Some (NUMBER, int_part)
        | EmptyString => Some (NUMBER, int_part)
        end
      else if Ascii.eqb c "." && starts_with_digit s' then
        Some (NUMBER, String c (take_while isdigit s'))
      else if is_operator_char c then Some (OPERATOR, String c EmptyString)
      else if isspace c then Some (SPACE, take_while isspace s)
      else if Ascii.eqb c "010" then None
      else Some (MISMATCH, String c EmptyString)
  end.

(** The [while current_pos < len(expression)] loop of [tokenize]. *)
Fixpoint tokenize_loop (fuel : nat) (expression : string) (current_pos : nat)
  (tokens : list Token) : outcome (list Token) :=
  if current_pos <? String.length expression then
    match fuel with
    | O => OutOfFuel
    | S fuel' =>
        match re_match (slice_from current_pos expression) with
        | None =>
            raise InvalidExpressionError
              [Text "Unable to tokenize expression at: '";
               Text (slice_from current_pos expression); Text "'"]
        | Some (kind, value) =>
            tokens' <-
              match kind with
              | NUMBER =>
                  try_except
                    (x <- float_of_str value ;; Return (tokens ++ [Num x]))
                    (fun e =>
                       if issubclass (exn_type e) ValueError then
                         raise InvalidExpressionError
                           [Text "Invalid number format '"; Text value;
                            Text "' at position "; OfNat current_pos;
                            Text "."]
                       else Raise e)
              | OPERATOR => Return (tokens ++ [Str value])
              | SPACE => Return tokens
              | MISMATCH =>
                  raise UnknownCharacterError
                    [Text "Unknown character '"; Text value;
                     Text "' in expression at position "; OfNat current_pos;
                     Text "."]
              end ;;
            tokenize_loop fuel' expression
              (current_pos + String.length value) tokens'
        end
    end
  else Return tokens.

(** Every iteration consumes a character, so [len(expression)] iterations
    are enough. *)
Definition tokenize (expression : string) : outcome (list Token) :=
  tokenize_loop (String.length expression) expression 0 [].

(** ** Shunting-yard conversion to RPN *)

Definition PRECEDENCE : list (string * nat) :=
  [("+", 1); ("-", 1); ("*", 2); ("/", 2)].

Definition ASSOCIATIVITY : list (string * string) :=
  [("+", "L"); ("-", "L"); ("*", "L"); ("/", "L")].

(** [d[k]], which raises [KeyError] on a missing key. *)
Definition dict_item {V : Type} (d : list (string * V)) (k : string)
  : outcome V :=
  match dict_get d k with
  | Some v => Return v
  | None => raise KeyError [Text k]
  end.

(** [l[i]] for [0 <= i]. *)
Definition list_item (l : list Token) (i : nat) : outcome Token :=
  match nth_error l i with
  | Some t => Return t
  | None => raise IndexError [Text "list index out of range"]
  end.

(** [token in (s1, ..., sn)]: a float equals no [str]. *)
Definition token_in (t : Token) (l : list string) : bool :=
  match t with
  | Str s => existsb (String.eqb s) l
  | Num _ => false
  end.

(** The test that sets [is_unary] at index [i] (lines 83 to 86). *)
Definition is_unary (tokens : list Token) (i : nat) : bool :=
  match nth_error tokens i with
  | Some token =>
      if token_in token ["+"; "-"]
         && ((i =? 0)
             || match nth_error tokens (i - 1) with
                | Some (Str s) => existsb (String.eqb s) ["("; "+"; "-"; "*"; "/"]
                | _ => false
                end)
      then (i + 1 <? List.length tokens)
           && match nth_error tokens (i + 1) with
              | Some (Num _) => true
              | _ => false
              end
      else false
  | None => false
  end.

(** [-t]: a [str] has no negation. *)
Definition neg_token (t : Token) : outcome Token :=
  match t with
  | Num x => Return (Num (- x)%float)
  | Str _ => raise TypeError [Text "bad operand type for unary -: 'str'"]
  end.

(** One iteration of the first loop of [infix_to_rpn] at index [i]: the
    next index and the extended [processed_tokens]. *)
Definition unary_step (tokens : list Token) (i : nat)
  (processed_tokens : list Token) : outcome (nat * list Token) :=
  token <- list_item tokens i ;;
  if is_unary tokens i then
    next <- list_item tokens (i + 1) ;;
    signed <- (if token_in token ["-"] then neg_token next else Return next) ;;
    Return (i + 1 + 1, processed_tokens ++ [signed])
  else Return (i + 1, processed_tokens ++ [token]).

(** The [while i < len(tokens)] loop. *)
Fixpoint unary_loop (fuel : nat) (tokens : list Token) (i : nat)
  (processed_tokens : list Token) : outcome (list Token) :=
  if i <? List.length tokens then
    match fuel with
    | O => OutOfFuel
    | S fuel' =>
        '(i', processed_tokens') <- unary_step tokens i processed_tokens ;;
        unary_loop fuel' tokens i' processed_tokens'
    end
  else Return processed_tokens.

(** The inner loop of the operator case: pops to the output queue the
    operators that bind at least as tightly as [token].  The condition is
    evaluated left to right, as [and] and [or] do. *)
Fixpoint pop_operators (token : string) (output_queue : list Token)
  (operator_stack : list string) : outcome (list Token * list string) :=
  match operator_stack with
  | top :: below =>
      if String.eqb top "(" then Return (output_queue, operator_stack)
      else
        let p_top := match dict_get PRECEDENCE top with
                     | Some q => q
                     | None => 0
                     end in
        p <- dict_item PRECEDENCE token ;;
        if p <? p_top then
          pop_operators token (output_queue ++ [Str top]) below
        else if p_top =? p then
          a <- dict_item ASSOCIATIVITY token ;;
          if String.eqb a "L"
          then pop_operators token (output_queue ++ [Str top]) below
          else Return (output_queue, operator_stack)
        else Return (output_queue, operator_stack)
  | [] => Return (output_queue, [])
  end.

(** The inner loop of the [')'] case: pops down to the nearest ['(']. *)
Fixpoint pop_to_paren (output_queue : list Token)
  (operator_stack : list string) : list Token * list string :=
  match operator_stack with
  | top :: below =>
      if negb (String.eqb top "(")
      then pop_to_paren (output_queue ++ [Str top]) below
      else (output_queue, operator_stack)
  | [] => (output_queue, [])
  end.

(** The [for token in tokens] loop. *)
Fixpoint shunting_loop (tokens : list Token) (output_queue : list Token)
  (operator_stack : list string) : outcome (list Token * list string) :=
  match tokens with
  | [] => Return (output_queue, operator_stack)
  | token :: rest =>
      match token with
      | Num _ => shunting_loop rest (output_queue ++ [token]) operator_stack
      | Str s =>
          match dict_get PRECEDENCE s with
          | Some _ =>
              '(output_queue', operator_stack') <-
                pop_operators s output_queue operator_stack ;;
              shunting_loop rest output_queue' (s :: operator_stack')
          | None =>
              if String.eqb s "(" then
                shunting_loop rest output_queue (s :: operator_stack)
              else if String.eqb s ")" then
                let '(output_queue', operator_stack') :=
                  pop_to_paren output_queue operator_stack in
                match operator_stack' with
                | top :: below =>
                    if negb (String.eqb top "(") then
                      raise UnbalancedParenthesesError
                        [Text "Mismatched or missing left parenthesis."]
                    else shunting_loop rest output_queue' below
                | [] =>
                    raise UnbalancedParenthesesError
                      [Text "Mismatched or missing left parenthesis."]
                end
              else
                raise InvalidExpressionError
                  [Text "Unknown token during RPN conversion: "; OfToken token]
          end
      end
  end.

(** The final [while operator_stack] loop. *)
Fixpoint drain (output_queue : list Token) (operator_stack : list string)
  : outcome (list Token) :=
  match operator_stack with
  | top :: below =>
      if String.eqb top "(" then
        raise UnbalancedParenthesesError
          [Text "Mismatched or missing right parenthesis."]
      else drain (output_queue ++ [Str top]) below
  | [] => Return output_queue
  end.

Definition infix_to_rpn (tokens : list Token) : outcome (list Token) :=
  tokens <- unary_loop (List.length tokens) tokens 0 [] ;;
  '(output_queue, operator_stack) <- shunting_loop tokens [] [] ;;
  drain output_queue operator_stack.

(** ** RPN evaluator *)

(** [operator.truediv] on floats. *)
Definition truediv (a b : float) : outcome float :=
  if PrimFloat.eqb b 0 then raise ZeroDivisionError [Text "float division by zero"]
  else Return (a / b)%float.

Definition OPERATORS : list (string * (float -> float -> outcome float)) :=
  [("+", fun a b => Return (a + b)%float);
   ("-", fun a b => Return (a - b)%float);
   ("*", fun a b => Return (a * b)%float);
   ("/", truediv)].

(** The body of the [elif token in OPERATORS] branch, from the length test
    on: the operand stack after the operator has been applied. *)
Definition apply_operator (token : string) (operand_stack : list float)
  : outcome (list float) :=
  match operand_stack with
  | op2 :: op1 :: below =>
      if String.eqb token "/" && PrimFloat.eqb op2 0 then
        raise DivisionByZeroError [Text "Division by zero in expression."]
      else
        try_except
          (f <- dict_item OPERATORS token ;;
           result <- f op1 op2 ;;
           Return (result :: below))
          (fun e =>
             raise SafeEvalError
               ([Text "Error during operation "; OfFloat op1; Text " ";
                 Text token; Text " "; OfFloat op2; Text ": "] ++ exn_msg e))
  | _ =>
      raise InvalidExpressionError
        [Text "Invalid RPN expression: not enough operands for operator."]
  end.

(** The [for token in rpn_tokens] loop. *)
Fixpoint evaluate_loop (rpn_tokens : list Token) (operand_stack : list float)
  : outcome (list float) :=
  match rpn_tokens with
  | [] => Return operand_stack
  | token :: rest =>
      match token with
      | Num x => evaluate_loop rest (x :: operand_stack)
      | Str s =>
          match dict_get OPERATORS s with
          | Some _ =>
              operand_stack' <- apply_operator s operand_stack ;;
              evaluate_loop rest operand_stack'
          | None =>
              raise InvalidExpressionError
                [Text "Unknown token in RPN expression: "; OfToken token]
          end
      end
  end.

Definition evaluate_rpn (rpn_tokens : list Token) : outcome float :=
  operand_stack <- evaluate_loop rpn_tokens [] ;;
  match operand_stack with
  | [result] => Return result
  | _ =>
      raise InvalidExpressionError
        [Text "Invalid RPN expression: stack should have 1 result, has ";
         OfNat (List.length operand_stack); Text ". Original RPN: ";
         OfTokens rpn_tokens]
  end.

(** ** Main function *)

(** The values the function can be called with: a [str] or something
    else. *)
Inductive pyobj : Type :=
| PyStr (s : string)
| PyInt (n : Z)
| PyFloat (x : float)
| PyNone
| PyList (l : list Token).

Definition msg_empty_rpn_with_numbers : message :=
  [Text "Expression with numbers resulted in empty RPN (e.g. '5 ()')."].

Definition msg_empty_rpn_no_numbers : message :=
  [Text "Expression results in empty RPN or has no evaluable content (e.g. '()', '(+)', or empty/whitespace)."].

(** The [except] clauses of the main function: a [SafeEvalError] is raised
    again, anything else is wrapped. *)
Definition rewrap {A : Type} (e : exn) : outcome A :=
  if issubclass (exn_type e) SafeEvalError then Raise e
  else
    raise SafeEvalError
      ([Text "An unexpected error occurred during evaluation: ";
        Text (class_name (exn_type e)); Text " - "] ++ exn_msg e).

Definition safe_evaluate_expression (expression : pyobj) : outcome float :=
  match expression with
  | PyStr expression =>
      let stripped_expression := strip expression in
      if (String.length stripped_expression =? 0) then
        raise InvalidExpressionError
          [Text "Expression cannot be empty or just whitespace."]
      else
        try_except
          (tokens <- tokenize stripped_expression ;;
           match tokens with
           | [] =>
               raise InvalidExpressionError
                 [Text "Expression contains no evaluable tokens after tokenization (e.g. only operators/parentheses that were consumed by RPN logic without numbers)."]
           | _ =>
               rpn_expression <- infix_to_rpn tokens ;;
               match rpn_expression with
               | [] =>
                   if existsb is_number tokens
                   then raise InvalidExpressionError msg_empty_rpn_with_numbers
                   else raise InvalidExpressionError msg_empty_rpn_no_numbers
               | _ =>
                   result <- evaluate_rpn rpn_expression ;;
                   Return result
               end
           end)
          rewrap
  | _ => raise TypeError [Text "Expression must be a string."]
  end.

(** ** Names used in the statements *)

(** The main function on a [str]. *)
Definition t_eval (s : string) : outcome float :=
  safe_evaluate_expression (PyStr s).

(** The messages of the raise sites the statements name. *)
Definition msg_division_by_zero : message :=
  [Text "Division by zero in expression."].

Definition msg_not_enough_operands : message :=
  [Text "Invalid RPN expression: not enough operands for operator."].

Definition msg_missing_left : message :=
  [Text "Mismatched or missing left parenthesis."].

Definition msg_missing_right : message :=
  [Text "Mismatched or missing right parenthesis."].

(** What an RPN sequence may hold: numbers and the four operators. *)
Definition rpn_token (t : Token) : Prop :=
  match t with
  | Num _ => True
  | Str s => In s ["+"; "-"; "*"; "/"]
  end.

(** What the operator stack may hold: operators and open parentheses. *)
Definition stack_symbol (s : string) : Prop :=
  In s ["("; "+"; "-"; "*"; "/"].

Definition has_number (l : list Token) : Prop := existsb is_number l = true.

(** The condition under which a sign is unary, as the specification words
    it: the token at [i] is ['+'] or ['-'], no operand stands directly to
    its left, and a number follows directly. *)
Definition no_operand_on_left (tokens : list Token) (i : nat) : Prop :=
  i = 0
  \/ exists s, nth_error tokens (i - 1) = Some (Str s)
               /\ In s ["("; "+"; "-"; "*"; "/"].

Definition unary_sign_at (tokens : list Token) (i : nat) : Prop :=
  (nth_error tokens i = Some (Str "+") \/ nth_error tokens i = Some (Str "-"))
  /\ no_operand_on_left tokens i
  /\ exists x, nth_error tokens (i + 1) = Some (Num x).

(** The unary pass read off the list itself: [prev] is the token before
    the head of [l] in the original list.  It is shown below to be what the
    index loop computes. *)
Definition previous (tokens : list Token) (i : nat) : option Token :=
  match i with
  | O => None
  | S j => nth_error tokens j
  end.

Definition operand_expected (prev : option Token) : bool :=
  match prev with
  | None => true
  | Some (Str s) => existsb (String.eqb s) ["("; "+"; "-"; "*"; "/"]
  | Some (Num _) => false
  end.

Fixpoint fold_signs (prev : option Token) (l : list Token) : list Token :=
  match l with
  | [] => []
  | t :: l' =>
      if token_in t ["+"; "-"] && operand_expected prev then
        match l' with
        | Num x :: l'' =>
            (if token_in t ["-"] then Num (- x)%float else Num x)
              :: fold_signs (Some (Num x)) l''
        | _ => t :: fold_signs (Some t) l'
        end
      else t :: fold_signs (Some t) l'
  end.

(** A code path that comes to an end: it returns or raises. *)
Definition terminates {A : Type} (m : outcome A) : Prop := m <> OutOfFuel.

(** A [str] made of whitespace only (the empty one included). *)
Fixpoint all_space (s : string) : bool :=
  match s with
  | String c s' => isspace c && all_space s'
  | EmptyString => true
  end.

Definition msg_empty_expression : message :=
  [Text "Expression cannot be empty or just whitespace."].

Definition msg_not_a_string : message :=
  [Text "Expression must be a string."].

(** The text put before the message of a wrapped exception of class [c]. *)
Definition unexpected_prefix (c : exn_class) : message :=
  [Text "An unexpected error occurred during evaluation: ";
   Text (class_name c); Text " - "].

(** ** Infix expressions and their standard value *)

(** The expressions over numbers, the four binary operators and
    parentheses, as the usual grammar with two precedence levels, both
    left-associative:
    [expr ::= term | expr (+|-) term],
    [term ::= factor | term (times|/) factor],
    [factor ::= number | sign number | ( expr )].
    A sign is allowed directly before a number only. *)
Inductive addop : Type := Plus | Minus.
Inductive mulop : Type := Times | Divide.

Inductive expr : Type :=
| E_term (t : term)
| E_add (e : expr) (o : addop) (t : term)
with term : Type :=
| T_factor (f : factor)
| T_mul (t : term) (o : mulop) (f : factor)
with factor : Type :=
| F_number (x : float)
| F_signed (o : addop) (x : float)
| F_paren (e : expr).

Scheme expr_term_factor_ind := Induction for expr Sort Prop
  with term_expr_factor_ind := Induction for term Sort Prop
  with factor_expr_term_ind := Induction for factor Sort Prop.

Combined Scheme grammar_ind
  from expr_term_factor_ind, term_expr_factor_ind, factor_expr_term_ind.

Definition addop_symbol (o : addop) : string :=
  match o with Plus => "+" | Minus => "-" end.

Definition mulop_symbol (o : mulop) : string :=
  match o with Times => "*" | Divide => "/" end.

(** The token list of an expression, as the tokenizer delivers it. *)
Fixpoint expr_tokens (e : expr) : list Token :=
  match e with
  | E_term t => term_tokens t
  | E_add e o t => expr_tokens e ++ Str (addop_symbol o) :: term_tokens t
  end
with term_tokens (t : term) : list Token :=
  match t with
  | T_factor f => factor_tokens f
  | T_mul t o f => term_tokens t ++ Str (mulop_symbol o) :: factor_tokens f
  end
with factor_tokens (f : factor) : list Token :=
  match f with
  | F_number x => [Num x]
  | F_signed o x => [Str (addop_symbol o); Num x]
  | F_paren e => Str "(" :: expr_tokens e ++ [Str ")"]
  end.

Definition signed (o : addop) (x : float) : float :=
  match o with Plus => x | Minus => (- x)%float end.

Definition apply_addop (o : addop) (a b : float) : float :=
  match o with Plus => (a + b)%float | Minus => (a - b)%float end.

(** A quotient by a zero has no value. *)
Definition apply_mulop (o : mulop) (a b : float) : option float :=
  match o with
  | Times => Some (a * b)%float
  | Divide => if PrimFloat.eqb b 0 then None else Some (a / b)%float
  end.

(** The value of an expression by the standard rules: the tree of the
    grammar fixes which operation applies to which operands, each operation
    is the binary64 one, operands are evaluated left to right. *)
Fixpoint expr_value (e : expr) : option float :=
  match e with
  | E_term t => term_value t
  | E_add e o t =>
      match expr_value e, term_value t with
      | Some a, Some b => Some (apply_addop o a b)
      | _, _ => None
      end
  end
with term_value (t : term) : option float :=
  match t with
  | T_factor f => factor_value f
  | T_mul t o f =>
      match term_value t, factor_value f with
      | Some a, Some b => apply_mulop o a b
      | _, _ => None
      end
  end
with factor_value (f : factor) : option float :=
  match f with
  | F_number x => Some x
  | F_signed o x => Some (signed o x)
  | F_paren e => expr_value e
  end.

(** The token list after the unary pass. *)
Fixpoint expr_folded (e : expr) : list Token :=
  match e with
  | E_term t => term_folded t
  | E_add e o t => expr_folded e ++ Str (addop_symbol o) :: term_folded t
  end
with term_folded (t : term) : list Token :=
  match t with
  | T_factor f => factor_folded f
  | T_mul t o f => term_folded t ++ Str (mulop_symbol o) :: factor_folded f
  end
with factor_folded (f : factor) : list Token :=
  match f with
  | F_number x => [Num x]
  | F_signed o x => [Num (signed o x)]
  | F_paren e => Str "(" :: expr_folded e ++ [Str ")"]
  end.

(** The postfix form. *)
Fixpoint expr_rpn (e : expr) : list Token :=
  match e with
  | E_term t => term_rpn t
  | E_add e o t => expr_rpn e ++ term_rpn t ++ [Str (addop_symbol o)]
  end
with term_rpn (t : term) : list Token :=
  match t with
  | T_factor f => factor_rpn f
  | T_mul t o f => term_rpn t ++ factor_rpn f ++ [Str (mulop_symbol o)]
  end
with factor_rpn (f : factor) : list Token :=
  match f with
  | F_number x => [Num x]
  | F_signed o x => [Num (signed o x)]
  | F_paren e => expr_rpn e
  end.

(** A token that ends an operand: a number or a closing parenthesis. *)
Definition closes (t : Token) : Prop :=
  match t with
  | Num _ => True
  | Str s => s = ")"
  end.

(** The operator stack at the start of a parenthesised group or of the
    whole expression. *)
Definition at_base (st : list string) : Prop :=
  match st with
  | [] => True
  | top :: _ => top = "("
  end.

(** The operator stack where a term may start: no multiplicative operator
    lies on top. *)
Definition below_term (st : list string) : Prop :=
  match st with
  | [] => True
  | top :: _ => top = "(" \/ top = "+" \/ top = "-"
  end.

Definition is_mulop (s : string) : Prop := s = "*" \/ s = "/".

Definition is_operator (s : string) : Prop :=
  s = "+" \/ s = "-" \/ s = "*" \/ s = "/".

(** The tree of ["(5-3)*8/4"]: [((5-3) * 8) / 4]. *)
Definition example_expr : expr :=
  E_term
    (T_mul
       (T_mul
          (T_factor
             (F_paren
                (E_add (E_term (T_factor (F_number 5))) Minus
                   (T_factor (F_number 3)))))
          Times (F_number 8))
       Divide (F_number 4)).

(** The exception of the branch for an empty RPN with numbers present
    (line 176). *)
Definition empty_rpn_with_numbers_error : exn :=
  mk_exn InvalidExpressionError msg_empty_rpn_with_numbers.

(** A code path that does not end by raising that exception. *)
Definition spares {A : Type} (m : outcome A) : Prop :=
  m <> Raise empty_rpn_with_numbers_error.

(** ** The assertions of the test suite *)

(** [abs(m - expected) < 1e-9] for a returned [m]. *)
Definition returns_close_to (m : outcome float) (expected : float) : bool :=
  match m with
  | Return v => PrimFloat.ltb (PrimFloat.abs (v - expected)) 0x1.12e0be826d695p-30
  | _ => false
  end.

(** [pytest.raises(c)]: an exception of class [c] or of a subclass. *)
Definition raises_instance_of {A : Type} (m : outcome A) (c : exn_class)
  : bool :=
  match m with
  | Raise e => issubclass (exn_type e) c
  | _ => false
  end.

Definition VALID_EXPRESSIONS : list (string * float) :=
  [("1 + 1", 2); ("(2 + 3) * 4", 20); ("-1", -1); ("10.5 + 2.5", 13);
   ("1/3", 1 / 3); ("  1 +   1  ", 2); (".5 + .5", 1); ("5.", 5);
   ("5*-2", -10); ("1 - -1", 2); ("123", 123); ("-10 / -2", 5);
   ("0.0", 0); ("-0.0", 0)]%float.

Definition INVALID_EXPRESSIONS_AND_ERRORS : list (string * exn_class) :=
  [("1 / 0", DivisionByZeroError);
   ("1 +", InvalidExpressionError);
   ("(1 + 2", UnbalancedParenthesesError);
   ("1 @ 2", UnknownCharacterError);
   ("", InvalidExpressionError);
   ("  ", InvalidExpressionError);
   ("abc + 1", UnknownCharacterError);
   ("1 + ( )", InvalidExpressionError);
   ("()", InvalidExpressionError);
   ("1.2.3", InvalidExpressionError);
   ("1+", InvalidExpressionError);
   ("*1", InvalidExpressionError);
   ("1 2", InvalidExpressionError)].

(** ** Names used in the further properties *)

(** Every character of [s] satisfies [p]. *)
Fixpoint string_forallb (p : ascii -> bool) (s : string) : bool :=
  match s with
  | String c s' => p c && string_forallb p s'
  | EmptyString => true
  end.

(** The characters the tokenizer can consume without a mismatch. *)
Definition in_alphabet (c : ascii) : bool :=
  isdigit c || Ascii.eqb c "." || is_operator_char c || isspace c.

(** The same without the dot. *)
Definition in_dotless_alphabet (c : ascii) : bool :=
  isdigit c || is_operator_char c || isspace c.

(** A token as the tokenizer makes them: a number or one of the six
    one-character symbols. *)
Definition lexical (t : Token) : Prop :=
  match t with
  | Num _ => True
  | Str s => In s ["+"; "-"; "*"; "/"; "("; ")"]
  end.

(** A code path that raises, if it raises, an exception whose class
    satisfies [P]. *)
Definition raises_only {A : Type} (P : exn_class -> Prop) (m : outcome A)
  : Prop :=
  forall e, m = Raise e -> P (exn_type e).

(** [s[::-1]], written with the accumulator of [strip]. *)
Definition reverse (s : string) : string := rev_string s EmptyString.

(** The exception of the MISMATCH case for character [c] at [pos]. *)
Definition unknown_character_error (c : ascii) (pos : nat) : exn :=
  mk_exn UnknownCharacterError
    [Text "Unknown character '"; Text (String c EmptyString);
     Text "' in expression at position "; OfNat pos; Text "."].

(** The exceptions of the raise sites the further properties name. *)
Definition missing_left_error : exn :=
  mk_exn UnbalancedParenthesesError msg_missing_left.

Definition missing_right_error : exn :=
  mk_exn UnbalancedParenthesesError msg_missing_right.

Definition unknown_token_error (s : string) : exn :=
  mk_exn InvalidExpressionError
    [Text "Unknown token during RPN conversion: "; OfToken (Str s)].

Definition unknown_rpn_token_error (s : string) : exn :=
  mk_exn InvalidExpressionError
    [Text "Unknown token in RPN expression: "; OfToken (Str s)].

Definition division_by_zero_error : exn :=
  mk_exn DivisionByZeroError msg_division_by_zero.

Definition not_enough_operands_error : exn :=
  mk_exn InvalidExpressionError msg_not_enough_operands.

Definition stack_size_error (n : nat) (rpn_tokens : list Token) : exn :=
  mk_exn InvalidExpressionError
    [Text "Invalid RPN expression: stack should have 1 result, has ";
     OfNat n; Text ". Original RPN: "; OfTokens rpn_tokens].

(** The four classes at the leaves of the hierarchy and below
    [SafeEvalError]; the base class itself is not one of them. *)
Definition specific_error (c : exn_class) : Prop :=
  c = InvalidExpressionError \/ c = DivisionByZeroError
  \/ c = UnbalancedParenthesesError \/ c = UnknownCharacterError.

Definition is_string (t : Token) : bool := negb (is_number t).

Definition is_paren (t : Token) : bool := token_in t ["("; ")"].

(** The tokens of a list that are no parentheses, in their order. *)
Definition without_parens (l : list Token) : list Token :=
  filter (fun t => negb (is_paren t)) l.

(** The operators on the operator stack, in their order. *)
Definition operators_on (st : list string) : list string :=
  filter (fun s => negb (String.eqb s "(")) st.

(** The number of open parentheses on the operator stack. *)
Definition count_open (st : list string) : nat :=
  List.length (filter (fun s => String.eqb s "(") st).

(** The parentheses of a token list match: read from the left with
    [depth] groups open, no [')'] comes without an open group and no group
    is left open. *)
Fixpoint balanced (depth : nat) (tokens : list Token) : bool :=
  match tokens with
  | [] => depth =? 0
  | Num _ :: rest => balanced depth rest
  | Str s :: rest =>
      if String.eqb s "(" then balanced (S depth) rest
      else if String.eqb s ")" then
             match depth with
             | O => false
             | S d => balanced d rest
             end
           else balanced depth rest
  end.

(** ** The tool servers *)

(** What the two tool functions share: the log, the payload of a
    [FastMCPError] and the way a call ends.  [FastMCPError(message, code,
    data)] is kept as its three arguments ([args]).  A log message and a
    payload value keep the values an f-string or [str()] formats, left
    unformatted. *)
Inductive log_level : Type := INFO | WARNING | ERROR.

Inductive log_piece : Type :=
| LText (s : string)
| LObj (x : pyobj)
| LFloat (x : float)
| LInt (n : Z)
| LMsg (m : message).

Definition log_record : Type := log_level * list log_piece.

Inductive value : Type :=
| Obj (x : pyobj)
| StrOf (x : pyobj)
| Float (x : float)
| MessageOf (m : message).

Record FastMCPError : Type := mk_FastMCPError {
  args_message : message;
  args_code : Z;
  args_data : list (string * value)
}.

Inductive tool_outcome : Type :=
| ToolReturn (d : list (string * value))
| ToolRaise (e : FastMCPError)
| ToolOutOfFuel.

(** The double quote character. *)
Definition dq : string := String "034"%char EmptyString.

(** *** calculator_server.calculator_tool *)

Definition ERROR_INVALID_ARITHMETIC_EXPRESSION : Z := (-32000)%Z.
Definition ERROR_DIVISION_BY_ZERO : Z := (-32001)%Z.

(** The [try] statement of [calculator_tool] on the outcome of
    [safe_evaluate_expression]; the [except] clauses are tried in their
    order.  ([exc_info=True] of the last clause adds the traceback to the
    log record; it is not kept.) *)
Definition calculator_try (expression : pyobj) (m : outcome float)
  : list log_record * tool_outcome :=
  match m with
  | Return result =>
      ([(INFO, [LText "Expression "; LText dq; LObj expression; LText dq;
                LText " evaluated to: "; LFloat result])],
       ToolReturn [("value", Float result)])
  | Raise e =>
      if issubclass (exn_type e) DivisionByZeroError then
        ([(WARNING, [LText "Division by zero: "; LText dq; LObj expression;
                     LText dq; LText ". Error: "; LMsg (exn_msg e)])],
         ToolRaise
           (mk_FastMCPError (exn_msg e) ERROR_DIVISION_BY_ZERO
              [("input_expression", Obj expression)]))
      else if issubclass (exn_type e) InvalidExpressionError
              || issubclass (exn_type e) UnbalancedParenthesesError
              || issubclass (exn_type e) UnknownCharacterError then
        ([(WARNING, [LText "Invalid expression: "; LText dq; LObj expression;
                     LText dq; LText ". Error: "; LMsg (exn_msg e)])],
         ToolRaise
           (mk_FastMCPError (exn_msg e) ERROR_INVALID_ARITHMETIC_EXPRESSION
              [("input_expression", Obj expression)]))
      else if issubclass (exn_type e) SafeEvalError then
        ([(ERROR, [LText "Evaluation error for "; LText dq; LObj expression;
                   LText dq; LText ": "; LMsg (exn_msg e)])],
         ToolRaise
           (mk_FastMCPError (exn_msg e) ERROR_INVALID_ARITHMETIC_EXPRESSION
              [("input_expression", Obj expression)]))
      else
        ([(ERROR, [LText "Unexpected error for "; LText dq; LObj expression;
                   LText dq; LText ": "; LMsg (exn_msg e)])],
         ToolRaise
           (mk_FastMCPError [Text "An unexpected internal error occurred."]
              (-32603)
              [("input_expression", Obj expression);
               ("error_details", MessageOf (exn_msg e))]))
  | OutOfFuel => ([], ToolOutOfFuel)
  end.

Definition calculator_tool (expression : pyobj)
  : list log_record * tool_outcome :=
  let called :=
    (INFO, [LText "Calculator tool called with expression: "; LText dq;
            LObj expression; LText dq]) in
  match expression with
  | PyStr _ =>
      let '(log, out) :=
        calculator_try expression (safe_evaluate_expression expression) in
      (called :: log, out)
  | _ =>
      ([called; (ERROR, [LText "Expression is not a string."])],
       ToolRaise
         (mk_FastMCPError
            [Text "Invalid input: expression must be a string."] (-32602)
            [("input_expression", StrOf expression)]))
  end.

(** *** shell_server.shell_tool *)

Definition ERROR_INVALID_WORKING_DIR : Z := (-32002)%Z.

(** The classes of the exceptions [subprocess.run] can end with, as far
    as the [except] clauses tell them apart. *)
Inductive run_exn_class : Type :=
| FileNotFoundError
| NotADirectoryError
| OtherException.

(** How [subprocess.run(command, shell=True, capture_output=True,
    text=True)] ends: with a completed process or with an exception [e],
    of which [str(e)] is kept. *)
Inductive run_result : Type :=
| CompletedProcess (stdout stderr : string) (returncode : Z)
| RunRaise (c : run_exn_class) (str_e : string).

(** The operating system seen from [shell_tool]: what running a command
    gives, without a [cwd] argument ([None]) or with one. *)
Definition subprocess_run : Type := string -> option string -> run_result.

(** The truth value of an object, as [if x:] takes it. *)
Definition truthy (x : pyobj) : bool :=
  match x with
  | PyStr s => negb (String.length s =? 0)
  | PyInt n => negb (Z.eqb n 0)
  | PyFloat f => negb (PrimFloat.eqb f 0)
  | PyNone => false
  | PyList l => negb (List.length l =? 0)
  end.

Definition shell_tool (run : subprocess_run) (command working_dir : pyobj)
  : list log_record * tool_outcome :=
  let log_details :=
    [LText "command: "; LText dq; LObj command; LText dq]
    ++ (if truthy working_dir
        then [LText ", "; LText "working_dir: "; LText dq; LObj working_dir;
              LText dq]
        else []) in
  let called := (INFO, LText "Shell tool called with " :: log_details) in
  match command with
  | PyStr cmd =>
      let checked :=
        match working_dir with
        | PyNone => Some None
        | PyStr dir => Some (if truthy working_dir then Some dir else None)
        | _ => None
        end in
      match checked with
      | None =>
          ([called; (ERROR, [LText "Working directory is not a string."])],
           ToolRaise
             (mk_FastMCPError
                [Text "Invalid input: working_dir must be a string if provided."]
                (-32602)
                [("input_command", Obj command);
                 ("working_dir", StrOf working_dir)]))
      | Some cwd =>
          match run cmd cwd with
          | CompletedProcess out err returncode =>
              let stdout := strip out in
              let stderr := strip err in
              ([called;
                (INFO,
                 [LText "Command "; LText dq; LObj command; LText dq;
                  LText " executed"]
                 ++ (if truthy working_dir
                     then [LText "in working_dir "; LText dq;
                           LObj working_dir; LText dq]
                     else [])
                 ++ [LText "."]);
                (INFO, [LText "  Return Code: "; LInt returncode]);
                (INFO, [LText "  Stdout: "; LText dq; LText stdout; LText dq]);
                (INFO, [LText "  Stderr: "; LText dq; LText stderr; LText dq])],
               ToolReturn
                 [("stdout", Obj (PyStr stdout));
                  ("stderr", Obj (PyStr stderr));
                  ("returncode", Obj (PyInt returncode))])
          | RunRaise FileNotFoundError str_e =>
              ([called;
                (WARNING,
                 [LText "Working directory not found for command ";
                  LText dq; LObj command; LText dq; LText ": "; LText dq;
                  LObj working_dir; LText dq; LText ". Error: ";
                  LText str_e])],
               ToolRaise
                 (mk_FastMCPError
                    [Text "Working directory not found: "; Text dq;
                     Text (match working_dir with
                           | PyStr dir => dir
                           | _ => "None"
                           end);
                     Text dq]
                    ERROR_INVALID_WORKING_DIR
                    [("command", Obj command);
                     ("working_dir", Obj working_dir);
                     ("error_details", Obj (PyStr str_e))]))
          | RunRaise NotADirectoryError str_e =>
              ([called;
                (WARNING,
                 [LText "Specified working_dir is not a directory for command ";
                  LText dq; LObj command; LText dq; LText ": "; LText dq;
                  LObj working_dir; LText dq; LText ". Error: ";
                  LText str_e])],
               ToolRaise
                 (mk_FastMCPError
                    [Text "Specified working_dir is not a directory: ";
                     Text dq;
                     Text (match working_dir with
                           | PyStr dir => dir
                           | _ => "None"
                           end);
                     Text dq]
                    ERROR_INVALID_WORKING_DIR
                    [("command", Obj command);
                     ("working_dir", Obj working_dir);
                     ("error_details", Obj (PyStr str_e))]))
          | RunRaise OtherException str_e =>
              ([called;
                (ERROR,
                 [LText "Error executing command "; LText dq; LObj command;
                  LText dq; LText " (working_dir: "; LObj working_dir;
                  LText "): "; LText str_e])],
               ToolRaise
                 (mk_FastMCPError
                    [Text "An unexpected error occurred while executing the command: ";
                     Text str_e]
                    (-32000)
                    ([("command", Obj command);
                      ("error_details", Obj (PyStr str_e))]
                     ++ (if truthy working_dir
                         then [("working_dir", Obj working_dir)]
                         else []))))
          end
      end
  | _ =>
      ([called; (ERROR, [LText "Command is not a string."])],
       ToolRaise
         (mk_FastMCPError
            [Text "Invalid input: command must be a string."] (-32602)
            [("input_command", StrOf command);
             ("working_dir", Obj working_dir)]))
  end.

(** The code [calculator_tool] gives to an evaluation error of class [c]. *)
Definition evaluation_error_code (c : exn_class) : Z :=
  if exn_class_eqb c DivisionByZeroError then ERROR_DIVISION_BY_ZERO
  else ERROR_INVALID_ARITHMETIC_EXPRESSION.

(** The record every call of [calculator_tool] logs first. *)
Definition calculator_called (expression : pyobj) : log_record :=
  (INFO, [LText "Calculator tool called with expression: "; LText dq;
          LObj expression; LText dq]).

Definition is_str (x : pyobj) : bool :=
  match x with PyStr _ => true | _ => false end.

(** The [cwd] argument [shell_tool] passes to [subprocess.run]: the
    working directory when it is a string that is not empty, none
    otherwise. *)
Definition cwd_argument (working_dir : pyobj) : option string :=
  match working_dir with
  | PyStr dir => if truthy working_dir then Some dir else None
  | _ => None
  end.

(** The arguments [shell_tool] accepts: a string command, and a working
    directory that is [None] or a string. *)
Definition valid_shell_arguments (command working_dir : pyobj) : bool :=
  is_str command
  && match working_dir with
     | PyNone | PyStr _ => true
     | _ => false
     end.

(** A system on which every command prints a greeting and a newline. *)
Definition echo_run : subprocess_run :=
  fun _ _ =>
    CompletedProcess ("hello world" ++ String "010"%char EmptyString)
      EmptyString 0.

(** A system on which no working directory exists. *)
Definition no_directory_run : subprocess_run :=
  fun _ cwd =>
    match cwd with
    | Some _ => RunRaise FileNotFoundError "No such file or directory"
    | None => CompletedProcess EmptyString EmptyString 0
    end.

(** The tokens [tokenize] returns, or [None] when it does not return. *)
Definition tokens_of (m : outcome (list Token)) : option (list Token) :=
  match m with
  | Return tokens => Some tokens
  | _ => None
  end.

Definition lexemes (s : string) : option (list Token) :=
  tokens_of (tokenize s).

(** The tokens of a text made of a first match of group [k] and text
    [value] and of a rest whose tokens are [tail]. *)
Definition lexemes_step (k : kind) (value : string)
  (tail : option (list Token)) : option (list Token) :=
  match k with
  | NUMBER =>
      match float_of_str value with
      | Return x => option_map (cons (Num x)) tail
      | _ => None
      end
  | OPERATOR => option_map (cons (Str value)) tail
  | SPACE => tail
  | MISMATCH => None
  end.

(** The tokens of two texts with [mid] between them, when both texts have
    tokens. *)
Definition join_tokens (mid : list Token) (ta tb : option (list Token))
  : option (list Token) :=
  match ta, tb with
  | Some x, Some y => Some (x ++ mid ++ y)
  | _, _ => None
  end.

(** The assertions of the tool tests: the value returned, and the code
    and [input_expression] of the error raised. *)
Definition VALID_TOOL_CALLS : list (string * float) :=
  [("1 + 1", 2); ("-5.5 * 2", -11); ("(5-3)*8/4", 4)]%float.

Definition ERROR_TOOL_CALLS : list (string * Z) :=
  [("1 / 0", ERROR_DIVISION_BY_ZERO);
   ("1 +", ERROR_INVALID_ARITHMETIC_EXPRESSION);
   ("1 % 2", ERROR_INVALID_ARITHMETIC_EXPRESSION);
   ("()", ERROR_INVALID_ARITHMETIC_EXPRESSION)].

Definition returns_value_close_to (r : tool_outcome) (expected : float) : bool :=
  match r with
  | ToolReturn [(key, Float v)] =>
      String.eqb key "value" && returns_close_to (Return v) expected
  | _ => false
  end.

Definition raises_code (r : tool_outcome) (code : Z) : bool :=
  match r with
  | ToolRaise err => Z.eqb (args_code err) code
  | _ => false
  end.

Definition raises_for_expression (r : tool_outcome) (expression : string)
  : bool :=
  match r with
  | ToolRaise err =>
      match dict_get (args_data err) "input_expression" with
      | Some (Obj (PyStr s)) => String.eqb s expression
      | _ => false
      end
  | _ => false
  end.

(** ** Written expressions *)

(** A decimal literal and the float it denotes: digits, or digits, a dot
    and digits, where one of the two parts beside the dot may be missing
    (["5."], [".5"]). *)
Inductive literal : string -> float -> Prop :=
| literal_integer (a : string) :
    string_forallb isdigit a = true -> a <> EmptyString ->
    literal a (decimal_to_float (digits_value a 0) 0)
| literal_decimal (a b : string) :
    string_forallb isdigit a = true -> string_forallb isdigit b = true ->
    0 < String.length a + String.length b ->
    literal (a ++ String "."%char b)
      (decimal_to_float (digits_value (a ++ b) 0) (String.length b)).

(** What may follow a literal in a text: nothing, or a character that is
    no digit and no dot. *)
Definition number_ends (rest : string) : Prop :=
  match rest with
  | EmptyString => True
  | String d _ => isdigit d = false /\ Ascii.eqb d "." = false
  end.

(** [writes s tokens]: the text [s] writes the token list [tokens], each
    number as a decimal literal, each operator and parenthesis as its
    character, with any whitespace before, between and after them. *)
Inductive writes : string -> list Token -> Prop :=
| writes_end (ws : string) :
    string_forallb isspace ws = true -> writes ws []
| writes_symbol (ws : string) (op : ascii) (rest : string) (tokens : list Token) :
    string_forallb isspace ws = true -> is_operator_char op = true ->
    writes rest tokens ->
    writes (ws ++ String op rest) (Str (String op EmptyString) :: tokens)
| writes_number (ws l : string) (x : float) (rest : string) (tokens : list Token) :
    string_forallb isspace ws = true -> literal l x -> number_ends rest ->
    writes rest tokens ->
    writes (ws ++ l ++ rest) (Num x :: tokens).

(** The expressions of precedence and left associativity in which a sign
    may stand before any factor: before a number, before a parenthesised
    group and before another sign. *)
Inductive sexpr : Type :=
| SE_term (t : sterm)
| SE_add (e : sexpr) (o : addop) (t : sterm)
with sterm : Type :=
| ST_factor (f : sfactor)
| ST_mul (t : sterm) (o : mulop) (f : sfactor)
with sfactor : Type :=
| SF_number (x : float)
| SF_sign (o : addop) (f : sfactor)
| SF_paren (e : sexpr).

Fixpoint sexpr_tokens (e : sexpr) : list Token :=
  match e with
  | SE_term t => sterm_tokens t
  | SE_add e o t => sexpr_tokens e ++ Str (addop_symbol o) :: sterm_tokens t
  end
with sterm_tokens (t : sterm) : list Token :=
  match t with
  | ST_factor f => sfactor_tokens f
  | ST_mul t o f => sterm_tokens t ++ Str (mulop_symbol o) :: sfactor_tokens f
  end
with sfactor_tokens (f : sfactor) : list Token :=
  match f with
  | SF_number x => [Num x]
  | SF_sign o f => Str (addop_symbol o) :: sfactor_tokens f
  | SF_paren e => Str "(" :: sexpr_tokens e ++ [Str ")"]
  end.

(** Their value by the standard rules; a sign applies to the value of the
    factor it stands before. *)
Fixpoint sexpr_value (e : sexpr) : option float :=
  match e with
  | SE_term t => sterm_value t
  | SE_add e o t =>
      match sexpr_value e, sterm_value t with
      | Some a, Some b => Some (apply_addop o a b)
      | _, _ => None
      end
  end
with sterm_value (t : sterm) : option float :=
  match t with
  | ST_factor f => sfactor_value f
  | ST_mul t o f =>
      match sterm_value t, sfactor_value f with
      | Some a, Some b => apply_mulop o a b
      | _, _ => None
      end
  end
with sfactor_value (f : sfactor) : option float :=
  match f with
  | SF_number x => Some x
  | SF_sign o f => option_map (signed o) (sfactor_value f)
  | SF_paren e => sexpr_value e
  end.

(** The tree of ["-(5-3)"]: the negation of the group [(5-3)]. *)
Definition negated_group : sexpr :=
  SE_term
    (ST_factor
       (SF_sign Minus
          (SF_paren
             (SE_add (SE_term (ST_factor (SF_number 5))) Minus
                (ST_factor (SF_number 3)))))).

(** The tree of [".5 + 1.5*2"]. *)
Definition decimal_example : expr :=
  E_add (E_term (T_factor (F_number 0.5))) Plus
    (T_mul (T_factor (F_number 1.5)) Times (F_number 2)).

(** * Properties *)

(** ** The model passes the repository's tests *)

Lemma test_valid_expressions :
  forallb (fun '(expression, expected) =>
             returns_close_to (t_eval expression) expected)
    VALID_EXPRESSIONS = true.
Proof. vm_compute. reflexivity. Qed.

Lemma test_invalid_expressions :
  forallb (fun '(expression, error_type) =>
             raises_instance_of (t_eval expression) error_type)
    INVALID_EXPRESSIONS_AND_ERRORS = true.
Proof. vm_compute. reflexivity. Qed.

Lemma test_non_string_input :
  raises_instance_of (safe_evaluate_expression (PyInt 123)) TypeError = true
  /\ raises_instance_of (safe_evaluate_expression PyNone) TypeError = true
  /\ raises_instance_of
       (safe_evaluate_expression (PyList [Num 1; Str "+"; Num 1])) TypeError
     = true.
Proof. repeat split. Qed.

(** ** Generic facts about the runtime *)

Lemma bind_Return_inv {A B : Type} (m : outcome A) (k : A -> outcome B) b :
  bind m k = Return b -> exists a, m = Return a /\ k a = Return b.
Proof. destruct m; simpl; intros H; try discriminate. eauto. Qed.

Lemma bind_assoc {A B C : Type} (m : outcome A) (f : A -> outcome B)
  (g : B -> outcome C) :
  bind (bind m f) g = bind m (fun a => bind (f a) g).
Proof. destruct m; reflexivity. Qed.

Lemma PRECEDENCE_keys s p :
  dict_get PRECEDENCE s = Some p ->
  s = "+" \/ s = "-" \/ s = "*" \/ s = "/".
Proof.
  unfold PRECEDENCE, dict_get.
  repeat match goal with
         | |- context [String.eqb ?a s] =>
             destruct (String.eqb_spec a s); [subst; tauto|]
         end.
  discriminate.
Qed.

Lemma OPERATORS_keys s f :
  dict_get OPERATORS s = Some f ->
  s = "+" \/ s = "-" \/ s = "*" \/ s = "/".
Proof.
  unfold OPERATORS, dict_get.
  repeat match goal with
         | |- context [String.eqb ?a s] =>
             destruct (String.eqb_spec a s); [subst; tauto|]
         end.
  discriminate.
Qed.

(** ** The evaluator *)

Lemma evaluate_loop_app pre rest stack :
  evaluate_loop (pre ++ rest) stack =
  (stack' <- evaluate_loop pre stack ;; evaluate_loop rest stack').
Proof.
  revert stack; induction pre as [|t pre IH]; intros stack;
    cbn [evaluate_loop app bind].
  - reflexivity.
  - destruct t as [x|s].
    + apply IH.
    + destruct (dict_get OPERATORS s); [|reflexivity].
      rewrite bind_assoc.
      destruct (apply_operator s stack); cbn [bind]; auto.
Qed.

Lemma apply_operator_values op1 op2 below :
  apply_operator "+" (op2 :: op1 :: below) = Return ((op1 + op2)%float :: below)
  /\ apply_operator "-" (op2 :: op1 :: below) = Return ((op1 - op2)%float :: below)
  /\ apply_operator "*" (op2 :: op1 :: below) = Return ((op1 * op2)%float :: below)
  /\ (PrimFloat.eqb op2 0 = false ->
      apply_operator "/" (op2 :: op1 :: below) = Return ((op1 / op2)%float :: below)).
Proof.
  repeat split; try reflexivity.
  intros Hz. unfold apply_operator.
  change (String.eqb "/" "/") with true. rewrite Hz.
  cbn [andb]. change (dict_item OPERATORS "/") with (Return truediv).
  cbn [bind]. unfold truediv. rewrite Hz. reflexivity.
Qed.



Lemma evaluate_rpn_Raise pre rest stack e :
  evaluate_loop pre [] = Return stack ->
  evaluate_loop rest stack = Raise e ->
  evaluate_rpn (pre ++ rest) = Raise e.
Proof.
  intros Hpre Hrest. unfold evaluate_rpn.
  rewrite evaluate_loop_app, Hpre. cbn [bind]. rewrite Hrest. reflexivity.
Qed.

(** C4: whenever the evaluator reaches a ['/'] with a second operand equal
    to zero (either zero of the format), it raises [DivisionByZeroError];
    the division is not attempted, so neither its [ZeroDivisionError] nor
    a wrapped [SafeEvalError] comes out, and a quotient is computed only
    for a second operand other than zero.  ["1 / 0"] raises
    [DivisionByZeroError]. *)
Theorem division_by_zero_checked_first :
  (forall op1 op2 below,
      PrimFloat.eqb op2 0 = true ->
      apply_operator "/" (op2 :: op1 :: below) =
      raise DivisionByZeroError msg_division_by_zero)
  /\ (forall pre rest op1 op2 below,
         evaluate_loop pre [] = Return (op2 :: op1 :: below) ->
         PrimFloat.eqb op2 0 = true ->
         evaluate_rpn (pre ++ Str "/" :: rest) =
         raise DivisionByZeroError msg_division_by_zero)
  /\ (forall op1 op2 below stack,
         apply_operator "/" (op2 :: op1 :: below) = Return stack ->
         PrimFloat.eqb op2 0 = false /\ stack = (op1 / op2)%float :: below)
  /\ t_eval "1 / 0" = raise DivisionByZeroError msg_division_by_zero.
Proof.
  assert (Hop : forall op1 op2 below,
      PrimFloat.eqb op2 0 = true ->
      apply_operator "/" (op2 :: op1 :: below) =
      raise DivisionByZeroError msg_division_by_zero).
  { intros op1 op2 below Hz. unfold apply_operator.
    change (String.eqb "/" "/") with true. rewrite Hz. reflexivity. }
  split; [exact Hop|]. split; [|split].
  - intros pre rest op1 op2 below Hpre Hz.
    apply evaluate_rpn_Raise with (stack := op2 :: op1 :: below); [exact Hpre|].
    cbn [evaluate_loop]. change (dict_get OPERATORS "/") with (Some truediv).
    rewrite (Hop op1 op2 below Hz). reflexivity.
  - intros op1 op2 below stack.
    destruct (PrimFloat.eqb op2 0) eqn:Hz.
    + rewrite (Hop op1 op2 below Hz). discriminate.
    + rewrite (proj2 (proj2 (proj2 (apply_operator_values op1 op2 below))) Hz).
      intros H. injection H as <-. now split.
  - vm_compute. reflexivity.
Qed.

Lemma division_by_zero_checked_first_witness :
  evaluate_loop [Num 1; Num (-0)] [] = Return [(-0)%float; 1%float]
  /\ PrimFloat.eqb (-0) 0 = true
  /\ evaluate_rpn ([Num 1; Num (-0)] ++ Str "/" :: [Num 2; Str "+"]) =
     raise DivisionByZeroError msg_division_by_zero.
Proof.
  split; [reflexivity|]. split; [reflexivity|].
  apply (proj1 (proj2 division_by_zero_checked_first)
           [Num 1; Num (-0)] [Num 2; Str "+"] 1%float (-0)%float []);
    reflexivity.
Defined.

(** C7: an operator met with fewer than two values on the operand stack
    raises [InvalidExpressionError]; so does the end of the tokens with a
    number of values on the stack other than one; ["1 +"] raises
    [InvalidExpressionError]. *)
Theorem evaluator_stack_errors :
  (forall s f stack,
      dict_get OPERATORS s = Some f ->
      List.length stack < 2 ->
      apply_operator s stack =
      raise InvalidExpressionError msg_not_enough_operands)
  /\ (forall pre s f rest stack,
         evaluate_loop pre [] = Return stack ->
         dict_get OPERATORS s = Some f ->
         List.length stack < 2 ->
         evaluate_rpn (pre ++ Str s :: rest) =
         raise InvalidExpressionError msg_not_enough_operands)
  /\ (forall rpn_tokens stack,
         evaluate_loop rpn_tokens [] = Return stack ->
         List.length stack <> 1 ->
         evaluate_rpn rpn_tokens =
         raise InvalidExpressionError
           [Text "Invalid RPN expression: stack should have 1 result, has ";
            OfNat (List.length stack); Text ". Original RPN: ";
            OfTokens rpn_tokens])
  /\ t_eval "1 +" = raise InvalidExpressionError msg_not_enough_operands.
Proof.
  assert (Hop : forall s f stack,
      dict_get OPERATORS s = Some f ->
      List.length stack < 2 ->
      apply_operator s stack =
      raise InvalidExpressionError msg_not_enough_operands).
  { intros s f [|op2 [|op1 below]] _ Hlen; try reflexivity.
    cbn [List.length] in Hlen. lia. }
  split; [exact Hop|]. split; [|split].
  - intros pre s f rest stack Hpre Hs Hlen.
    apply evaluate_rpn_Raise with (stack := stack); [exact Hpre|].
    cbn [evaluate_loop]. rewrite Hs, (Hop s f stack Hs Hlen). reflexivity.
  - intros rpn_tokens stack Hrun Hlen. unfold evaluate_rpn.
    rewrite Hrun. cbn [bind].
    destruct stack as [|x [|y stack]]; try reflexivity.
    cbn [List.length] in Hlen. lia.
  - vm_compute. reflexivity.
Qed.

Lemma evaluator_stack_errors_witness :
  evaluate_loop [Num 1; Num 2] [] = Return [2; 1]%float
  /\ List.length [2; 1]%float <> 1
  /\ evaluate_rpn [Num 1; Num 2] =
     raise InvalidExpressionError
       [Text "Invalid RPN expression: stack should have 1 result, has ";
        OfNat 2; Text ". Original RPN: "; OfTokens [Num 1; Num 2]].
Proof.
  split; [reflexivity|]. split; [cbn; lia|].
  apply (proj1 (proj2 (proj2 evaluator_stack_errors))
           [Num 1; Num 2] [2; 1]%float); [reflexivity | cbn; lia].
Defined.

(** ** The converter: the shunting-yard loop *)

Lemma shunting_loop_app pre rest out st :
  shunting_loop (pre ++ rest) out st =
  ('(out', st') <- shunting_loop pre out st ;; shunting_loop rest out' st').
Proof.
  revert out st; induction pre as [|t pre IH]; intros out st;
    cbn [shunting_loop app bind].
  - reflexivity.
  - destruct t as [x|s]; [apply IH|].
    destruct (dict_get PRECEDENCE s).
    + rewrite bind_assoc.
      destruct (pop_operators s out st) as [[out1 st1]| |]; cbn [bind]; auto.
    + destruct (String.eqb s "("); [apply IH|].
      destruct (String.eqb s ")"); [|reflexivity].
      destruct (pop_to_paren out st) as [out1 [|top below]]; [reflexivity|].
      destruct (negb (String.eqb top "(")); [reflexivity|apply IH].
Qed.

Lemma pop_to_paren_no_paren out st :
  ~ In "(" st -> pop_to_paren out st = (out ++ map Str st, []).
Proof.
  revert out; induction st as [|top below IH]; intros out Hno;
    cbn [pop_to_paren map].
  - now rewrite app_nil_r.
  - destruct (String.eqb_spec top "(") as [->|Hne].
    + exfalso; apply Hno; now left.
    + cbn [negb]. rewrite IH by (intros Hin; apply Hno; now right).
      now rewrite <- app_assoc.
Qed.

Lemma drain_paren out st :
  In "(" st -> drain out st = raise UnbalancedParenthesesError msg_missing_right.
Proof.
  revert out; induction st as [|top below IH]; intros out Hin;
    cbn [drain]; [destruct Hin|].
  destruct (String.eqb_spec top "(") as [->|Hne]; [reflexivity|].
  apply IH. destruct Hin as [Heq|Hin]; [congruence|exact Hin].
Qed.

(** C6: a [')'] met while the operator stack holds no ['('] raises
    [UnbalancedParenthesesError] (missing left parenthesis); a ['(']
    still on the operator stack when the tokens are used up raises
    [UnbalancedParenthesesError] (missing right parenthesis); ["(1 + 2"]
    raises [UnbalancedParenthesesError]. *)
Theorem unbalanced_parentheses :
  (forall tokens pre rest out st,
      unary_loop (List.length tokens) tokens 0 [] = Return (pre ++ Str ")" :: rest) ->
      shunting_loop pre [] [] = Return (out, st) ->
      ~ In "(" st ->
      infix_to_rpn tokens = raise UnbalancedParenthesesError msg_missing_left)
  /\ (forall tokens processed out st,
         unary_loop (List.length tokens) tokens 0 [] = Return processed ->
         shunting_loop processed [] [] = Return (out, st) ->
         In "(" st ->
         infix_to_rpn tokens = raise UnbalancedParenthesesError msg_missing_right)
  /\ t_eval "(1 + 2" = raise UnbalancedParenthesesError msg_missing_right
  /\ t_eval "1 + 2)" = raise UnbalancedParenthesesError msg_missing_left.
Proof.
  split; [|split; [|split]].
  - intros tokens pre rest out st Hun Hpre Hno. unfold infix_to_rpn.
    rewrite Hun. cbn [bind]. rewrite shunting_loop_app, Hpre. cbn [bind].
    cbn [shunting_loop].
    change (dict_get PRECEDENCE ")") with (@None nat).
    change (String.eqb ")" "(") with false.
    change (String.eqb ")" ")") with true. cbn iota.
    rewrite (pop_to_paren_no_paren out st Hno). reflexivity.
  - intros tokens processed out st Hun Hrun Hin. unfold infix_to_rpn.
    rewrite Hun. cbn [bind]. rewrite Hrun. cbn [bind].
    apply drain_paren, Hin.
  - vm_compute. reflexivity.
  - vm_compute. reflexivity.
Qed.

Lemma unbalanced_parentheses_witness :
  unary_loop 2 [Num 1; Str ")"] 0 [] = Return ([Num 1] ++ Str ")" :: [])
  /\ shunting_loop [Num 1] [] [] = Return ([Num 1], [])
  /\ ~ In "(" (@nil string)
  /\ infix_to_rpn [Num 1; Str ")"] =
     raise UnbalancedParenthesesError msg_missing_left.
Proof.
  split; [reflexivity|]. split; [reflexivity|]. split; [intros []|].
  apply (proj1 unbalanced_parentheses [Num 1; Str ")"] [Num 1] [] [Num 1] []);
    [reflexivity | reflexivity | intros []].
Defined.

Lemma pop_operators_inv token out st out' st' :
  pop_operators token out st = Return (out', st') ->
  exists popped,
    st = popped ++ st' /\ out' = out ++ map Str popped /\ ~ In "(" popped.
Proof.
  revert out; induction st as [|top below IH]; intros out;
    cbn [pop_operators].
  - intros H; injection H as <- <-. exists []. cbn. rewrite app_nil_r. tauto.
  - destruct (String.eqb_spec top "(") as [->|Hne].
    { intros H; injection H as <- <-. exists []. cbn. rewrite app_nil_r. tauto. }
    assert (Hrec : pop_operators token (out ++ [Str top]) below = Return (out', st') ->
                   exists popped, top :: below = popped ++ st'
                                  /\ out' = out ++ map Str popped /\ ~ In "(" popped).
    { intros H. destruct (IH _ H) as (popped & -> & -> & Hno).
      exists (top :: popped). cbn [map app]. rewrite <- app_assoc.
      repeat split; auto. intros [Heq|Hin]; [congruence|auto]. }
    assert (Hstop : @Return (list Token * list string) (out, top :: below)
                    = Return (out', st') ->
                   exists popped, top :: below = popped ++ st'
                                  /\ out' = out ++ map Str popped /\ ~ In "(" popped).
    { intros H; injection H as <- <-. exists []. cbn. rewrite app_nil_r. tauto. }
    destruct (dict_item PRECEDENCE token) as [p| |]; cbn [bind];
      try discriminate.
    destruct (p <? _); [exact Hrec|].
    destruct (_ =? p); [|exact Hstop].
    destruct (dict_item ASSOCIATIVITY token) as [a| |]; cbn [bind];
      try discriminate.
    destruct (String.eqb a "L"); [exact Hrec|exact Hstop].
Qed.

Lemma pop_to_paren_inv out st :
  exists popped,
    st = popped ++ snd (pop_to_paren out st)
    /\ fst (pop_to_paren out st) = out ++ map Str popped
    /\ ~ In "(" popped.
Proof.
  revert out; induction st as [|top below IH]; intros out;
    cbn [pop_to_paren].
  - exists []. cbn. rewrite app_nil_r. tauto.
  - destruct (String.eqb_spec top "(") as [->|Hne]; cbn [negb].
    + exists []. cbn. rewrite app_nil_r. tauto.
    + destruct (IH (out ++ [Str top])) as (popped & Hst & Hout & Hno).
      exists (top :: popped). cbn [map app]. rewrite Hout, <- app_assoc.
      repeat split; auto; [now f_equal|].
      intros [Heq|Hin]; [congruence|auto].
Qed.

Lemma stack_symbol_rpn_token s :
  stack_symbol s -> s <> "(" -> rpn_token (Str s).
Proof. unfold stack_symbol; cbn. intuition congruence. Qed.

Lemma popped_rpn_tokens popped :
  Forall stack_symbol popped -> ~ In "(" popped ->
  Forall rpn_token (map Str popped).
Proof.
  induction 1 as [|s l Hs Hl IH]; intros Hno; cbn [map]; constructor.
  - apply stack_symbol_rpn_token; [exact Hs|].
    intros ->; apply Hno; now left.
  - apply IH. intros Hin; apply Hno; now right.
Qed.

Lemma shunting_loop_shape tokens out st out' st' :
  shunting_loop tokens out st = Return (out', st') ->
  Forall rpn_token out -> Forall stack_symbol st ->
  Forall rpn_token out' /\ Forall stack_symbol st'.
Proof.
  revert out st; induction tokens as [|t rest IH]; intros out st;
    cbn [shunting_loop].
  - intros H; injection H as <- <-. tauto.
  - destruct t as [x|s].
    + intros H Hout Hst. apply (IH _ _ H); [|exact Hst].
      apply Forall_app; split; [exact Hout|]. now repeat constructor.
    + destruct (dict_get PRECEDENCE s) as [p|] eqn:Hp.
      * intros H Hout Hst. apply bind_Return_inv in H.
        destruct H as ([out1 st1] & Hpop & H).
        destruct (pop_operators_inv _ _ _ _ _ Hpop) as (popped & -> & -> & Hno).
        apply Forall_app in Hst. destruct Hst as [Hpopped Hst1].
        apply (IH _ _ H).
        -- apply Forall_app; split; [exact Hout|].
           now apply popped_rpn_tokens.
        -- constructor; [|exact Hst1].
           apply PRECEDENCE_keys in Hp. unfold stack_symbol.
           destruct Hp as [->|[->|[->| ->]]]; cbn; tauto.
      * destruct (String.eqb_spec s "(") as [->|Hnl].
        { intros H Hout Hst. apply (IH _ _ H); [exact Hout|].
          constructor; [|exact Hst]. unfold stack_symbol; cbn; tauto. }
        destruct (String.eqb s ")"); [|discriminate].
        destruct (pop_to_paren_inv out st) as (popped & Hst' & Hout' & Hno).
        destruct (pop_to_paren out st) as [out1 st1]. cbn [fst snd] in *.
        destruct st1 as [|top below]; [discriminate|].
        destruct (negb (String.eqb top "(")); [discriminate|].
        intros H Hout Hst. subst st out1.
        apply Forall_app in Hst. destruct Hst as [Hpopped Hst1].
        apply (IH _ _ H).
        -- apply Forall_app; split; [exact Hout|].
           now apply popped_rpn_tokens.
        -- now inversion Hst1.
Qed.

Lemma drain_shape out st rpn :
  drain out st = Return rpn ->
  Forall rpn_token out -> Forall stack_symbol st -> Forall rpn_token rpn.
Proof.
  revert out; induction st as [|top below IH]; intros out; cbn [drain].
  - intros H; injection H as <-. tauto.
  - destruct (String.eqb_spec top "(") as [->|Hne]; [discriminate|].
    intros H Hout Hst. inversion Hst as [|? ? Htop Hbelow]; subst.
    apply (IH _ H); [|exact Hbelow].
    apply Forall_app; split; [exact Hout|]. constructor; [|constructor].
    now apply stack_symbol_rpn_token.
Qed.

(** C9: whenever [infix_to_rpn] returns, every element of the sequence it
    returns is a number or one of ['+'], ['-'], ['*'], ['/']; neither
    parenthesis occurs in it. *)
Theorem rpn_has_no_parentheses :
  forall tokens rpn,
    infix_to_rpn tokens = Return rpn ->
    Forall rpn_token rpn /\ ~ In (Str "(") rpn /\ ~ In (Str ")") rpn.
Proof.
  intros tokens rpn H. unfold infix_to_rpn in H.
  apply bind_Return_inv in H. destruct H as (processed & _ & H).
  apply bind_Return_inv in H. destruct H as ([out st] & Hloop & Hdrain).
  destruct (shunting_loop_shape _ _ _ _ _ Hloop) as [Hout Hst];
    [constructor | constructor |].
  pose proof (drain_shape _ _ _ Hdrain Hout Hst) as Hrpn.
  split; [exact Hrpn|].
  rewrite Forall_forall in Hrpn.
  split; intros Hin; apply Hrpn in Hin; cbn in Hin;
    repeat (destruct Hin as [Hin|Hin]; [discriminate Hin|]); exact Hin.
Qed.

Lemma rpn_has_no_parentheses_witness :
  infix_to_rpn [Str "("; Num 1; Str "+"; Num 2; Str ")"; Str "*"; Num 3]
  = Return [Num 1; Num 2; Str "+"; Num 3; Str "*"]
  /\ Forall rpn_token [Num 1; Num 2; Str "+"; Num 3; Str "*"].
Proof.
  split; [reflexivity|].
  apply (rpn_has_no_parentheses
           [Str "("; Num 1; Str "+"; Num 2; Str ")"; Str "*"; Num 3]).
  reflexivity.
Defined.

(** ** The converter: the unary-sign pass *)

Lemma existsb_eqb_In s l : existsb (String.eqb s) l = true <-> In s l.
Proof.
  rewrite existsb_exists. split.
  - intros (x & Hin & Heq). apply String.eqb_eq in Heq. now subst.
  - intros Hin. exists s. split; [exact Hin|apply String.eqb_refl].
Qed.

Lemma is_unary_spec tokens i :
  is_unary tokens i = true <-> unary_sign_at tokens i.
Proof.
  unfold is_unary, unary_sign_at, no_operand_on_left. split.
  - destruct (nth_error tokens i) as [token|] eqn:Hi; [|discriminate].
    destruct (token_in token ["+"; "-"]) eqn:Hsign; [|discriminate].
    destruct token as [x|s]; [discriminate|].
    cbn [token_in] in Hsign. apply existsb_eqb_In in Hsign.
    cbn [andb]. intros H.
    destruct (orb _ _) eqn:Hleft; [|discriminate].
    apply andb_true_iff in H. destruct H as [_ Hnext].
    split; [|split].
    + destruct Hsign as [<-|[<-|[]]]; auto.
    + apply orb_true_iff in Hleft. destruct Hleft as [H0|Hprev].
      * left. now apply Nat.eqb_eq.
      * right. destruct (nth_error tokens (i - 1)) as [[y|s']|];
          try discriminate.
        exists s'. split; [reflexivity|]. now apply existsb_eqb_In.
    + destruct (nth_error tokens (i + 1)) as [[y|s']|]; try discriminate.
      now exists y.
  - intros (Hsign & Hleft & x & Hnext).
    assert (Htok : exists s, nth_error tokens i = Some (Str s) /\ In s ["+"; "-"]).
    { destruct Hsign as [H|H]; [exists "+"|exists "-"]; cbn; auto. }
    destruct Htok as (s & -> & Hin).
    cbn [token_in]. apply existsb_eqb_In in Hin. rewrite Hin. cbn [andb].
    assert (Hl : ((i =? 0)
                  || match nth_error tokens (i - 1) with
                     | Some (Str s) => existsb (String.eqb s) ["("; "+"; "-"; "*"; "/"]
                     | _ => false
                     end) = true).
    { apply orb_true_iff. destruct Hleft as [->|(s' & Hprev & Hin')].
      - now left.
      - right. rewrite Hprev. now apply existsb_eqb_In. }
    rewrite Hl, Hnext.
    assert (Hlt : i + 1 < List.length tokens).
    { apply nth_error_Some. rewrite Hnext. discriminate. }
    apply Nat.ltb_lt in Hlt. rewrite Hlt. reflexivity.
Qed.

(** C2: in the unary pass, a ['+'] or ['-'] at index [i] is folded into
    the number that follows it (negated for ['-'], unchanged for ['+']),
    the pass moving on by two, exactly when it is the first token or the
    token before it is one of ['('], ['+'], ['-'], ['*'], ['/'], and the
    token after it is a number; in every other case the token is kept and
    the pass moves on by one.  So ["5*-2"] is [-10.0] and ["1 - -1"] is
    [2.0]. *)
Theorem unary_sign_folding :
  (forall tokens i processed token,
      nth_error tokens i = Some token ->
      (forall x,
          token = Str "-" -> no_operand_on_left tokens i ->
          nth_error tokens (i + 1) = Some (Num x) ->
          unary_step tokens i processed =
          Return (i + 2, processed ++ [Num (- x)%float]))
      /\ (forall x,
             token = Str "+" -> no_operand_on_left tokens i ->
             nth_error tokens (i + 1) = Some (Num x) ->
             unary_step tokens i processed =
             Return (i + 2, processed ++ [Num x]))
      /\ (~ unary_sign_at tokens i ->
          unary_step tokens i processed =
          Return (i + 1, processed ++ [token])))
  /\ t_eval "5*-2" = Return (-10)%float
  /\ t_eval "1 - -1" = Return 2%float.
Proof.
  split; [|split; vm_compute; reflexivity].
  intros tokens i processed token Hi.
  assert (Hfold : forall x s,
             token = Str s -> In s ["+"; "-"] -> no_operand_on_left tokens i ->
             nth_error tokens (i + 1) = Some (Num x) ->
             unary_step tokens i processed =
             (signed <- (if token_in token ["-"] then neg_token (Num x)
                         else Return (Num x)) ;;
              Return (i + 1 + 1, processed ++ [signed]))).
  { intros x s -> Hin Hleft Hnext.
    assert (Hu : is_unary tokens i = true).
    { apply is_unary_spec. split; [|split; [exact Hleft|now exists x]].
      rewrite Hi. destruct Hin as [<-|[<-|[]]]; auto. }
    unfold unary_step, list_item. rewrite Hi, Hu, Hnext. reflexivity. }
  split; [|split].
  - intros x -> Hleft Hnext.
    rewrite (Hfold x "-" eq_refl) by (cbn; auto).
    replace (i + 2) with (i + 1 + 1) by lia. reflexivity.
  - intros x -> Hleft Hnext.
    rewrite (Hfold x "+" eq_refl) by (cbn; auto).
    replace (i + 2) with (i + 1 + 1) by lia. reflexivity.
  - intros Hnot.
    assert (Hu : is_unary tokens i = false).
    { destruct (is_unary tokens i) eqn:Hu; [|reflexivity].
      apply is_unary_spec in Hu. contradiction. }
    unfold unary_step, list_item. rewrite Hi, Hu. reflexivity.
Qed.

Lemma unary_sign_folding_witness :
  nth_error [Num 5; Str "*"; Str "-"; Num 2] 2 = Some (Str "-")
  /\ no_operand_on_left [Num 5; Str "*"; Str "-"; Num 2] 2
  /\ unary_step [Num 5; Str "*"; Str "-"; Num 2] 2 [Num 5; Str "*"] =
     Return (4, [Num 5; Str "*"] ++ [Num (- 2)%float]).
Proof.
  assert (Hleft : no_operand_on_left [Num 5; Str "*"; Str "-"; Num 2] 2).
  { right. exists "*". split; [reflexivity|]. cbn; tauto. }
  split; [reflexivity|]. split; [exact Hleft|].
  apply (proj1 (proj1 unary_sign_folding
                  [Num 5; Str "*"; Str "-"; Num 2] 2 [Num 5; Str "*"]
                  (Str "-") eq_refl) 2%float eq_refl Hleft eq_refl).
Defined.

Lemma skipn_cons_nth_error (l : list Token) i t :
  nth_error l i = Some t -> skipn i l = t :: skipn (S i) l.
Proof.
  revert l; induction i as [|i IH]; intros [|a l] H; try discriminate.
  - now injection H as ->.
  - cbn [nth_error] in H. cbn [skipn]. now rewrite (IH l H).
Qed.

Lemma skipn_nil_nth_error (l : list Token) i :
  nth_error l i = None -> skipn i l = [].
Proof.
  intros H. apply skipn_all2. now apply nth_error_None.
Qed.

Lemma is_unary_previous tokens i t :
  nth_error tokens i = Some t ->
  is_unary tokens i =
  token_in t ["+"; "-"] && operand_expected (previous tokens i)
  && match skipn (S i) tokens with Num _ :: _ => true | _ => false end.
Proof.
  intros Hi. unfold is_unary. rewrite Hi.
  assert (Hprev : ((i =? 0)
                   || match nth_error tokens (i - 1) with
                      | Some (Str s) => existsb (String.eqb s) ["("; "+"; "-"; "*"; "/"]
                      | _ => false
                      end) = operand_expected (previous tokens i)).
  { destruct i as [|j]; [reflexivity|].
    cbn [Nat.eqb orb previous]. replace (S j - 1) with j by lia.
    assert (Hj : j < List.length tokens).
    { assert (S j < List.length tokens)
        by (apply nth_error_Some; rewrite Hi; discriminate). lia. }
    apply nth_error_Some in Hj.
    destruct (nth_error tokens j) as [[x|s]|]; [reflexivity|reflexivity|].
    now contradiction Hj. }
  rewrite Hprev.
  assert (Hnext : ((i + 1 <? List.length tokens)
                   && match nth_error tokens (i + 1) with
                      | Some (Num _) => true
                      | _ => false
                      end) =
                  match skipn (S i) tokens with Num _ :: _ => true | _ => false end).
  { replace (i + 1) with (S i) by lia.
    destruct (nth_error tokens (S i)) as [t'|] eqn:Hn.
    - rewrite (skipn_cons_nth_error _ _ _ Hn).
      assert (Hlt : S i < List.length tokens)
        by (apply nth_error_Some; rewrite Hn; discriminate).
      apply Nat.ltb_lt in Hlt. rewrite Hlt. now destruct t'.
    - rewrite (skipn_nil_nth_error _ _ Hn). apply andb_false_r. }
  rewrite Hnext.
  destruct (token_in t ["+"; "-"] && operand_expected (previous tokens i));
    reflexivity.
Qed.

(** The index loop computes [fold_signs] and uses no more iterations than
    there are tokens left. *)
Lemma unary_loop_fold_signs fuel tokens i processed :
  List.length tokens - i <= fuel ->
  unary_loop fuel tokens i processed =
  Return (processed ++ fold_signs (previous tokens i) (skipn i tokens)).
Proof.
  revert i processed; induction fuel as [|fuel IH]; intros i processed Hfuel;
    cbn [unary_loop].
  - assert (Hge : List.length tokens <= i) by lia.
    apply Nat.ltb_ge in Hge as Hltb. rewrite Hltb.
    rewrite skipn_all2 by exact Hge. cbn [fold_signs]. now rewrite app_nil_r.
  - destruct (Nat.ltb_spec i (List.length tokens)) as [Hlt|Hge].
    2:{ rewrite skipn_all2 by exact Hge. cbn [fold_signs].
        now rewrite app_nil_r. }
    destruct (nth_error tokens i) as [t|] eqn:Hi.
    2:{ apply nth_error_None in Hi. lia. }
    rewrite (skipn_cons_nth_error _ _ _ Hi). cbn [fold_signs].
    unfold unary_step, list_item. rewrite Hi. cbn [bind].
    rewrite (is_unary_previous _ _ _ Hi).
    replace (i + 1) with (S i) by lia.
    replace (S i + 1) with (S (S i)) by lia.
    destruct (token_in t ["+"; "-"] && operand_expected (previous tokens i));
      cbn [andb].
    + destruct (nth_error tokens (S i)) as [t'|] eqn:Hn.
      * rewrite (skipn_cons_nth_error _ _ _ Hn).
        destruct t' as [x|s']; cbn [bind].
        -- assert (Hsigned :
               (if token_in t ["-"] then neg_token (Num x) else Return (Num x)) =
               Return (if token_in t ["-"] then Num (- x)%float else Num x))
             by (destruct (token_in t ["-"]); reflexivity).
           rewrite Hsigned. cbn [bind].
           rewrite IH by lia. cbn [previous]. rewrite Hn.
           now rewrite <- app_assoc.
        -- rewrite IH by lia. cbn [previous]. rewrite Hi.
           rewrite (skipn_cons_nth_error _ _ _ Hn).
           now rewrite <- app_assoc.
      * rewrite (skipn_nil_nth_error _ _ Hn). cbn [bind].
        rewrite IH by lia. cbn [previous]. rewrite Hi.
        rewrite (skipn_nil_nth_error _ _ Hn). now rewrite <- app_assoc.
    + cbn [bind]. rewrite IH by lia. cbn [previous]. rewrite Hi.
      now rewrite <- app_assoc.
Qed.

Lemma unary_pass_fold_signs tokens :
  unary_loop (List.length tokens) tokens 0 [] = Return (fold_signs None tokens).
Proof.
  rewrite unary_loop_fold_signs by lia. reflexivity.
Qed.

(** ** Numbers are never dropped *)

Lemma has_number_app a b : has_number (a ++ b) <-> has_number a \/ has_number b.
Proof. unfold has_number. rewrite existsb_app. apply orb_true_iff. Qed.

Lemma fold_signs_has_number l :
  forall prev, has_number l -> has_number (fold_signs prev l).
Proof.
  assert (H : forall n l, List.length l <= n ->
                          forall prev, has_number l -> has_number (fold_signs prev l)).
  { clear l. induction n as [|n IH]; intros [|t l] Hlen prev Hnum;
      try discriminate Hnum; cbn [List.length] in Hlen; [lia|].
    assert (Hkeep : has_number (t :: fold_signs (Some t) l)).
    { unfold has_number in *. cbn [existsb] in *.
      apply orb_true_iff in Hnum. apply orb_true_iff.
      destruct Hnum as [Ht|Hl]; [now left|right].
      apply (IH l); [lia|exact Hl]. }
    cbn [fold_signs].
    destruct (token_in t ["+"; "-"] && operand_expected prev); [|exact Hkeep].
    destruct l as [|[x|s] l']; try exact Hkeep.
    unfold has_number. cbn [existsb].
    now destruct (token_in t ["-"]). }
  intros prev. apply (H (List.length l)). lia.
Qed.

Lemma shunting_loop_has_number tokens out st out' st' :
  shunting_loop tokens out st = Return (out', st') ->
  has_number out \/ has_number tokens -> has_number out'.
Proof.
  revert out st; induction tokens as [|t rest IH]; intros out st;
    cbn [shunting_loop].
  - intros H; injection H as <- <-. intros [H|H]; [exact H|discriminate H].
  - assert (Hrest : forall s, has_number out \/ has_number (Str s :: rest) ->
                              has_number out \/ has_number rest).
    { intros s [H|H]; [now left|now right]. }
    destruct t as [x|s].
    + intros H _. apply (IH _ _ H). left. apply has_number_app. now right.
    + destruct (dict_get PRECEDENCE s) as [p|].
      * intros H Hnum. apply bind_Return_inv in H.
        destruct H as ([out1 st1] & Hpop & H).
        destruct (pop_operators_inv _ _ _ _ _ Hpop) as (popped & _ & -> & _).
        apply (IH _ _ H). destruct (Hrest s Hnum) as [Ho|Hr]; [left|now right].
        apply has_number_app. now left.
      * destruct (String.eqb s "(").
        { intros H Hnum. apply (IH _ _ H), (Hrest s Hnum). }
        destruct (String.eqb s ")"); [|discriminate].
        destruct (pop_to_paren_inv out st) as (popped & _ & Hout' & _).
        destruct (pop_to_paren out st) as [out1 st1]. cbn [fst] in Hout'.
        destruct st1 as [|top below]; [discriminate|].
        destruct (negb (String.eqb top "(")); [discriminate|].
        intros H Hnum. subst out1. apply (IH _ _ H).
        destruct (Hrest s Hnum) as [Ho|Hr]; [left|now right].
        apply has_number_app. now left.
Qed.

Lemma drain_has_number out st rpn :
  drain out st = Return rpn -> has_number out -> has_number rpn.
Proof.
  revert out; induction st as [|top below IH]; intros out; cbn [drain].
  - intros H; now injection H as <-.
  - destruct (String.eqb top "("); [discriminate|].
    intros H Hnum. apply (IH _ H). apply has_number_app. now left.
Qed.

(** ** No stage raises the exception of the empty-RPN branch *)

Lemma spares_bind {A B : Type} (m : outcome A) (k : A -> outcome B) :
  spares m -> (forall a, spares (k a)) ->
  spares (bind m k).
Proof.
  unfold spares. intros Hm Hk. destruct m as [a|e|]; cbn [bind].
  - apply Hk.
  - intros H. apply Hm. now injection H as ->.
  - discriminate.
Qed.

Lemma spares_Return {A : Type} (a : A) : spares (Return a).
Proof. discriminate. Qed.

Lemma spares_other_class {A : Type} c msg :
  c <> InvalidExpressionError -> spares (@raise A c msg).
Proof. intros Hc H. injection H as H _. contradiction. Qed.

Lemma spares_other_message {A : Type} c msg :
  msg <> msg_empty_rpn_with_numbers -> spares (@raise A c msg).
Proof. intros Hm H. injection H as _ H. contradiction. Qed.

Lemma spares_dict_item {V : Type} (d : list (string * V)) k :
  spares (dict_item d k).
Proof.
  unfold dict_item. destruct (dict_get d k);
    [apply spares_Return|now apply spares_other_class].
Qed.

Lemma float_of_str_ValueError value e :
  float_of_str value = Raise e -> exn_type e = ValueError.
Proof.
  unfold float_of_str.
  destruct (drop_while isdigit value) as [|c frac].
  - destruct (0 <? _); [discriminate|]. now intros H; injection H as <-.
  - destruct (_ && _); [discriminate|]. now intros H; injection H as <-.
Qed.

Lemma spares_tokenize_loop fuel expression current_pos tokens :
  spares (tokenize_loop fuel expression current_pos tokens).
Proof.
  revert current_pos tokens; induction fuel as [|fuel IH];
    intros current_pos tokens; cbn [tokenize_loop];
    destruct (current_pos <? String.length expression);
    try apply spares_Return; [discriminate|].
  destruct (re_match (slice_from current_pos expression)) as [[k value]|].
  2:{ apply spares_other_message. discriminate. }
  apply spares_bind; [|intros tokens'; apply IH].
  destruct k.
  - destruct (float_of_str value) as [x|e|] eqn:Hf;
      cbn [bind try_except]; [apply spares_Return| |discriminate].
    rewrite (float_of_str_ValueError _ _ Hf).
    apply spares_other_message. discriminate.
  - apply spares_Return.
  - apply spares_Return.
  - now apply spares_other_class.
Qed.

Lemma spares_pop_operators token out st :
  spares (pop_operators token out st).
Proof.
  revert out; induction st as [|top below IH]; intros out;
    cbn [pop_operators]; [apply spares_Return|].
  destruct (String.eqb top "("); [apply spares_Return|].
  apply spares_bind; [apply spares_dict_item|]. intros p.
  destruct (p <? _); [apply IH|].
  destruct (_ =? p); [|apply spares_Return].
  apply spares_bind; [apply spares_dict_item|]. intros a.
  destruct (String.eqb a "L"); [apply IH|apply spares_Return].
Qed.

Lemma spares_shunting_loop tokens out st :
  spares (shunting_loop tokens out st).
Proof.
  revert out st; induction tokens as [|t rest IH]; intros out st;
    cbn [shunting_loop]; [apply spares_Return|].
  destruct t as [x|s]; [apply IH|].
  destruct (dict_get PRECEDENCE s).
  - apply spares_bind; [apply spares_pop_operators|].
    intros [out1 st1]. apply IH.
  - destruct (String.eqb s "("); [apply IH|].
    destruct (String.eqb s ")").
    + destruct (pop_to_paren out st) as [out1 [|top below]];
        [now apply spares_other_class|].
      destruct (negb _); [now apply spares_other_class|apply IH].
    + apply spares_other_message. discriminate.
Qed.

Lemma spares_drain out st : spares (drain out st).
Proof.
  revert out; induction st as [|top below IH]; intros out; cbn [drain];
    [apply spares_Return|].
  destruct (String.eqb top "("); [now apply spares_other_class|apply IH].
Qed.

Lemma spares_infix_to_rpn tokens :
  spares (infix_to_rpn tokens).
Proof.
  unfold infix_to_rpn. rewrite unary_pass_fold_signs. cbn [bind].
  apply spares_bind; [apply spares_shunting_loop|].
  intros [out st]. apply spares_drain.
Qed.

Lemma spares_apply_operator s stack :
  spares (apply_operator s stack).
Proof.
  unfold apply_operator.
  destruct stack as [|op2 [|op1 below]];
    try (apply spares_other_message; discriminate).
  destruct (_ && _); [now apply spares_other_class|].
  match goal with
  | |- spares (try_except ?m _) => destruct m
  end; cbn [try_except];
    [apply spares_Return
    |now apply spares_other_class
    |discriminate].
Qed.

Lemma spares_evaluate_loop rpn stack :
  spares (evaluate_loop rpn stack).
Proof.
  revert stack; induction rpn as [|t rest IH]; intros stack;
    cbn [evaluate_loop]; [apply spares_Return|].
  destruct t as [x|s]; [apply IH|].
  destruct (dict_get OPERATORS s).
  - apply spares_bind; [apply spares_apply_operator|].
    intros st; apply IH.
  - apply spares_other_message. discriminate.
Qed.

Lemma spares_evaluate_rpn rpn : spares (evaluate_rpn rpn).
Proof.
  unfold evaluate_rpn.
  apply spares_bind; [apply spares_evaluate_loop|].
  intros [|x [|y st]]; try apply spares_Return;
    apply spares_other_message; discriminate.
Qed.

Lemma spares_rewrap (body : outcome float) :
  spares body -> spares (try_except body rewrap).
Proof.
  unfold spares. intros Hbody.
  destruct body as [v|e|]; cbn [try_except]; try discriminate.
  unfold rewrap. destruct (issubclass (exn_type e) SafeEvalError).
  - exact Hbody.
  - now apply spares_other_class.
Qed.


(** C10: when the token list holds a number and [infix_to_rpn] returns,
    the sequence it returns is not empty; so wherever the main function
    reaches its test for an empty RPN, the branch for an empty RPN with
    numbers present is not taken, and the main function never raises the
    exception of that branch. *)
Theorem rpn_of_numbers_nonempty :
  (forall tokens rpn,
      has_number tokens -> infix_to_rpn tokens = Return rpn -> rpn <> [])
  /\ (forall expression tokens rpn_expression,
         tokenize (strip expression) = Return tokens ->
         infix_to_rpn tokens = Return rpn_expression ->
         match rpn_expression with
         | [] => existsb is_number tokens
         | _ => false
         end = false)
  /\ (forall x,
         safe_evaluate_expression x <> Raise empty_rpn_with_numbers_error).
Proof.
  assert (H1 : forall tokens rpn,
             has_number tokens -> infix_to_rpn tokens = Return rpn -> rpn <> []).
  { intros tokens rpn Hnum H. unfold infix_to_rpn in H.
    rewrite unary_pass_fold_signs in H. cbn [bind] in H.
    apply bind_Return_inv in H. destruct H as ([out st] & Hloop & Hdrain).
    assert (Hrpn : has_number rpn).
    { apply (drain_has_number _ _ _ Hdrain).
      apply (shunting_loop_has_number _ _ _ _ _ Hloop). right.
      now apply fold_signs_has_number. }
    intros ->. discriminate Hrpn. }
  split; [exact H1|]. split.
  - intros expression tokens [|t rpn] _ Hrpn; [|reflexivity].
    destruct (existsb is_number tokens) eqn:Hnum; [|reflexivity].
    exfalso. now apply (H1 tokens [] Hnum Hrpn).
  - intros [s|n|y| |l]; try discriminate.
    cbn [safe_evaluate_expression].
    destruct (String.length (strip s) =? 0); [discriminate|].
    apply spares_rewrap.
    apply spares_bind; [apply spares_tokenize_loop|].
    intros [|t tokens]; [discriminate|].
    destruct (infix_to_rpn (t :: tokens)) as [rpn|e|] eqn:Hrpn; cbn [bind].
    + destruct rpn as [|r rpn].
      * destruct (existsb is_number (t :: tokens)) eqn:Hnum; [|discriminate].
        exfalso. now apply (H1 (t :: tokens) [] Hnum Hrpn).
      * apply spares_bind; [apply spares_evaluate_rpn|].
        intros v. apply spares_Return.
    + intros H. injection H as ->.
      exact (spares_infix_to_rpn (t :: tokens) Hrpn).
    + discriminate.
Qed.

Lemma rpn_of_numbers_nonempty_witness :
  has_number [Num 5; Str "("; Str ")"]
  /\ infix_to_rpn [Num 5; Str "("; Str ")"] = Return [Num 5]
  /\ [Num 5] <> @nil Token.
Proof.
  split; [reflexivity|]. split; [reflexivity|].
  apply (proj1 rpn_of_numbers_nonempty [Num 5; Str "("; Str ")"]);
    reflexivity.
Defined.

(** C1 (the code at the claim's own example): ["5 ()"] does not fail; the
    converter returns the one-element sequence [5.0] and the main function
    returns [5.0]. *)
Theorem five_parens_returns :
  tokenize (strip "5 ()") = Return [Num 5; Str "("; Str ")"]
  /\ infix_to_rpn [Num 5; Str "("; Str ")"] = Return [Num 5]
  /\ t_eval "5 ()" = Return 5%float.
Proof. repeat split; vm_compute; reflexivity. Qed.

(** ** Termination and the kinds of failure *)

Lemma terminates_bind {A B : Type} (m : outcome A) (k : A -> outcome B) :
  terminates m -> (forall a, terminates (k a)) -> terminates (bind m k).
Proof.
  unfold terminates. intros Hm Hk. destruct m; cbn [bind];
    [apply Hk | discriminate | now contradiction Hm].
Qed.

Lemma terminates_try_except {A : Type} (m : outcome A) handler :
  terminates m -> (forall e, terminates (handler e)) ->
  terminates (try_except m handler).
Proof.
  unfold terminates. intros Hm Hh. destruct m; cbn [try_except];
    [discriminate | apply Hh | now contradiction Hm].
Qed.

Lemma terminates_raise {A : Type} c msg : terminates (@raise A c msg).
Proof. discriminate. Qed.

Lemma terminates_Return {A : Type} (a : A) : terminates (Return a).
Proof. discriminate. Qed.

Lemma terminates_dict_item {V : Type} (d : list (string * V)) k :
  terminates (dict_item d k).
Proof. unfold dict_item. destruct (dict_get d k); discriminate. Qed.

Lemma terminates_float_of_str value : terminates (float_of_str value).
Proof.
  unfold float_of_str.
  destruct (drop_while isdigit value) as [|c frac].
  - destruct (0 <? _); [apply terminates_Return|apply terminates_raise].
  - destruct (_ && _); [apply terminates_Return|apply terminates_raise].
Qed.

Create HintDb terminates.

#[local] Hint Resolve terminates_raise terminates_Return terminates_dict_item
  terminates_float_of_str : terminates.

Lemma re_match_consumes s k value :
  re_match s = Some (k, value) -> 1 <= String.length value.
Proof.
  unfold re_match. destruct s as [|c s']; [discriminate|].
  destruct (isdigit c) eqn:Hd.
  { cbn [take_while]. rewrite Hd.
    destruct (drop_while isdigit (String c s')) as [|d frac].
    - intros H; injection H as _ <-. cbn [String.length]. lia.
    - destruct (Ascii.eqb d ".");
        intros H; injection H as _ <-; cbn [String.length append]; lia. }
  destruct (Ascii.eqb c "." && starts_with_digit s').
  { intros H; injection H as _ <-. cbn [String.length]. lia. }
  destruct (is_operator_char c).
  { intros H; injection H as _ <-. cbn [String.length]. lia. }
  destruct (isspace c) eqn:Hs.
  { cbn [take_while]. rewrite Hs.
    intros H; injection H as _ <-. cbn [String.length]. lia. }
  destruct (Ascii.eqb c "010"); [discriminate|].
  intros H; injection H as _ <-. cbn [String.length]. lia.
Qed.

Lemma tokenize_loop_terminates fuel expression current_pos tokens :
  String.length expression - current_pos <= fuel ->
  terminates (tokenize_loop fuel expression current_pos tokens).
Proof.
  revert current_pos tokens; induction fuel as [|fuel IH];
    intros current_pos tokens Hfuel; cbn [tokenize_loop];
    destruct (Nat.ltb_spec current_pos (String.length expression)) as [Hlt|Hge];
    try apply terminates_Return; [lia|].
  destruct (re_match (slice_from current_pos expression))
    as [[k value]|] eqn:Hm; [|apply terminates_raise].
  apply re_match_consumes in Hm.
  apply terminates_bind; [|intros tokens'; apply IH; lia].
  destruct k; auto with terminates.
  apply terminates_try_except.
  - apply terminates_bind; auto with terminates.
  - intros e. destruct (issubclass _ _); [apply terminates_raise|discriminate].
Qed.

Lemma terminates_tokenize expression : terminates (tokenize expression).
Proof. apply tokenize_loop_terminates. lia. Qed.

Lemma terminates_pop_operators token out st :
  terminates (pop_operators token out st).
Proof.
  revert out; induction st as [|top below IH]; intros out;
    cbn [pop_operators]; [apply terminates_Return|].
  destruct (String.eqb top "("); [apply terminates_Return|].
  apply terminates_bind; [auto with terminates|]. intros p.
  destruct (p <? _); [apply IH|].
  destruct (_ =? p); [|apply terminates_Return].
  apply terminates_bind; [auto with terminates|]. intros a.
  destruct (String.eqb a "L"); [apply IH|apply terminates_Return].
Qed.

Lemma terminates_shunting_loop tokens out st :
  terminates (shunting_loop tokens out st).
Proof.
  revert out st; induction tokens as [|t rest IH]; intros out st;
    cbn [shunting_loop]; [apply terminates_Return|].
  destruct t as [x|s]; [apply IH|].
  destruct (dict_get PRECEDENCE s).
  - apply terminates_bind; [apply terminates_pop_operators|].
    intros [out1 st1]. apply IH.
  - destruct (String.eqb s "("); [apply IH|].
    destruct (String.eqb s ")"); [|apply terminates_raise].
    destruct (pop_to_paren out st) as [out1 [|top below]];
      [apply terminates_raise|].
    destruct (negb _); [apply terminates_raise|apply IH].
Qed.

Lemma terminates_drain out st : terminates (drain out st).
Proof.
  revert out; induction st as [|top below IH]; intros out; cbn [drain];
    [apply terminates_Return|].
  destruct (String.eqb top "("); [apply terminates_raise|apply IH].
Qed.

Lemma terminates_infix_to_rpn tokens : terminates (infix_to_rpn tokens).
Proof.
  unfold infix_to_rpn. rewrite unary_pass_fold_signs. cbn [bind].
  apply terminates_bind; [apply terminates_shunting_loop|].
  intros [out st]. apply terminates_drain.
Qed.

Lemma terminates_apply_operator s stack : terminates (apply_operator s stack).
Proof.
  unfold apply_operator.
  destruct stack as [|op2 [|op1 below]]; try apply terminates_raise.
  destruct (_ && _); [apply terminates_raise|].
  apply terminates_try_except; [|intros e; apply terminates_raise].
  unfold dict_item. destruct (dict_get OPERATORS s) as [f|] eqn:Hf;
    [|apply terminates_raise].
  cbn [bind]. apply terminates_bind; [|intros r; apply terminates_Return].
  unfold OPERATORS, dict_get in Hf.
  repeat match type of Hf with
         | (if ?c then _ else _) = _ =>
             destruct c; [injection Hf as <-; try apply terminates_Return|]
         end; [|discriminate].
  unfold truediv. destruct (PrimFloat.eqb op2 0);
    [apply terminates_raise|apply terminates_Return].
Qed.

Lemma terminates_evaluate_loop rpn stack : terminates (evaluate_loop rpn stack).
Proof.
  revert stack; induction rpn as [|t rest IH]; intros stack;
    cbn [evaluate_loop]; [apply terminates_Return|].
  destruct t as [x|s]; [apply IH|].
  destruct (dict_get OPERATORS s); [|apply terminates_raise].
  apply terminates_bind; [apply terminates_apply_operator|]. intros st; apply IH.
Qed.

Lemma terminates_evaluate_rpn rpn : terminates (evaluate_rpn rpn).
Proof.
  unfold evaluate_rpn.
  apply terminates_bind; [apply terminates_evaluate_loop|].
  intros [|x [|y st]]; auto with terminates.
Qed.

Lemma rewrap_SafeEvalError {A : Type} e :
  exists e', @rewrap A e = Raise e'
             /\ issubclass (exn_type e') SafeEvalError = true.
Proof.
  unfold rewrap. destruct (issubclass (exn_type e) SafeEvalError) eqn:He.
  - now exists e.
  - eexists. split; reflexivity.
Qed.

Lemma all_space_drop_while s :
  all_space s = true -> drop_while isspace s = EmptyString.
Proof.
  induction s as [|c s IH]; cbn [all_space drop_while]; [reflexivity|].
  intros H. apply andb_true_iff in H. destruct H as [-> Hs]. now apply IH.
Qed.

Lemma all_space_strip s : all_space s = true -> strip s = EmptyString.
Proof.
  intros H. unfold strip. now rewrite (all_space_drop_while s H).
Qed.

Lemma try_rewrap_outcomes (body : outcome float) :
  terminates body ->
  (exists v, try_except body rewrap = Return v)
  \/ (exists e, try_except body rewrap = Raise e
                /\ issubclass (exn_type e) SafeEvalError = true).
Proof.
  intros Hterm. destruct body as [v|e|]; cbn [try_except].
  - left. now exists v.
  - right. apply rewrap_SafeEvalError.
  - now contradiction Hterm.
Qed.

Lemma terminates_pipeline stripped :
  terminates
    (tokens <- tokenize stripped ;;
     match tokens with
     | [] =>
         raise InvalidExpressionError
           [Text "Expression contains no evaluable tokens after tokenization (e.g. only operators/parentheses that were consumed by RPN logic without numbers)."]
     | _ =>
         rpn_expression <- infix_to_rpn tokens ;;
         match rpn_expression with
         | [] =>
             if existsb is_number tokens
             then raise InvalidExpressionError msg_empty_rpn_with_numbers
             else raise InvalidExpressionError msg_empty_rpn_no_numbers
         | _ =>
             result <- evaluate_rpn rpn_expression ;;
             Return result
         end
     end).
Proof.
  apply terminates_bind; [apply terminates_tokenize|].
  intros [|t tokens]; [apply terminates_raise|].
  apply terminates_bind; [apply terminates_infix_to_rpn|].
  intros [|r rpn].
  - destruct (existsb _ _); apply terminates_raise.
  - apply terminates_bind; [apply terminates_evaluate_rpn|].
    intros v; apply terminates_Return.
Qed.

(** C8: on a [str] the main function returns a float or raises an exception
    of the [SafeEvalError] family (it never runs on); an exception of the
    family passes its handler unchanged and any other one is replaced by a
    plain [SafeEvalError] whose message ends with the original message; an
    empty or whitespace-only [str] raises [InvalidExpressionError]; and an
    exception outside the family comes out only as the [TypeError] for an
    argument that is not a [str]. *)
Theorem safe_evaluate_expression_outcomes :
  (forall s,
      (exists v, safe_evaluate_expression (PyStr s) = Return v)
      \/ (exists e, safe_evaluate_expression (PyStr s) = Raise e
                    /\ issubclass (exn_type e) SafeEvalError = true))
  /\ (forall e,
         issubclass (exn_type e) SafeEvalError = true ->
         @rewrap float e = Raise e)
  /\ (forall e,
         issubclass (exn_type e) SafeEvalError = false ->
         @rewrap float e =
         raise SafeEvalError (unexpected_prefix (exn_type e) ++ exn_msg e))
  /\ (forall s,
         all_space s = true ->
         safe_evaluate_expression (PyStr s) =
         raise InvalidExpressionError msg_empty_expression)
  /\ (forall x,
         (forall s, x <> PyStr s) ->
         safe_evaluate_expression x = raise TypeError msg_not_a_string)
  /\ (forall x e,
         safe_evaluate_expression x = Raise e ->
         issubclass (exn_type e) SafeEvalError = false ->
         exn_type e = TypeError /\ forall s, x <> PyStr s).
Proof.
  assert (Hstr : forall s,
      (exists v, safe_evaluate_expression (PyStr s) = Return v)
      \/ (exists e, safe_evaluate_expression (PyStr s) = Raise e
                    /\ issubclass (exn_type e) SafeEvalError = true)).
  { intros s. cbn [safe_evaluate_expression].
    destruct (String.length (strip s) =? 0).
    - right. eexists. split; reflexivity.
    - apply try_rewrap_outcomes, terminates_pipeline. }
  split; [exact Hstr|]. split; [|split; [|split; [|split]]].
  - intros e He. unfold rewrap. now rewrite He.
  - intros e He. unfold rewrap. now rewrite He.
  - intros s Hs. cbn [safe_evaluate_expression].
    now rewrite (all_space_strip s Hs).
  - intros [s| | | |] Hx; try reflexivity. now contradiction (Hx s).
  - intros x e Hraise Hout. destruct x as [s|n|y| |l];
      try (injection Hraise as <-; split; [reflexivity|discriminate]).
    destruct (Hstr s) as [(v & Hv)|(e' & He' & Hin)]; rewrite Hraise in *.
    + discriminate Hv.
    + injection He' as <-. rewrite Hin in Hout. discriminate Hout.
Qed.

Lemma safe_evaluate_expression_outcomes_witness :
  all_space "   " = true
  /\ safe_evaluate_expression (PyStr "   ") =
     raise InvalidExpressionError msg_empty_expression.
Proof.
  split; [reflexivity|].
  apply (proj1 (proj2 (proj2 (proj2 safe_evaluate_expression_outcomes))) "   ").
  reflexivity.
Defined.

(** ** The unary pass on an expression of the grammar *)

Lemma closes_not_expected last : closes last -> operand_expected (Some last) = false.
Proof. destruct last as [x|s]; cbn [closes]; [reflexivity|]. now intros ->. Qed.

Lemma fold_signs_after_operand last s rest :
  closes last ->
  fold_signs (Some last) (Str s :: rest) =
  Str s :: fold_signs (Some (Str s)) rest.
Proof.
  intros Hc. cbn [fold_signs]. rewrite (closes_not_expected last Hc).
  now rewrite andb_false_r.
Qed.

Lemma fold_signs_number prev x rest :
  fold_signs prev (Num x :: rest) = Num x :: fold_signs (Some (Num x)) rest.
Proof. reflexivity. Qed.

Lemma fold_signs_open prev rest :
  fold_signs prev (Str "(" :: rest) = Str "(" :: fold_signs (Some (Str "(")) rest.
Proof. reflexivity. Qed.

Lemma fold_signs_sign prev o x rest :
  operand_expected prev = true ->
  fold_signs prev (Str (addop_symbol o) :: Num x :: rest) =
  Num (signed o x) :: fold_signs (Some (Num x)) rest.
Proof.
  intros Hprev. cbn [fold_signs]. rewrite Hprev. now destruct o.
Qed.

Lemma expected_after_addop o : operand_expected (Some (Str (addop_symbol o))) = true.
Proof. now destruct o. Qed.

Lemma expected_after_mulop o : operand_expected (Some (Str (mulop_symbol o))) = true.
Proof. now destruct o. Qed.

Lemma fold_signs_grammar :
  (forall e prev rest,
      operand_expected prev = true ->
      exists last, closes last
                   /\ fold_signs prev (expr_tokens e ++ rest) =
                      expr_folded e ++ fold_signs (Some last) rest)
  /\ (forall t prev rest,
         operand_expected prev = true ->
         exists last, closes last
                      /\ fold_signs prev (term_tokens t ++ rest) =
                         term_folded t ++ fold_signs (Some last) rest)
  /\ (forall f prev rest,
         operand_expected prev = true ->
         exists last, closes last
                      /\ fold_signs prev (factor_tokens f ++ rest) =
                         factor_folded f ++ fold_signs (Some last) rest).
Proof.
  apply grammar_ind.
  - intros t IH prev rest Hprev. exact (IH prev rest Hprev).
  - intros e IHe o t IHt prev rest Hprev.
    cbn [expr_tokens expr_folded]. rewrite <- !app_assoc. cbn [app].
    destruct (IHe prev (Str (addop_symbol o) :: term_tokens t ++ rest) Hprev)
      as (l1 & Hc1 & ->).
    rewrite (fold_signs_after_operand _ _ _ Hc1).
    destruct (IHt _ rest (expected_after_addop o)) as (l2 & Hc2 & ->).
    exists l2. split; [exact Hc2|]. now rewrite <- app_assoc.
  - intros f IH prev rest Hprev. exact (IH prev rest Hprev).
  - intros t IHt o f IHf prev rest Hprev.
    cbn [term_tokens term_folded]. rewrite <- !app_assoc. cbn [app].
    destruct (IHt prev (Str (mulop_symbol o) :: factor_tokens f ++ rest) Hprev)
      as (l1 & Hc1 & ->).
    rewrite (fold_signs_after_operand _ _ _ Hc1).
    destruct (IHf _ rest (expected_after_mulop o)) as (l2 & Hc2 & ->).
    exists l2. split; [exact Hc2|]. now rewrite <- app_assoc.
  - intros x prev rest _. exists (Num x). split; [exact I|reflexivity].
  - intros o x prev rest Hprev. exists (Num x). split; [exact I|].
    cbn [factor_tokens factor_folded app]. now apply fold_signs_sign.
  - intros e IHe prev rest Hprev. exists (Str ")"). split; [reflexivity|].
    cbn [factor_tokens factor_folded app]. rewrite <- !app_assoc. cbn [app].
    rewrite fold_signs_open.
    destruct (IHe (Some (Str "(")) (Str ")" :: rest) eq_refl) as (l1 & Hc1 & ->).
    now rewrite (fold_signs_after_operand _ _ _ Hc1).
Qed.

Lemma unary_pass_expr e :
  unary_loop (List.length (expr_tokens e)) (expr_tokens e) 0 [] =
  Return (expr_folded e).
Proof.
  rewrite unary_pass_fold_signs. f_equal.
  destruct (proj1 fold_signs_grammar e None [] eq_refl) as (last & _ & H).
  cbn [fold_signs] in H. now rewrite !app_nil_r in H.
Qed.

(** ** The shunting-yard loop on an expression of the grammar *)

Lemma pop_operators_addop o out ops st :
  Forall is_operator ops -> at_base st ->
  pop_operators (addop_symbol o) out (ops ++ st) =
  Return (out ++ map Str ops, st).
Proof.
  intros Hops Hbase. revert out.
  induction Hops as [|top ops Htop Hops IH]; intros out; cbn [app map].
  - rewrite app_nil_r. destruct st as [|top below]; [reflexivity|].
    cbn [at_base] in Hbase. subst top. reflexivity.
  - cbn [pop_operators].
    assert (Hstep : forall A (k : outcome A) (k' : outcome A),
               (if String.eqb top "(" then k'
                else
                  let p_top := match dict_get PRECEDENCE top with
                               | Some q => q
                               | None => 0
                               end in
                  p <- dict_item PRECEDENCE (addop_symbol o) ;;
                  if p <? p_top then k
                  else if p_top =? p then
                         a <- dict_item ASSOCIATIVITY (addop_symbol o) ;;
                         if String.eqb a "L" then k else k'
                       else k') = k).
    { intros A k k'.
      destruct Htop as [->|[->|[->| ->]]]; destruct o; reflexivity. }
    rewrite Hstep, IH. now rewrite <- app_assoc.
Qed.

Lemma pop_operators_mulop o out ops st :
  Forall is_mulop ops -> below_term st ->
  pop_operators (mulop_symbol o) out (ops ++ st) =
  Return (out ++ map Str ops, st).
Proof.
  intros Hops Hbase. revert out.
  induction Hops as [|top ops Htop Hops IH]; intros out; cbn [app map].
  - rewrite app_nil_r. destruct st as [|top below]; [reflexivity|].
    cbn [below_term] in Hbase.
    destruct Hbase as [->|[->| ->]]; destruct o; reflexivity.
  - cbn [pop_operators].
    assert (Hstep : forall A (k : outcome A) (k' : outcome A),
               (if String.eqb top "(" then k'
                else
                  let p_top := match dict_get PRECEDENCE top with
                               | Some q => q
                               | None => 0
                               end in
                  p <- dict_item PRECEDENCE (mulop_symbol o) ;;
                  if p <? p_top then k
                  else if p_top =? p then
                         a <- dict_item ASSOCIATIVITY (mulop_symbol o) ;;
                         if String.eqb a "L" then k else k'
                       else k') = k).
    { intros A k k'. destruct Htop as [->| ->]; destruct o; reflexivity. }
    rewrite Hstep, IH. now rewrite <- app_assoc.
Qed.

Lemma is_operator_not_paren s : is_operator s -> String.eqb s "(" = false.
Proof. intros [->|[->|[->| ->]]]; reflexivity. Qed.

Lemma pop_to_paren_operators out ops st :
  Forall is_operator ops ->
  pop_to_paren out (ops ++ "(" :: st) = (out ++ map Str ops, "(" :: st).
Proof.
  intros Hops. revert out.
  induction Hops as [|top ops Htop Hops IH]; intros out; cbn [app map].
  - now rewrite app_nil_r.
  - cbn [pop_to_paren]. rewrite (is_operator_not_paren top Htop). cbn [negb].
    rewrite IH. now rewrite <- app_assoc.
Qed.

Lemma drain_operators out ops :
  Forall is_operator ops -> drain out ops = Return (out ++ map Str ops).
Proof.
  intros Hops. revert out.
  induction Hops as [|top ops Htop Hops IH]; intros out; cbn [map].
  - now rewrite app_nil_r.
  - cbn [drain]. rewrite (is_operator_not_paren top Htop), IH.
    now rewrite <- app_assoc.
Qed.

Lemma shunting_loop_addop o rest out ops st :
  Forall is_operator ops -> at_base st ->
  shunting_loop (Str (addop_symbol o) :: rest) out (ops ++ st) =
  shunting_loop rest (out ++ map Str ops) (addop_symbol o :: st).
Proof.
  intros Hops Hbase. cbn [shunting_loop].
  assert (Hp : dict_get PRECEDENCE (addop_symbol o) = Some 1) by now destruct o.
  rewrite Hp, (pop_operators_addop o out ops st Hops Hbase). reflexivity.
Qed.

Lemma shunting_loop_mulop o rest out ops st :
  Forall is_mulop ops -> below_term st ->
  shunting_loop (Str (mulop_symbol o) :: rest) out (ops ++ st) =
  shunting_loop rest (out ++ map Str ops) (mulop_symbol o :: st).
Proof.
  intros Hops Hbase. cbn [shunting_loop].
  assert (Hp : dict_get PRECEDENCE (mulop_symbol o) = Some 2) by now destruct o.
  rewrite Hp, (pop_operators_mulop o out ops st Hops Hbase). reflexivity.
Qed.

Lemma shunting_loop_close rest out ops st :
  Forall is_operator ops ->
  shunting_loop (Str ")" :: rest) out (ops ++ "(" :: st) =
  shunting_loop rest (out ++ map Str ops) st.
Proof.
  intros Hops. cbn [shunting_loop].
  change (dict_get PRECEDENCE ")") with (@None nat).
  change (String.eqb ")" "(") with false.
  change (String.eqb ")" ")") with true. cbn iota.
  rewrite (pop_to_paren_operators out ops st Hops). reflexivity.
Qed.

Lemma is_mulop_operator s : is_mulop s -> is_operator s.
Proof. unfold is_mulop, is_operator. tauto. Qed.

Lemma at_base_below_term st : at_base st -> below_term st.
Proof. destruct st; cbn; tauto. Qed.

Lemma shunting_loop_grammar :
  (forall e rest out st,
      at_base st ->
      exists q ops,
        Forall is_operator ops /\ q ++ map Str ops = expr_rpn e
        /\ shunting_loop (expr_folded e ++ rest) out st =
           shunting_loop rest (out ++ q) (ops ++ st))
  /\ (forall t rest out st,
         below_term st ->
         exists q ops,
           Forall is_mulop ops /\ q ++ map Str ops = term_rpn t
           /\ shunting_loop (term_folded t ++ rest) out st =
              shunting_loop rest (out ++ q) (ops ++ st))
  /\ (forall f rest out st,
         shunting_loop (factor_folded f ++ rest) out st =
         shunting_loop rest (out ++ factor_rpn f) st).
Proof.
  apply grammar_ind.
  - intros t IH rest out st Hbase.
    destruct (IH rest out st (at_base_below_term st Hbase))
      as (q & ops & Hops & Hq & Hrun).
    exists q, ops. split; [|split; [exact Hq|exact Hrun]].
    eapply Forall_impl; [apply is_mulop_operator|exact Hops].
  - intros e IHe o t IHt rest out st Hbase.
    cbn [expr_folded expr_rpn]. rewrite <- app_assoc. cbn [app].
    destruct (IHe (Str (addop_symbol o) :: term_folded t ++ rest) out st Hbase)
      as (q1 & ops1 & Hops1 & Hq1 & ->).
    rewrite (shunting_loop_addop o _ _ ops1 st Hops1 Hbase).
    rewrite <- app_assoc, Hq1.
    assert (Hbelow : below_term (addop_symbol o :: st))
      by (destruct o; cbn; tauto).
    destruct (IHt rest (out ++ expr_rpn e) _ Hbelow)
      as (q2 & ops2 & Hops2 & Hq2 & ->).
    exists (expr_rpn e ++ q2), (ops2 ++ [addop_symbol o]).
    split; [|split].
    + apply Forall_app. split.
      * eapply Forall_impl; [apply is_mulop_operator|exact Hops2].
      * constructor; [|constructor]. destruct o; cbv; tauto.
    + rewrite map_app, <- Hq2, <- !app_assoc. reflexivity.
    + now rewrite <- !app_assoc.
  - intros f IH rest out st Hbelow.
    exists (factor_rpn f), []. split; [constructor|].
    split; [apply app_nil_r|apply IH].
  - intros t IHt o f IHf rest out st Hbelow.
    cbn [term_folded term_rpn]. rewrite <- app_assoc. cbn [app].
    destruct (IHt (Str (mulop_symbol o) :: factor_folded f ++ rest) out st Hbelow)
      as (q1 & ops1 & Hops1 & Hq1 & ->).
    rewrite (shunting_loop_mulop o _ _ ops1 st Hops1 Hbelow).
    rewrite <- app_assoc, Hq1, IHf.
    exists (term_rpn t ++ factor_rpn f), [mulop_symbol o].
    split; [|split].
    + constructor; [|constructor]. destruct o; cbv; tauto.
    + now rewrite <- app_assoc.
    + now rewrite <- app_assoc.
  - reflexivity.
  - reflexivity.
  - intros e IHe rest out st.
    cbn [factor_folded factor_rpn app]. rewrite <- app_assoc. cbn [app].
    change (shunting_loop (Str "(" :: expr_folded e ++ Str ")" :: rest) out st)
      with (shunting_loop (expr_folded e ++ Str ")" :: rest) out ("(" :: st)).
    destruct (IHe (Str ")" :: rest) out ("(" :: st) eq_refl)
      as (q & ops & Hops & Hq & ->).
    rewrite (shunting_loop_close _ _ ops st Hops).
    now rewrite <- app_assoc, Hq.
Qed.

Lemma infix_to_rpn_expr e : infix_to_rpn (expr_tokens e) = Return (expr_rpn e).
Proof.
  unfold infix_to_rpn. rewrite unary_pass_expr. cbn [bind].
  destruct (proj1 shunting_loop_grammar e [] [] [] I)
    as (q & ops & Hops & Hq & Hrun).
  rewrite app_nil_r in Hrun. rewrite Hrun. cbn [shunting_loop bind app].
  rewrite app_nil_r, (drain_operators q ops Hops). now rewrite Hq.
Qed.

(** ** The evaluator on the postfix form of an expression *)

Lemma evaluate_loop_addop o rest a b stack :
  evaluate_loop (Str (addop_symbol o) :: rest) (b :: a :: stack) =
  evaluate_loop rest (apply_addop o a b :: stack).
Proof. destruct o; reflexivity. Qed.

Lemma evaluate_loop_mulop o rest a b stack :
  evaluate_loop (Str (mulop_symbol o) :: rest) (b :: a :: stack) =
  match apply_mulop o a b with
  | Some v => evaluate_loop rest (v :: stack)
  | None => raise DivisionByZeroError msg_division_by_zero
  end.
Proof.
  destruct o; [reflexivity|].
  cbn [evaluate_loop mulop_symbol apply_mulop].
  change (dict_get OPERATORS "/") with (Some truediv).
  unfold apply_operator. change (String.eqb "/" "/") with true. cbn [andb].
  destruct (PrimFloat.eqb b 0) eqn:Hz; [reflexivity|].
  change (dict_item OPERATORS "/") with (Return truediv).
  cbn [bind try_except]. unfold truediv. rewrite Hz. reflexivity.
Qed.

Lemma evaluate_loop_grammar :
  (forall e rest stack,
      evaluate_loop (expr_rpn e ++ rest) stack =
      match expr_value e with
      | Some v => evaluate_loop rest (v :: stack)
      | None => raise DivisionByZeroError msg_division_by_zero
      end)
  /\ (forall t rest stack,
         evaluate_loop (term_rpn t ++ rest) stack =
         match term_value t with
         | Some v => evaluate_loop rest (v :: stack)
         | None => raise DivisionByZeroError msg_division_by_zero
         end)
  /\ (forall f rest stack,
         evaluate_loop (factor_rpn f ++ rest) stack =
         match factor_value f with
         | Some v => evaluate_loop rest (v :: stack)
         | None => raise DivisionByZeroError msg_division_by_zero
         end).
Proof.
  apply grammar_ind.
  - intros t IH rest stack. apply IH.
  - intros e IHe o t IHt rest stack.
    cbn [expr_rpn expr_value]. rewrite <- !app_assoc. rewrite IHe.
    destruct (expr_value e) as [a|]; [|reflexivity].
    rewrite IHt. destruct (term_value t) as [b|]; [|reflexivity].
    apply evaluate_loop_addop.
  - intros f IH rest stack. apply IH.
  - intros t IHt o f IHf rest stack.
    cbn [term_rpn term_value]. rewrite <- !app_assoc. rewrite IHt.
    destruct (term_value t) as [a|]; [|reflexivity].
    rewrite IHf. destruct (factor_value f) as [b|]; [|reflexivity].
    apply evaluate_loop_mulop.
  - reflexivity.
  - reflexivity.
  - intros e IHe rest stack. apply IHe.
Qed.

Lemma evaluate_rpn_expr e :
  evaluate_rpn (expr_rpn e) =
  match expr_value e with
  | Some v => Return v
  | None => raise DivisionByZeroError msg_division_by_zero
  end.
Proof.
  unfold evaluate_rpn.
  pose proof (proj1 evaluate_loop_grammar e [] []) as H.
  rewrite app_nil_r in H. rewrite H.
  now destruct (expr_value e).
Qed.

Lemma grammar_rpn_nonempty :
  (forall e, expr_rpn e <> []) /\ (forall t, term_rpn t <> [])
  /\ (forall f, factor_rpn f <> []).
Proof.
  apply grammar_ind; cbn [expr_rpn term_rpn factor_rpn]; auto;
    try discriminate.
  - intros e _ o t _ H. apply app_eq_nil in H. destruct H as [_ H].
    apply app_eq_nil in H. destruct H as [_ H]. discriminate H.
  - intros t _ o f _ H. apply app_eq_nil in H. destruct H as [_ H].
    apply app_eq_nil in H. destruct H as [_ H]. discriminate H.
Qed.

Lemma grammar_tokens_nonempty :
  (forall e, expr_tokens e <> []) /\ (forall t, term_tokens t <> [])
  /\ (forall f, factor_tokens f <> []).
Proof.
  apply grammar_ind; cbn [expr_tokens term_tokens factor_tokens]; auto;
    try discriminate.
  - intros e _ o t _ H. apply app_eq_nil in H. destruct H as [_ H].
    discriminate H.
  - intros t _ o f _ H. apply app_eq_nil in H. destruct H as [_ H].
    discriminate H.
Qed.

Lemma tokenize_empty : tokenize EmptyString = Return [].
Proof. reflexivity. Qed.

Lemma length_zero_empty s : String.length s = 0 -> s = EmptyString.
Proof. destruct s; [reflexivity|discriminate]. Qed.

(** The main function on a [str] that tokenizes to an expression of the
    grammar. *)
Lemma safe_evaluate_expression_expr s e :
  tokenize (strip s) = Return (expr_tokens e) ->
  safe_evaluate_expression (PyStr s) =
  match expr_value e with
  | Some v => Return v
  | None => raise DivisionByZeroError msg_division_by_zero
  end.
Proof.
  intros Htok. cbn [safe_evaluate_expression].
  destruct (Nat.eqb_spec (String.length (strip s)) 0) as [Hz|_].
  { apply length_zero_empty in Hz. rewrite Hz, tokenize_empty in Htok.
    injection Htok as Htok. symmetry in Htok.
    now apply (proj1 grammar_tokens_nonempty) in Htok. }
  rewrite Htok. cbn [bind].
  destruct (expr_tokens e) as [|t0 ts] eqn:Hts.
  { now apply (proj1 grammar_tokens_nonempty) in Hts. }
  rewrite <- Hts, infix_to_rpn_expr. cbn [bind].
  destruct (expr_rpn e) as [|r0 rs] eqn:Hrs.
  { now apply (proj1 grammar_rpn_nonempty) in Hrs. }
  rewrite <- Hrs, evaluate_rpn_expr.
  now destruct (expr_value e).
Qed.

(** * Further properties *)

(** ** Strings *)

Lemma take_drop_while p s : (take_while p s ++ drop_while p s)%string = s.
Proof.
  induction s as [|c s IH]; cbn [take_while drop_while]; [reflexivity|].
  destruct (p c); cbn [append]; [now rewrite IH|reflexivity].
Qed.

Lemma take_while_forallb p s : string_forallb p (take_while p s) = true.
Proof.
  induction s as [|c s IH]; cbn [take_while]; [reflexivity|].
  destruct (p c) eqn:Hc; cbn [string_forallb]; [now rewrite Hc|reflexivity].
Qed.

Lemma take_while_all p s : string_forallb p s = true -> take_while p s = s.
Proof.
  induction s as [|c s IH]; cbn [take_while string_forallb]; [reflexivity|].
  intros H. apply andb_true_iff in H. destruct H as [-> Hs]. now rewrite IH.
Qed.

Lemma drop_while_all p s :
  string_forallb p s = true -> drop_while p s = EmptyString.
Proof.
  induction s as [|c s IH]; cbn [drop_while string_forallb]; [reflexivity|].
  intros H. apply andb_true_iff in H. destruct H as [-> Hs]. now apply IH.
Qed.

Lemma take_while_app_stop p a d b :
  string_forallb p a = true -> p d = false ->
  take_while p (a ++ String d b) = a.
Proof.
  induction a as [|c a IH]; cbn [append take_while string_forallb].
  - intros _ ->. reflexivity.
  - intros H Hd. apply andb_true_iff in H. destruct H as [-> Ha].
    now rewrite IH.
Qed.

Lemma drop_while_app_stop p a d b :
  string_forallb p a = true -> p d = false ->
  drop_while p (a ++ String d b) = String d b.
Proof.
  induction a as [|c a IH]; cbn [append drop_while string_forallb].
  - intros _ ->. reflexivity.
  - intros H Hd. apply andb_true_iff in H. destruct H as [-> Ha].
    now apply IH.
Qed.

Lemma drop_while_head p s c r : drop_while p s = String c r -> p c = false.
Proof.
  induction s as [|d s IH]; cbn [drop_while]; [discriminate|].
  destruct (p d) eqn:Hd; [exact IH|].
  intros H. injection H as -> _. exact Hd.
Qed.

Lemma drop_while_idempotent p s :
  drop_while p (drop_while p s) = drop_while p s.
Proof.
  destruct (drop_while p s) as [|c r] eqn:H; [reflexivity|].
  cbn [drop_while]. now rewrite (drop_while_head p s c r H).
Qed.

Lemma string_forallb_app p a b :
  string_forallb p (a ++ b) = string_forallb p a && string_forallb p b.
Proof.
  induction a as [|c a IH]; cbn [append string_forallb]; [reflexivity|].
  now rewrite IH, andb_assoc.
Qed.

Lemma string_forallb_impl (p q : ascii -> bool) s :
  (forall c, p c = true -> q c = true) ->
  string_forallb p s = true -> string_forallb q s = true.
Proof.
  intros Hpq. induction s as [|c s IH]; cbn [string_forallb]; [reflexivity|].
  intros H. apply andb_true_iff in H. destruct H as [Hc Hs].
  now rewrite (Hpq c Hc), IH.
Qed.

Lemma length_append a b :
  String.length (a ++ b) = String.length a + String.length b.
Proof.
  induction a as [|c a IH]; cbn [append String.length]; [reflexivity|].
  now rewrite IH.
Qed.

Lemma append_empty_r s : (s ++ EmptyString)%string = s.
Proof. induction s as [|c s IH]; cbn [append]; [reflexivity|now rewrite IH]. Qed.

Lemma append_assoc (a b c : string) :
  ((a ++ b) ++ c)%string = (a ++ (b ++ c))%string.
Proof. induction a as [|x a IH]; cbn [append]; [reflexivity|now rewrite IH]. Qed.

Lemma slice_from_length s n :
  String.length (slice_from n s) = String.length s - n.
Proof.
  revert s; induction n as [|n IH]; intros s.
  - destruct s; cbn [slice_from]; lia.
  - destruct s as [|c s]; cbn [slice_from String.length]; [reflexivity|apply IH].
Qed.

Lemma slice_from_add n m s :
  slice_from (n + m) s = slice_from m (slice_from n s).
Proof.
  revert s; induction n as [|n IH]; intros s; cbn [Nat.add slice_from].
  - reflexivity.
  - destruct s as [|c s]; [|apply IH].
    now destruct m.
Qed.

Lemma slice_from_append a b : slice_from (String.length a) (a ++ b) = b.
Proof.
  induction a as [|c a IH]; cbn [String.length append slice_from]; [|exact IH].
  now destruct b.
Qed.

Lemma rev_string_append s acc : rev_string s acc = (reverse s ++ acc)%string.
Proof.
  unfold reverse. revert acc; induction s as [|c s IH]; intros acc;
    cbn [rev_string]; [reflexivity|].
  rewrite (IH (String c acc)), (IH (String c EmptyString)).
  now rewrite append_assoc.
Qed.

Lemma reverse_cons c s : reverse (String c s) = (reverse s ++ String c EmptyString)%string.
Proof. unfold reverse at 1. cbn [rev_string]. apply rev_string_append. Qed.

Lemma reverse_append a b : reverse (a ++ b) = (reverse b ++ reverse a)%string.
Proof.
  induction a as [|c a IH]; cbn [append].
  - now rewrite append_empty_r.
  - now rewrite !reverse_cons, IH, append_assoc.
Qed.

Lemma reverse_involutive s : reverse (reverse s) = s.
Proof.
  induction s as [|c s IH]; [reflexivity|].
  now rewrite reverse_cons, reverse_append, IH.
Qed.

Lemma drop_while_snoc p s c :
  p c = false ->
  drop_while p (s ++ String c EmptyString) =
  (drop_while p s ++ String c EmptyString)%string.
Proof.
  intros Hc. induction s as [|d s IH]; cbn [append drop_while].
  - now rewrite Hc.
  - destruct (p d); [exact IH|reflexivity].
Qed.

Lemma strip_unfold s :
  strip s = reverse (drop_while isspace (reverse (drop_while isspace s))).
Proof. reflexivity. Qed.

(** What [strip] returns is empty or starts with a character that is not
    whitespace. *)
Lemma strip_head s c r : strip s = String c r -> isspace c = false.
Proof.
  rewrite strip_unfold.
  destruct (drop_while isspace s) as [|d a] eqn:Ha; [discriminate|].
  pose proof (drop_while_head _ _ _ _ Ha) as Hd.
  rewrite reverse_cons, (drop_while_snoc _ _ _ Hd), reverse_append.
  cbn [reverse rev_string append]. intros H. now injection H as <- _.
Qed.

Lemma strip_idempotent s : strip (strip s) = strip s.
Proof.
  assert (Hlead : drop_while isspace (strip s) = strip s).
  { destruct (strip s) as [|c r] eqn:H; [reflexivity|].
    cbn [drop_while]. now rewrite (strip_head s c r H). }
  rewrite (strip_unfold (strip s)), Hlead.
  rewrite (strip_unfold s) at 1. rewrite reverse_involutive.
  rewrite drop_while_idempotent. reflexivity.
Qed.

(** ** The tokenizer *)

Lemma isspace_newline c : Ascii.eqb c "010" = true -> isspace c = true.
Proof. intros H. apply Ascii.eqb_eq in H. now subst. Qed.

(** On a text that is not empty the regular expression always matches. *)
Lemma re_match_nonempty s : s <> EmptyString -> re_match s <> None.
Proof.
  destruct s as [|c s']; [congruence|]. intros _. unfold re_match.
  destruct (isdigit c).
  { destruct (drop_while isdigit (String c s')) as [|d frac];
      [discriminate|]. destruct (Ascii.eqb d "."); discriminate. }
  destruct (Ascii.eqb c "." && starts_with_digit s'); [discriminate|].
  destruct (is_operator_char c); [discriminate|].
  destruct (isspace c) eqn:Hs; [discriminate|].
  destruct (Ascii.eqb c "010") eqn:Hn; [|discriminate].
  rewrite (isspace_newline c Hn) in Hs. discriminate.
Qed.

Lemma float_of_str_integer a :
  string_forallb isdigit a = true -> a <> EmptyString ->
  exists x, float_of_str a = Return x.
Proof.
  intros Ha Hne. unfold float_of_str.
  rewrite (drop_while_all _ _ Ha), (take_while_all _ _ Ha).
  destruct a as [|c a]; [congruence|]. cbn [String.length Nat.ltb Nat.leb].
  eexists. reflexivity.
Qed.

Lemma float_of_str_decimal a b :
  string_forallb isdigit a = true -> string_forallb isdigit b = true ->
  0 < String.length a + String.length b ->
  exists x, float_of_str (a ++ String "."%char b) = Return x.
Proof.
  intros Ha Hb Hlen. unfold float_of_str.
  rewrite (take_while_app_stop isdigit a "."%char b Ha eq_refl).
  rewrite (drop_while_app_stop isdigit a "."%char b Ha eq_refl).
  rewrite (drop_while_all _ _ Hb).
  change (Ascii.eqb "." ".") with true. cbn [String.length Nat.eqb andb].
  apply Nat.ltb_lt in Hlen. rewrite Hlen. eexists. reflexivity.
Qed.

Lemma digits_in_alphabet c : isdigit c = true -> in_alphabet c = true.
Proof. unfold in_alphabet. now intros ->. Qed.

Lemma spaces_in_alphabet c : isspace c = true -> in_alphabet c = true.
Proof. unfold in_alphabet. intros ->. now rewrite !orb_true_r. Qed.

(** What a match is made of: a prefix of the text, never empty, and of the
    shape of its group. *)
Lemma re_match_shape s k value :
  re_match s = Some (k, value) ->
  exists rest,
    s = (value ++ rest)%string
    /\ match k with
       | NUMBER =>
           (exists x, float_of_str value = Return x)
           /\ string_forallb in_alphabet value = true
       | OPERATOR =>
           exists c, value = String c EmptyString /\ is_operator_char c = true
       | SPACE => string_forallb isspace value = true
       | MISMATCH =>
           exists c, value = String c EmptyString
                     /\ isdigit c = false /\ is_operator_char c = false
                     /\ isspace c = false
       end.
Proof.
  unfold re_match. destruct s as [|c s']; [discriminate|].
  destruct (isdigit c) eqn:Hd.
  { pose proof (take_drop_while isdigit (String c s')) as Hsplit.
    pose proof (take_while_forallb isdigit (String c s')) as Hint.
    assert (Hne : take_while isdigit (String c s') <> EmptyString)
      by (cbn [take_while]; rewrite Hd; discriminate).
    set (int_part := take_while isdigit (String c s')) in *.
    destruct (drop_while isdigit (String c s')) as [|d frac] eqn:Hdrop.
    - intros H. injection H as <- <-. exists EmptyString.
      split; [now rewrite Hsplit|]. split.
      + now apply float_of_str_integer.
      + revert Hint. apply string_forallb_impl, digits_in_alphabet.
    - destruct (Ascii.eqb_spec d "."%char) as [->|Hnd].
      + intros H. injection H as <- <-. exists (drop_while isdigit frac).
        split.
        * rewrite append_assoc. cbn [append]. rewrite take_drop_while.
          now rewrite Hsplit.
        * pose proof (take_while_forallb isdigit frac) as Hfrac. split.
          -- apply float_of_str_decimal; [exact Hint|exact Hfrac|].
             destruct int_part; [congruence|cbn [String.length]; lia].
          -- rewrite string_forallb_app. cbn [string_forallb].
             rewrite (string_forallb_impl _ _ _ digits_in_alphabet Hint).
             rewrite (string_forallb_impl _ _ _ digits_in_alphabet Hfrac).
             reflexivity.
      + intros H. injection H as <- <-. exists (String d frac).
        split; [now rewrite Hsplit|]. split.
        * now apply float_of_str_integer.
        * revert Hint. apply string_forallb_impl, digits_in_alphabet. }
  destruct (Ascii.eqb c "." && starts_with_digit s') eqn:Hdot.
  { apply andb_true_iff in Hdot. destruct Hdot as [Hc Hs'].
    apply Ascii.eqb_eq in Hc. subst c.
    intros H. injection H as <- <-. exists (drop_while isdigit s').
    split; [cbn [append]; now rewrite take_drop_while|].
    pose proof (take_while_forallb isdigit s') as Hfrac. split.
    - apply (float_of_str_decimal EmptyString); [reflexivity|exact Hfrac|].
      destruct s' as [|d s']; [discriminate|].
      cbn [starts_with_digit] in Hs'. cbn [take_while]. rewrite Hs'.
      cbn [String.length]. lia.
    - cbn [string_forallb].
      now rewrite (string_forallb_impl _ _ _ digits_in_alphabet Hfrac). }
  destruct (is_operator_char c) eqn:Hop.
  { intros H. injection H as <- <-. exists s'. split; [reflexivity|].
    now exists c. }
  destruct (isspace c) eqn:Hs.
  { intros H. injection H as <- <-. exists (drop_while isspace (String c s')).
    change (if isspace c then String c (take_while isspace s') else EmptyString)
      with (take_while isspace (String c s')).
    split; [now rewrite take_drop_while|apply take_while_forallb]. }
  destruct (Ascii.eqb c "010"); [discriminate|].
  intros H. injection H as <- <-. exists s'. split; [reflexivity|].
  now exists c.
Qed.

Lemma operator_char_lexical c :
  is_operator_char c = true -> lexical (Str (String c EmptyString)).
Proof.
  unfold is_operator_char. cbn [existsb lexical In].
  repeat match goal with
         | |- context [Ascii.eqb c ?d] =>
             destruct (Ascii.eqb_spec c d); [subst; tauto|]
         end.
  discriminate.
Qed.

Lemma operator_char_in_alphabet c :
  is_operator_char c = true -> in_alphabet c = true.
Proof. unfold in_alphabet. intros ->. now rewrite !orb_true_r. Qed.

Lemma slice_from_past_end s n : String.length s <= n -> slice_from n s = EmptyString.
Proof.
  intros H. pose proof (slice_from_length s n) as Hl.
  destruct (slice_from n s); [reflexivity|]. cbn [String.length] in Hl. lia.
Qed.

Lemma slice_from_before_end s n : n < String.length s -> slice_from n s <> EmptyString.
Proof.
  intros H Hs. pose proof (slice_from_length s n) as Hl.
  rewrite Hs in Hl. cbn [String.length] in Hl. lia.
Qed.

Lemma slice_from_next s pos value rest :
  slice_from pos s = (value ++ rest)%string ->
  slice_from (pos + String.length value) s = rest.
Proof.
  intros H. now rewrite slice_from_add, H, slice_from_append.
Qed.

(** What the loop of [tokenize] returns: the tokens it was given, followed
    by lexical tokens; it returns only when the text left is made of the
    alphabet, and adds no token only when the text left is whitespace. *)
Lemma tokenize_loop_Return fuel expression current_pos tokens r :
  tokenize_loop fuel expression current_pos tokens = Return r ->
  exists more,
    r = tokens ++ more /\ Forall lexical more
    /\ string_forallb in_alphabet (slice_from current_pos expression) = true
    /\ (more = [] ->
        string_forallb isspace (slice_from current_pos expression) = true).
Proof.
  revert current_pos tokens; induction fuel as [|fuel IH];
    intros current_pos tokens; cbn [tokenize_loop];
    destruct (Nat.ltb_spec current_pos (String.length expression)) as [Hlt|Hge];
    try discriminate;
    try (intros H; injection H as <-; exists [];
         rewrite (slice_from_past_end _ _ Hge), app_nil_r;
         repeat split; constructor).
  destruct (re_match (slice_from current_pos expression))
    as [[k value]|] eqn:Hm; [|discriminate].
  destruct (re_match_shape _ _ _ Hm) as (rest & Hslice & Hk).
  pose proof (slice_from_next _ _ _ _ Hslice) as Hnext.
  rewrite Hslice, !string_forallb_app.
  destruct k.
  - destruct Hk as ((x & Hx) & Hval). rewrite Hx. cbn [bind try_except].
    intros H. destruct (IH _ _ H) as (more & -> & Hlex & Halpha & _).
    rewrite Hnext in Halpha.
    exists (Num x :: more). rewrite <- app_assoc.
    repeat split; [now constructor|now rewrite Hval, Halpha|discriminate].
  - destruct Hk as (c & -> & Hc). cbn [bind].
    intros H. destruct (IH _ _ H) as (more & -> & Hlex & Halpha & _).
    rewrite Hnext in Halpha.
    exists (Str (String c EmptyString) :: more). rewrite <- app_assoc.
    repeat split; [|cbn [string_forallb];
                    now rewrite (operator_char_in_alphabet c Hc), Halpha
                   |discriminate].
    constructor; [now apply operator_char_lexical|exact Hlex].
  - cbn [bind].
    intros H. destruct (IH _ _ H) as (more & -> & Hlex & Halpha & Hspace).
    rewrite Hnext in Halpha, Hspace.
    exists more. repeat split; [exact Hlex| |].
    + now rewrite (string_forallb_impl _ _ _ spaces_in_alphabet Hk), Halpha.
    + intros Hnil. now rewrite Hk, (Hspace Hnil).
  - discriminate.
Qed.

(** What the loop of [tokenize] raises: the exception of the MISMATCH case,
    for a character of the text that is no digit, symbol or whitespace, at
    the position of that character. *)
Lemma tokenize_loop_Raise fuel expression current_pos tokens e :
  tokenize_loop fuel expression current_pos tokens = Raise e ->
  exists c pos rest,
    e = unknown_character_error c pos
    /\ current_pos <= pos
    /\ slice_from pos expression = String c rest
    /\ isdigit c = false /\ is_operator_char c = false /\ isspace c = false.
Proof.
  revert current_pos tokens; induction fuel as [|fuel IH];
    intros current_pos tokens; cbn [tokenize_loop];
    destruct (Nat.ltb_spec current_pos (String.length expression)) as [Hlt|Hge];
    try discriminate.
  destruct (re_match (slice_from current_pos expression))
    as [[k value]|] eqn:Hm.
  2:{ exfalso.
      exact (re_match_nonempty _ (slice_from_before_end _ _ Hlt) Hm). }
  destruct (re_match_shape _ _ _ Hm) as (rest & Hslice & Hk).
  assert (Hrec : forall tokens',
             tokenize_loop fuel expression
               (current_pos + String.length value) tokens' = Raise e ->
             exists c pos rest,
               e = unknown_character_error c pos
               /\ current_pos <= pos
               /\ slice_from pos expression = String c rest
               /\ isdigit c = false /\ is_operator_char c = false
               /\ isspace c = false).
  { intros tokens' H.
    destruct (IH _ _ H) as (c & pos & rest' & He & Hle & Hrest).
    exists c, pos, rest'. repeat split; try tauto. lia. }
  destruct k.
  - destruct Hk as ((x & Hx) & _). rewrite Hx. cbn [bind try_except].
    apply Hrec.
  - cbn [bind]. apply Hrec.
  - cbn [bind]. apply Hrec.
  - destruct Hk as (c & -> & Hc). cbn [bind].
    intros H. injection H as <-. exists c, current_pos, rest.
    split; [reflexivity|]. split; [lia|]. split; [exact Hslice|exact Hc].
Qed.

Lemma tokenize_loop_dotless fuel expression current_pos tokens :
  string_forallb in_dotless_alphabet (slice_from current_pos expression) = true ->
  String.length expression - current_pos <= fuel ->
  exists r, tokenize_loop fuel expression current_pos tokens = Return r.
Proof.
  revert current_pos tokens; induction fuel as [|fuel IH];
    intros current_pos tokens Hall Hfuel; cbn [tokenize_loop];
    destruct (Nat.ltb_spec current_pos (String.length expression)) as [Hlt|Hge];
    try (eexists; reflexivity); [lia|].
  destruct (re_match (slice_from current_pos expression))
    as [[k value]|] eqn:Hm.
  2:{ exfalso.
      exact (re_match_nonempty _ (slice_from_before_end _ _ Hlt) Hm). }
  destruct (re_match_shape _ _ _ Hm) as (rest & Hslice & Hk).
  pose proof (re_match_consumes _ _ _ Hm) as Hlen.
  pose proof (slice_from_next _ _ _ _ Hslice) as Hnext.
  rewrite Hslice, string_forallb_app in Hall.
  apply andb_true_iff in Hall. destruct Hall as [Hvalue Hrest].
  assert (Hrec : forall tokens',
             exists r, tokenize_loop fuel expression
                         (current_pos + String.length value) tokens' = Return r).
  { intros tokens'. apply IH; [now rewrite Hnext|lia]. }
  destruct k.
  - destruct Hk as ((x & Hx) & _). rewrite Hx. cbn [bind try_except].
    apply Hrec.
  - cbn [bind]. apply Hrec.
  - cbn [bind]. apply Hrec.
  - destruct Hk as (c & -> & Hd & Ho & Hs). cbn [string_forallb] in Hvalue.
    unfold in_dotless_alphabet in Hvalue. rewrite Hd, Ho, Hs in Hvalue.
    discriminate Hvalue.
Qed.

Lemma tokenize_raises_unknown_character_aux expression e :
  tokenize expression = Raise e ->
  exists c pos, e = unknown_character_error c pos.
Proof.
  intros H. unfold tokenize in H.
  destruct (tokenize_loop_Raise _ _ _ _ _ H) as (c & pos & rest & He & _).
  now exists c, pos.
Qed.

(** X1: [tokenize] raises nothing but [UnknownCharacterError], and the
    exception names a character of the text that is no digit, symbol or
    whitespace, together with the position of that character; the two
    [InvalidExpressionError] of the tokenizer are never raised. *)
Theorem tokenize_raises_unknown_character :
  forall expression e,
    tokenize expression = Raise e ->
    exists c pos rest,
      e = unknown_character_error c pos
      /\ slice_from pos expression = String c rest
      /\ isdigit c = false /\ is_operator_char c = false /\ isspace c = false.
Proof.
  intros expression e H. unfold tokenize in H.
  destruct (tokenize_loop_Raise _ _ _ _ _ H) as (c & pos & rest & He & _ & Hrest).
  now exists c, pos, rest.
Qed.

Lemma tokenize_raises_unknown_character_witness :
  tokenize "1 @ 2" = Raise (unknown_character_error "@" 2)
  /\ exists c pos rest,
      unknown_character_error "@" 2 = unknown_character_error c pos
      /\ slice_from pos "1 @ 2" = String c rest
      /\ isdigit c = false /\ is_operator_char c = false /\ isspace c = false.
Proof.
  split; [reflexivity|].
  apply (tokenize_raises_unknown_character "1 @ 2"). reflexivity.
Defined.

(** X2: every token [tokenize] returns is a number or one of the six
    one-character symbols ['+'], ['-'], ['*'], ['/'], ['('], [')']. *)
Theorem tokenize_tokens_lexical :
  forall expression tokens,
    tokenize expression = Return tokens -> Forall lexical tokens.
Proof.
  intros expression tokens H. unfold tokenize in H.
  destruct (tokenize_loop_Return _ _ _ _ _ H) as (more & -> & Hlex & _).
  exact Hlex.
Qed.

Lemma tokenize_tokens_lexical_witness :
  tokenize "(5-3)*8/4" =
  Return [Str "("; Num 5; Str "-"; Num 3; Str ")"; Str "*"; Num 8; Str "/"; Num 4]
  /\ Forall lexical
       [Str "("; Num 5; Str "-"; Num 3; Str ")"; Str "*"; Num 8; Str "/"; Num 4].
Proof.
  split; [reflexivity|].
  apply (tokenize_tokens_lexical "(5-3)*8/4"). reflexivity.
Defined.

(** X3: [tokenize] returns only on a text made of digits, dots, the six
    symbols and whitespace, and raises [UnknownCharacterError] on any other
    text; it returns on every text made of digits, the six symbols and
    whitespace. *)
Theorem tokenize_alphabet :
  (forall expression tokens,
      tokenize expression = Return tokens ->
      string_forallb in_alphabet expression = true)
  /\ (forall expression,
         string_forallb in_alphabet expression = false ->
         exists c pos, tokenize expression = Raise (unknown_character_error c pos))
  /\ (forall expression,
         string_forallb in_dotless_alphabet expression = true ->
         exists tokens, tokenize expression = Return tokens).
Proof.
  assert (H1 : forall expression tokens,
             tokenize expression = Return tokens ->
             string_forallb in_alphabet expression = true).
  { intros expression tokens H. unfold tokenize in H.
    destruct (tokenize_loop_Return _ _ _ _ _ H) as (more & _ & _ & Halpha & _).
    exact Halpha. }
  split; [exact H1|]. split.
  - intros expression Hbad.
    destruct (tokenize expression) as [tokens|e|] eqn:H.
    + rewrite (H1 _ _ H) in Hbad. discriminate Hbad.
    + destruct (tokenize_raises_unknown_character_aux _ _ H) as (c & pos & ->).
      now exists c, pos.
    + now apply terminates_tokenize in H.
  - intros expression Hall. apply tokenize_loop_dotless; [exact Hall|lia].
Qed.

Lemma tokenize_alphabet_witness :
  tokenize "12 * (3 + 4)" =
  Return [Num 12; Str "*"; Str "("; Num 3; Str "+"; Num 4; Str ")"]
  /\ string_forallb in_alphabet "12 * (3 + 4)" = true.
Proof.
  split; [reflexivity|].
  apply (proj1 tokenize_alphabet "12 * (3 + 4)"
           [Num 12; Str "*"; Str "("; Num 3; Str "+"; Num 4; Str ")"]).
  reflexivity.
Defined.

(** ** Whitespace around the expression *)

Lemma string_forallb_reverse p s :
  string_forallb p (reverse s) = string_forallb p s.
Proof.
  induction s as [|c s IH]; [reflexivity|].
  rewrite reverse_cons, string_forallb_app, IH. cbn [string_forallb].
  rewrite andb_true_r. apply andb_comm.
Qed.

Lemma drop_while_app_all p a b :
  string_forallb p a = true -> drop_while p (a ++ b) = drop_while p b.
Proof.
  induction a as [|c a IH]; cbn [append drop_while string_forallb];
    [reflexivity|].
  intros H. apply andb_true_iff in H. destruct H as [-> Ha]. now apply IH.
Qed.

Lemma drop_while_app_keep p a b :
  drop_while p a <> EmptyString ->
  drop_while p (a ++ b) = (drop_while p a ++ b)%string.
Proof.
  induction a as [|c a IH]; cbn [append drop_while]; [congruence|].
  destruct (p c); [exact IH|reflexivity].
Qed.

Lemma reverse_empty s : reverse s = EmptyString -> s = EmptyString.
Proof.
  intros H. rewrite <- (reverse_involutive s), H. reflexivity.
Qed.

(** Whitespace before and after a text does not change what [strip]
    returns. *)
Lemma strip_padding l s r :
  string_forallb isspace l = true -> string_forallb isspace r = true ->
  strip (l ++ s ++ r) = strip s.
Proof.
  intros Hl Hr. rewrite !strip_unfold.
  rewrite (drop_while_app_all _ l _ Hl).
  destruct (drop_while isspace s) as [|c a] eqn:Hs.
  - assert (Hall : drop_while isspace (s ++ r) = EmptyString).
    { clear Hl. induction s as [|d s IH]; cbn [append drop_while] in *.
      - now apply drop_while_all.
      - destruct (isspace d); [now apply IH|discriminate]. }
    now rewrite Hall.
  - rewrite drop_while_app_keep by (rewrite Hs; discriminate).
    rewrite Hs, reverse_append.
    rewrite drop_while_app_all by now rewrite string_forallb_reverse.
    reflexivity.
Qed.

(** X4: the main function sees its argument only through [strip]:
    whitespace added before and after an expression changes nothing of the
    outcome, neither the value nor the exception, its message and the
    position the message reports. *)
Theorem surrounding_whitespace_ignored :
  (forall s,
      safe_evaluate_expression (PyStr (strip s)) =
      safe_evaluate_expression (PyStr s))
  /\ (forall l s r,
         string_forallb isspace l = true -> string_forallb isspace r = true ->
         safe_evaluate_expression (PyStr (l ++ s ++ r)) =
         safe_evaluate_expression (PyStr s)).
Proof.
  split.
  - intros s. cbn [safe_evaluate_expression]. now rewrite strip_idempotent.
  - intros l s r Hl Hr. cbn [safe_evaluate_expression].
    now rewrite (strip_padding l s r Hl Hr).
Qed.

Lemma surrounding_whitespace_ignored_witness :
  string_forallb isspace "  " = true
  /\ safe_evaluate_expression (PyStr ("  " ++ "1 @ 2" ++ "  ")) =
     safe_evaluate_expression (PyStr "1 @ 2").
Proof.
  split; [reflexivity|].
  apply (proj2 surrounding_whitespace_ignored "  " "1 @ 2" "  "); reflexivity.
Defined.

(** X5: a stripped expression that is not empty never tokenizes to the
    empty list, so the test for an empty token list in the main function
    (line 169) never succeeds. *)
Theorem stripped_expression_has_tokens :
  forall expression tokens,
    (String.length (strip expression) =? 0) = false ->
    tokenize (strip expression) = Return tokens ->
    tokens <> [].
Proof.
  intros expression tokens Hlen H Hnil. unfold tokenize in H.
  destruct (tokenize_loop_Return _ _ _ _ _ H) as (more & Hr & _ & _ & Hspace).
  cbn [app slice_from] in Hr, Hspace. subst tokens more.
  assert (Hs : string_forallb isspace (strip expression) = true).
  { destruct (strip expression); apply Hspace; reflexivity. }
  destruct (strip expression) as [|c r] eqn:Hstrip; [discriminate Hlen|].
  cbn [string_forallb] in Hs. rewrite (strip_head _ _ _ Hstrip) in Hs.
  discriminate Hs.
Qed.

Lemma stripped_expression_has_tokens_witness :
  (String.length (strip " ( ") =? 0) = false
  /\ tokenize (strip " ( ") = Return [Str "("]
  /\ [Str "("] <> @nil Token.
Proof.
  split; [reflexivity|]. split; [reflexivity|].
  apply (stripped_expression_has_tokens " ( "); reflexivity.
Defined.

(** ** The failures of the converter and of the evaluator *)

Lemma pop_operators_returns s p out st :
  dict_get PRECEDENCE s = Some p ->
  exists r, pop_operators s out st = Return r.
Proof.
  intros Hp. revert out; induction st as [|top below IH]; intros out;
    cbn [pop_operators]; [eexists; reflexivity|].
  destruct (String.eqb top "("); [eexists; reflexivity|].
  assert (Hitem : dict_item PRECEDENCE s = Return p)
    by (unfold dict_item; now rewrite Hp).
  assert (Hassoc : dict_item ASSOCIATIVITY s = Return "L").
  { apply PRECEDENCE_keys in Hp. destruct Hp as [->|[->|[->| ->]]]; reflexivity. }
  rewrite Hitem. cbn [bind]. rewrite Hassoc. cbn [bind].
  change (String.eqb "L" "L") with true. cbn iota.
  destruct (p <? _); [apply IH|].
  destruct (_ =? p); [apply IH|eexists; reflexivity].
Qed.

Lemma pop_to_paren_head out st out' top below :
  pop_to_paren out st = (out', top :: below) -> top = "(".
Proof.
  revert out; induction st as [|t st IH]; intros out; cbn [pop_to_paren];
    [discriminate|].
  destruct (String.eqb_spec t "(") as [->|Hne]; cbn [negb].
  - intros H. now injection H as _ <- _.
  - apply IH.
Qed.

Lemma precedence_lexical s p : dict_get PRECEDENCE s = Some p -> lexical (Str s).
Proof.
  intros H. apply PRECEDENCE_keys in H. cbn.
  destruct H as [->|[->|[->| ->]]]; tauto.
Qed.

Lemma shunting_loop_Raise tokens out st e :
  shunting_loop tokens out st = Raise e ->
  e = missing_left_error
  \/ exists s, In (Str s) tokens /\ ~ lexical (Str s)
               /\ e = unknown_token_error s.
Proof.
  revert out st; induction tokens as [|t rest IH]; intros out st;
    cbn [shunting_loop]; [discriminate|].
  assert (Hrec : forall out' st',
             shunting_loop rest out' st' = Raise e ->
             e = missing_left_error
             \/ exists s, In (Str s) (t :: rest) /\ ~ lexical (Str s)
                          /\ e = unknown_token_error s).
  { intros out' st' H. destruct (IH _ _ H) as [He|(s & Hin & Hs)]; [now left|].
    right. exists s. split; [now right|exact Hs]. }
  destruct t as [x|s]; [apply Hrec|].
  destruct (dict_get PRECEDENCE s) as [p|] eqn:Hp.
  - destruct (pop_operators_returns s p out st Hp) as ([out1 st1] & ->).
    cbn [bind]. apply Hrec.
  - destruct (String.eqb_spec s "(") as [->|Hnl]; [apply Hrec|].
    destruct (String.eqb_spec s ")") as [->|Hnr].
    + destruct (pop_to_paren out st) as [out1 [|top below]] eqn:Hpop.
      * intros H. injection H as <-. now left.
      * rewrite (pop_to_paren_head _ _ _ _ _ Hpop).
        change (negb (String.eqb "(" "(")) with false. apply Hrec.
    + intros H. injection H as <-. right. exists s.
      split; [now left|]. split; [|reflexivity].
      cbn [lexical In]. intros Hlex.
      assert (Hnone : dict_get PRECEDENCE s <> None).
      { destruct Hlex as [<-|[<-|[<-|[<-|[<-|[<-|[]]]]]]];
          try discriminate; congruence. }
      contradiction.
Qed.

Lemma drain_Raise out st e : drain out st = Raise e -> e = missing_right_error.
Proof.
  revert out; induction st as [|top below IH]; intros out; cbn [drain];
    [discriminate|].
  destruct (String.eqb top "("); [|apply IH].
  intros H. now injection H as <-.
Qed.

Lemma fold_signs_strings l :
  forall prev s, In (Str s) (fold_signs prev l) -> In (Str s) l.
Proof.
  assert (H : forall n l, List.length l <= n ->
                          forall prev s, In (Str s) (fold_signs prev l) ->
                                         In (Str s) l).
  { clear l. induction n as [|n IH]; intros [|t l] Hlen prev s;
      cbn [List.length] in Hlen; try (intros []); try lia.
    assert (Hkeep : In (Str s) (t :: fold_signs (Some t) l) ->
                    In (Str s) (t :: l)).
    { intros [Ht|Hin]; [now left|right]. apply (IH l) in Hin; [exact Hin|lia]. }
    cbn [fold_signs].
    destruct (token_in t ["+"; "-"] && operand_expected prev); [|exact Hkeep].
    destruct l as [|[x|s'] l']; try exact Hkeep.
    intros [Hhead|Hin].
    - destruct (token_in t ["-"]); discriminate Hhead.
    - right; right. apply (IH l') in Hin; [exact Hin|].
      cbn [List.length] in Hlen. lia. }
  intros prev s. apply (H (List.length l)). lia.
Qed.

Lemma infix_to_rpn_failure_cases tokens e :
  infix_to_rpn tokens = Raise e ->
  e = missing_left_error \/ e = missing_right_error
  \/ exists s, In (Str s) tokens /\ ~ lexical (Str s)
               /\ e = unknown_token_error s.
Proof.
  intros H. unfold infix_to_rpn in H.
  rewrite unary_pass_fold_signs in H. cbn [bind] in H.
  destruct (shunting_loop (fold_signs None tokens) [] [])
    as [[out st]|e'|] eqn:Hloop; cbn [bind] in H.
  - right; left. now apply drain_Raise in H.
  - injection H as ->.
    destruct (shunting_loop_Raise _ _ _ _ Hloop) as [He|(s & Hin & Hs)];
      [now left|].
    right; right. exists s. split; [|exact Hs].
    now apply fold_signs_strings in Hin.
  - discriminate H.
Qed.

(** X6: [infix_to_rpn] fails in three ways only: a [')'] without its
    ['('], a ['('] never closed, both with [UnbalancedParenthesesError],
    and a string in the token list that is none of the six symbols, with
    [InvalidExpressionError]; on what the tokenizer returns it returns or
    raises [UnbalancedParenthesesError].  No [KeyError], [IndexError] or
    [TypeError] of its dictionary and list accesses comes out. *)
Theorem infix_to_rpn_failures :
  (forall tokens e,
      infix_to_rpn tokens = Raise e ->
      e = missing_left_error \/ e = missing_right_error
      \/ exists s, In (Str s) tokens /\ ~ lexical (Str s)
                   /\ e = unknown_token_error s)
  /\ (forall tokens e,
         Forall lexical tokens ->
         infix_to_rpn tokens = Raise e ->
         e = missing_left_error \/ e = missing_right_error).
Proof.
  split; [exact infix_to_rpn_failure_cases|].
  intros tokens e Hlex H.
  destruct (infix_to_rpn_failure_cases _ _ H)
    as [He|[He|(s & Hin & Hns & _)]]; [now left|now right|].
  rewrite Forall_forall in Hlex. now apply Hlex in Hin.
Qed.

Lemma infix_to_rpn_failures_witness :
  infix_to_rpn [Num 1; Str "abc"] = Raise (unknown_token_error "abc")
  /\ (unknown_token_error "abc" = missing_left_error
      \/ unknown_token_error "abc" = missing_right_error
      \/ exists s, In (Str s) [Num 1; Str "abc"] /\ ~ lexical (Str s)
                   /\ unknown_token_error "abc" = unknown_token_error s).
Proof.
  split; [reflexivity|].
  apply (proj1 infix_to_rpn_failures [Num 1; Str "abc"]). reflexivity.
Defined.

Lemma apply_operator_outcomes s f stack :
  dict_get OPERATORS s = Some f ->
  apply_operator s stack = Raise not_enough_operands_error
  \/ apply_operator s stack = Raise division_by_zero_error
  \/ exists op2 op1 below v,
       stack = op2 :: op1 :: below
       /\ apply_operator s stack = Return (v :: below).
Proof.
  intros Hf. destruct stack as [|op2 [|op1 below]]; [now left|now left|].
  right.
  destruct (apply_operator_values op1 op2 below) as (Hadd & Hsub & Hmul & Hdiv).
  apply OPERATORS_keys in Hf. destruct Hf as [->|[->|[->| ->]]].
  - right. now exists op2, op1, below, (op1 + op2)%float.
  - right. now exists op2, op1, below, (op1 - op2)%float.
  - right. now exists op2, op1, below, (op1 * op2)%float.
  - destruct (PrimFloat.eqb op2 0) eqn:Hz.
    + left. unfold apply_operator.
      change (String.eqb "/" "/") with true. now rewrite Hz.
    + right. exists op2, op1, below, (op1 / op2)%float. split; [reflexivity|].
      now apply Hdiv.
Qed.

(** What the loop of [evaluate_rpn] returns and raises. *)
Lemma evaluate_loop_outcomes rpn stack :
  match evaluate_loop rpn stack with
  | Return stack' =>
      Forall rpn_token rpn
      /\ List.length stack' + List.length (filter is_string rpn) =
         List.length stack + List.length (filter is_number rpn)
  | Raise e =>
      e = not_enough_operands_error \/ e = division_by_zero_error
      \/ exists s, In (Str s) rpn /\ dict_get OPERATORS s = None
                   /\ e = unknown_rpn_token_error s
  | OutOfFuel => False
  end.
Proof.
  revert stack; induction rpn as [|t rest IH]; intros stack;
    cbn [evaluate_loop].
  - split; [constructor|reflexivity].
  - destruct t as [x|s].
    + specialize (IH (x :: stack)).
      destruct (evaluate_loop rest (x :: stack)) as [stack'|e|].
      * destruct IH as [Hall Hlen]. split; [now constructor|].
        cbn [filter is_string is_number negb List.length] in *. lia.
      * destruct IH as [He|[He|(s & Hin & Hs)]]; [now left|now right; left|].
        right; right. exists s. split; [now right|exact Hs].
      * exact IH.
    + destruct (dict_get OPERATORS s) as [f|] eqn:Hf.
      2:{ right; right. exists s. split; [now left|]. now split. }
      destruct (apply_operator_outcomes s f stack Hf)
        as [->|[->|(op2 & op1 & below & v & -> & ->)]]; cbn [bind];
        [now left|now right; left|].
      specialize (IH (v :: below)).
      destruct (evaluate_loop rest (v :: below)) as [stack'|e|].
      * destruct IH as [Hall Hlen]. split.
        -- constructor; [|exact Hall]. apply OPERATORS_keys in Hf.
           cbn [rpn_token In]. destruct Hf as [->|[->|[->| ->]]]; tauto.
        -- cbn [filter is_string is_number negb List.length] in *. lia.
      * destruct IH as [He|[He|(s' & Hin & Hs)]]; [now left|now right; left|].
        right; right. exists s'. split; [now right|exact Hs].
      * exact IH.
Qed.

(** X7: [evaluate_rpn] returns only on a sequence of numbers and operators
    that holds exactly one number more than it holds operators. *)
Theorem evaluate_rpn_returns_wellformed :
  forall rpn_tokens result,
    evaluate_rpn rpn_tokens = Return result ->
    Forall rpn_token rpn_tokens
    /\ List.length (filter is_number rpn_tokens) =
       S (List.length (filter is_string rpn_tokens)).
Proof.
  intros rpn result H. unfold evaluate_rpn in H.
  pose proof (evaluate_loop_outcomes rpn []) as Hloop.
  destruct (evaluate_loop rpn []) as [stack| |]; cbn [bind] in H;
    try discriminate H.
  destruct Hloop as [Hall Hlen]. split; [exact Hall|].
  destruct stack as [|x [|y stack]]; try discriminate H.
  cbn [List.length] in Hlen. lia.
Qed.

Lemma evaluate_rpn_returns_wellformed_witness :
  evaluate_rpn [Num 5; Num 3; Str "-"; Num 8; Str "*"] = Return 16%float
  /\ List.length (filter is_number [Num 5; Num 3; Str "-"; Num 8; Str "*"]) =
     S (List.length (filter is_string [Num 5; Num 3; Str "-"; Num 8; Str "*"])).
Proof.
  split; [reflexivity|].
  apply (evaluate_rpn_returns_wellformed
           [Num 5; Num 3; Str "-"; Num 8; Str "*"] 16%float).
  reflexivity.
Defined.

Lemma evaluate_rpn_failure_cases rpn_tokens e :
  evaluate_rpn rpn_tokens = Raise e ->
  e = not_enough_operands_error \/ e = division_by_zero_error
  \/ (exists s, In (Str s) rpn_tokens /\ dict_get OPERATORS s = None
                /\ e = unknown_rpn_token_error s)
  \/ (exists stack, evaluate_loop rpn_tokens [] = Return stack
                    /\ List.length stack <> 1
                    /\ e = stack_size_error (List.length stack) rpn_tokens).
Proof.
  intros H. unfold evaluate_rpn in H.
  pose proof (evaluate_loop_outcomes rpn_tokens []) as Hloop.
  destruct (evaluate_loop rpn_tokens []) as [stack|e'|]; cbn [bind] in H.
  - right; right; right. exists stack. split; [reflexivity|].
    destruct stack as [|x [|y stack]]; try discriminate H;
      injection H as <-; split; try reflexivity; cbn [List.length]; lia.
  - injection H as ->. tauto.
  - discriminate H.
Qed.

(** X8: on the sequence [infix_to_rpn] returns for the tokens [tokenize]
    reads from a text, where every number is a float, [evaluate_rpn] fails
    in three ways only: an operator with fewer than two operands, a
    division by zero, and a number of values left other than one.  In
    particular it meets no string that is no operator there. *)
Theorem evaluate_rpn_failures :
  forall expression tokens rpn_tokens e,
    tokenize expression = Return tokens ->
    infix_to_rpn tokens = Return rpn_tokens ->
    evaluate_rpn rpn_tokens = Raise e ->
    e = not_enough_operands_error \/ e = division_by_zero_error
    \/ (exists stack, evaluate_loop rpn_tokens [] = Return stack
                      /\ List.length stack <> 1
                      /\ e = stack_size_error (List.length stack) rpn_tokens).
Proof.
  intros expression tokens rpn e _ Hrpn He.
  assert (Hshape : Forall rpn_token rpn).
  { unfold infix_to_rpn in Hrpn.
    apply bind_Return_inv in Hrpn. destruct Hrpn as (processed & _ & H).
    apply bind_Return_inv in H. destruct H as ([out st] & Hloop & Hdrain).
    destruct (shunting_loop_shape _ _ _ _ _ Hloop) as [Hout Hst];
      [constructor | constructor |].
    exact (drain_shape _ _ _ Hdrain Hout Hst). }
  destruct (evaluate_rpn_failure_cases rpn e He)
    as [H|[H|[(s & Hin & Hs & _)|H]]]; [now left|now right; left| |now right; right].
  rewrite Forall_forall in Hshape. apply Hshape in Hin.
  cbn [rpn_token In] in Hin.
  destruct Hin as [<-|[<-|[<-|[<-|[]]]]]; discriminate Hs.
Qed.

Lemma evaluate_rpn_failures_witness :
  tokenize "1 2" = Return [Num 1; Num 2]
  /\ infix_to_rpn [Num 1; Num 2] = Return [Num 1; Num 2]
  /\ evaluate_rpn [Num 1; Num 2] = Raise (stack_size_error 2 [Num 1; Num 2])
  /\ exists stack, evaluate_loop [Num 1; Num 2] [] = Return stack
                   /\ List.length stack <> 1
                   /\ stack_size_error 2 [Num 1; Num 2] =
                      stack_size_error (List.length stack) [Num 1; Num 2].
Proof.
  assert (Htok : tokenize "1 2" = Return [Num 1; Num 2])
    by (vm_compute; reflexivity).
  split; [exact Htok|]. split; [reflexivity|]. split; [reflexivity|].
  destruct (evaluate_rpn_failures "1 2" [Num 1; Num 2] [Num 1; Num 2]
              (stack_size_error 2 [Num 1; Num 2]) Htok eq_refl eq_refl)
    as [H|[H|H]]; [discriminate H|discriminate H|exact H].
Defined.

(** ** The failures of the main function *)

Lemma rewrap_specific e :
  specific_error (exn_type e) -> @rewrap float e = Raise e.
Proof.
  intros H. unfold rewrap.
  destruct H as [->|[->|[->| ->]]]; reflexivity.
Qed.

(** The exception the stages of the main function raise, before the
    handler sees it. *)
Lemma pipeline_Raise stripped e :
  (tokens <- tokenize stripped ;;
   match tokens with
   | [] =>
       raise InvalidExpressionError
         [Text "Expression contains no evaluable tokens after tokenization (e.g. only operators/parentheses that were consumed by RPN logic without numbers)."]
   | _ =>
       rpn_expression <- infix_to_rpn tokens ;;
       match rpn_expression with
       | [] =>
           if existsb is_number tokens
           then raise InvalidExpressionError msg_empty_rpn_with_numbers
           else raise InvalidExpressionError msg_empty_rpn_no_numbers
       | _ =>
           result <- evaluate_rpn rpn_expression ;;
           Return result
       end
   end) = Raise e ->
  specific_error (exn_type e).
Proof.
  unfold specific_error.
  destruct (tokenize stripped) as [tokens|e0|] eqn:Htok; cbn [bind];
    [|intros H; injection H as ->|discriminate].
  2:{ destruct (tokenize_raises_unknown_character_aux _ _ Htok) as (c & pos & ->).
      cbn. tauto. }
  assert (Hlex : Forall lexical tokens).
  { unfold tokenize in Htok.
    destruct (tokenize_loop_Return _ _ _ _ _ Htok) as (more & -> & Hlex & _).
    exact Hlex. }
  destruct tokens as [|t tokens]; [intros H; injection H as <-; cbn; tauto|].
  destruct (infix_to_rpn (t :: tokens)) as [rpn|e0|] eqn:Hrpn; cbn [bind];
    [|intros H; injection H as ->|discriminate].
  2:{ destruct (infix_to_rpn_failure_cases _ _ Hrpn)
        as [->|[->|(s & _ & _ & ->)]]; cbn; tauto. }
  destruct rpn as [|r rpn].
  { destruct (existsb _ _); intros H; injection H as <-; cbn; tauto. }
  destruct (evaluate_rpn (r :: rpn)) as [v|e0|] eqn:Hev; cbn [bind];
    [discriminate|intros H; injection H as ->|discriminate].
  destruct (evaluate_rpn_failure_cases _ _ Hev)
    as [->|[->|[(s & _ & _ & ->)|(stack & _ & _ & ->)]]]; cbn; tauto.
Qed.

Lemma safe_evaluate_expression_failure_classes s e :
  safe_evaluate_expression (PyStr s) = Raise e -> specific_error (exn_type e).
Proof.
  intros H. cbn [safe_evaluate_expression] in H.
  destruct (String.length (strip s) =? 0).
  { injection H as <-. cbn. unfold specific_error. tauto. }
  match type of H with
  | try_except ?body _ = _ => destruct body as [v|e0|] eqn:Hbody
  end; cbn [try_except] in H; try discriminate H.
  pose proof (pipeline_Raise _ _ Hbody) as He0.
  rewrite (rewrap_specific e0 He0) in H. now injection H as <-.
Qed.

(** X9: on a [str] the main function raises exceptions of the four
    specific classes only ([InvalidExpressionError],
    [DivisionByZeroError], [UnbalancedParenthesesError],
    [UnknownCharacterError]): its handler never has anything to wrap, and
    a plain [SafeEvalError] never comes out. *)
Theorem safe_evaluate_expression_specific_errors :
  forall s e,
    safe_evaluate_expression (PyStr s) = Raise e ->
    specific_error (exn_type e) /\ exn_type e <> SafeEvalError.
Proof.
  intros s e H.
  pose proof (safe_evaluate_expression_failure_classes s e H) as Hspec.
  split; [exact Hspec|].
  destruct Hspec as [->|[->|[->| ->]]]; discriminate.
Qed.

Lemma safe_evaluate_expression_specific_errors_witness :
  safe_evaluate_expression (PyStr "-(1+2)") = Raise not_enough_operands_error
  /\ specific_error (exn_type not_enough_operands_error).
Proof.
  split; [vm_compute; reflexivity|].
  apply (safe_evaluate_expression_specific_errors "-(1+2)").
  vm_compute; reflexivity.
Defined.

(** ** What the converter keeps *)

Lemma operators_on_app a b :
  operators_on (a ++ b) = operators_on a ++ operators_on b.
Proof. apply filter_app. Qed.

Lemma operators_on_popped popped :
  ~ In "(" popped -> operators_on popped = popped.
Proof.
  induction popped as [|s l IH]; intros Hno; [reflexivity|].
  unfold operators_on. cbn [filter].
  destruct (String.eqb_spec s "(") as [->|Hne].
  - exfalso. apply Hno. now left.
  - cbn [negb]. f_equal. apply IH. intros Hin. apply Hno. now right.
Qed.

Lemma filter_number_strings l : filter is_number (map Str l) = [].
Proof. induction l as [|s l IH]; [reflexivity|exact IH]. Qed.

(** Popping moves operators from the stack to the queue and changes
    neither their order nor the numbers of the queue. *)
Lemma popped_kept out popped st1 :
  ~ In "(" popped ->
  (out ++ map Str popped) ++ map Str (operators_on st1) =
  out ++ map Str (operators_on (popped ++ st1)).
Proof.
  intros Hno. rewrite operators_on_app, (operators_on_popped _ Hno).
  now rewrite map_app, app_assoc.
Qed.

Lemma shunting_loop_keeps tokens out st out' st' :
  shunting_loop tokens out st = Return (out', st') ->
  Permutation (out' ++ map Str (operators_on st'))
    ((out ++ map Str (operators_on st)) ++ without_parens tokens)
  /\ filter is_number out' = filter is_number out ++ filter is_number tokens.
Proof.
  revert out st; induction tokens as [|t rest IH]; intros out st;
    cbn [shunting_loop].
  - intros H. injection H as <- <-. cbn [without_parens filter].
    now rewrite !app_nil_r.
  - destruct t as [x|s].
    + intros H. destruct (IH _ _ H) as [Hperm Hnum]. split.
      * rewrite Hperm. cbn [without_parens filter is_paren token_in negb].
        rewrite <- !app_assoc. apply Permutation_app_head.
        cbn [app]. apply Permutation_middle.
      * rewrite Hnum, filter_app, <- app_assoc. reflexivity.
    + destruct (dict_get PRECEDENCE s) as [p|] eqn:Hp.
      * intros H. apply bind_Return_inv in H.
        destruct H as ([out1 st1] & Hpop & H).
        destruct (pop_operators_inv _ _ _ _ _ Hpop) as (popped & -> & -> & Hno).
        destruct (IH _ _ H) as [Hperm Hnum].
        assert (Hs : negb (is_paren (Str s)) = true /\ String.eqb s "(" = false).
        { apply PRECEDENCE_keys in Hp.
          destruct Hp as [->|[->|[->| ->]]]; now split. }
        destruct Hs as [Hs1 Hs2]. split.
        -- rewrite Hperm. unfold without_parens at 2. cbn [filter].
           rewrite Hs1. fold (without_parens rest).
           unfold operators_on at 1. cbn [filter]. rewrite Hs2. cbn [negb map].
           fold (operators_on st1).
           rewrite <- (popped_kept out popped st1 Hno).
           rewrite <- !app_assoc. apply Permutation_app_head.
           apply Permutation_app_head. cbn [app].
           apply Permutation_middle.
        -- rewrite Hnum, filter_app, filter_number_strings, app_nil_r.
           reflexivity.
      * destruct (String.eqb_spec s "(") as [->|Hnl].
        { intros H. destruct (IH _ _ H) as [Hperm Hnum]. split; assumption. }
        destruct (String.eqb_spec s ")") as [->|Hnr]; [|discriminate].
        destruct (pop_to_paren_inv out st) as (popped & Hst & Hout & Hno).
        destruct (pop_to_paren out st) as [out1 st1] eqn:Hpop.
        cbn [fst snd] in *. destruct st1 as [|top below]; [discriminate|].
        rewrite (pop_to_paren_head _ _ _ _ _ Hpop) in *.
        change (negb (String.eqb "(" "(")) with false. cbn iota.
        intros H. destruct (IH _ _ H) as [Hperm Hnum]. subst st out1. split.
        -- rewrite Hperm. cbn [without_parens filter is_paren token_in].
           change (negb (existsb (String.eqb ")") ["("; ")"])) with false.
           cbn iota. fold (without_parens rest).
           apply Permutation_app_tail.
           rewrite (popped_kept out popped below Hno), !operators_on_app.
           reflexivity.
        -- rewrite Hnum, filter_app, filter_number_strings, app_nil_r.
           reflexivity.
Qed.

Lemma drain_Return out st rpn :
  drain out st = Return rpn -> rpn = out ++ map Str st /\ ~ In "(" st.
Proof.
  revert out; induction st as [|top below IH]; intros out; cbn [drain map].
  - intros H. injection H as <-. now rewrite app_nil_r.
  - destruct (String.eqb_spec top "(") as [->|Hne]; [discriminate|].
    intros H. destruct (IH _ H) as [-> Hno]. rewrite <- app_assoc.
    split; [reflexivity|]. intros [Heq|Hin]; [congruence|contradiction].
Qed.

(** X10: the sequence [infix_to_rpn] returns is a rearrangement of the
    tokens left by the unary pass, parentheses taken out: no number or
    operator is lost, none is added; and the numbers come in the order
    they had. *)
Theorem infix_to_rpn_rearranges :
  forall tokens rpn,
    infix_to_rpn tokens = Return rpn ->
    exists processed,
      unary_loop (List.length tokens) tokens 0 [] = Return processed
      /\ Permutation rpn (without_parens processed)
      /\ filter is_number rpn = filter is_number processed.
Proof.
  intros tokens rpn H. unfold infix_to_rpn in H.
  rewrite unary_pass_fold_signs in *. cbn [bind] in H.
  exists (fold_signs None tokens). split; [reflexivity|].
  apply bind_Return_inv in H. destruct H as ([out st] & Hloop & Hdrain).
  destruct (shunting_loop_keeps _ _ _ _ _ Hloop) as [Hperm Hnum].
  destruct (drain_Return _ _ _ Hdrain) as [-> Hno].
  rewrite (operators_on_popped st Hno) in Hperm. cbn [app map] in Hperm, Hnum.
  split; [exact Hperm|].
  now rewrite filter_app, filter_number_strings, app_nil_r.
Qed.

Lemma infix_to_rpn_rearranges_witness :
  infix_to_rpn [Num 1; Str "+"; Num 2; Str "*"; Str "("; Str "-"; Num 3; Str ")"]
  = Return [Num 1; Num 2; Num (-3); Str "*"; Str "+"]
  /\ exists processed,
      unary_loop 8 [Num 1; Str "+"; Num 2; Str "*"; Str "("; Str "-"; Num 3; Str ")"]
        0 [] = Return processed
      /\ Permutation [Num 1; Num 2; Num (-3); Str "*"; Str "+"]
           (without_parens processed)
      /\ filter is_number [Num 1; Num 2; Num (-3); Str "*"; Str "+"] =
         filter is_number processed.
Proof.
  split; [reflexivity|].
  apply (infix_to_rpn_rearranges
           [Num 1; Str "+"; Num 2; Str "*"; Str "("; Str "-"; Num 3; Str ")"]).
  reflexivity.
Defined.

(** ** Matching parentheses *)

Lemma balanced_sign t d rest :
  token_in t ["+"; "-"] = true -> balanced d (t :: rest) = balanced d rest.
Proof.
  destruct t as [x|s]; [discriminate|]. cbn [token_in]. intros H.
  apply existsb_eqb_In in H. destruct H as [<-|[<-|[]]]; reflexivity.
Qed.

Lemma fold_signs_balanced l :
  forall prev d, balanced d (fold_signs prev l) = balanced d l.
Proof.
  assert (H : forall n l, List.length l <= n ->
                          forall prev d,
                            balanced d (fold_signs prev l) = balanced d l).
  { clear l. induction n as [|n IH]; intros [|t l] Hlen prev d;
      cbn [List.length] in Hlen; try reflexivity; try lia.
    assert (Hkeep : balanced d (t :: fold_signs (Some t) l) = balanced d (t :: l)).
    { destruct t as [x|s]; cbn [balanced].
      - apply IH. lia.
      - destruct (String.eqb s "("); [apply IH; lia|].
        destruct (String.eqb s ")"); [|apply IH; lia].
        destruct d; [reflexivity|apply IH; lia]. }
    cbn [fold_signs].
    destruct (token_in t ["+"; "-"] && operand_expected prev) eqn:Hc;
      [|exact Hkeep].
    destruct l as [|[x|s'] l']; try exact Hkeep.
    apply andb_true_iff in Hc. destruct Hc as [Hsign _].
    rewrite (balanced_sign t d _ Hsign).
    assert (Hnum : forall y, balanced d (Num y :: fold_signs (Some (Num x)) l')
                             = balanced d (Num x :: l')).
    { intros y. cbn [balanced]. apply IH. cbn [List.length] in Hlen. lia. }
    destruct (token_in t ["-"]); apply Hnum. }
  intros prev d. apply (H (List.length l)). lia.
Qed.

Lemma fold_signs_lexical l prev :
  Forall lexical l -> Forall lexical (fold_signs prev l).
Proof.
  rewrite !Forall_forall. intros Hl [x|s] Hin; [exact I|].
  apply Hl. now apply fold_signs_strings in Hin.
Qed.

Lemma count_open_popped popped st1 :
  ~ In "(" popped -> count_open (popped ++ st1) = count_open st1.
Proof.
  intros Hno. unfold count_open. rewrite filter_app, length_app.
  induction popped as [|s l IH]; [reflexivity|]. cbn [filter].
  destruct (String.eqb_spec s "(") as [->|Hne].
  - exfalso. apply Hno. now left.
  - apply IH. intros Hin. apply Hno. now right.
Qed.

Lemma drain_returns_iff out st :
  (exists rpn, drain out st = Return rpn) <-> count_open st = 0.
Proof.
  revert out; induction st as [|top below IH]; intros out; cbn [drain].
  - split; [reflexivity|]. intros _. eexists. reflexivity.
  - unfold count_open. cbn [filter].
    destruct (String.eqb top "("); cbn [List.length].
    + split; [intros (rpn & H); discriminate H|discriminate].
    + apply IH.
Qed.

Lemma shunting_balanced tokens :
  Forall lexical tokens ->
  forall out st,
    (exists rpn,
        ('(output_queue, operator_stack) <- shunting_loop tokens out st ;;
         drain output_queue operator_stack) = Return rpn)
    <-> balanced (count_open st) tokens = true.
Proof.
  induction 1 as [|t rest Ht Hrest IH]; intros out st;
    cbn [shunting_loop bind balanced].
  - rewrite drain_returns_iff. symmetry. apply Nat.eqb_eq.
  - destruct t as [x|s]; [apply IH|].
    destruct (dict_get PRECEDENCE s) as [p|] eqn:Hp.
    + destruct (pop_operators_returns s p out st Hp) as ([out1 st1] & Hpop).
      rewrite Hpop. cbn [bind].
      destruct (pop_operators_inv _ _ _ _ _ Hpop) as (popped & -> & _ & Hno).
      assert (Hs : String.eqb s "(" = false /\ String.eqb s ")" = false).
      { apply PRECEDENCE_keys in Hp.
        destruct Hp as [->|[->|[->| ->]]]; now split. }
      destruct Hs as [-> ->]. rewrite IH.
      rewrite (count_open_popped popped st1 Hno).
      unfold count_open at 1. cbn [filter].
      assert (Hs : String.eqb s "(" = false).
      { apply PRECEDENCE_keys in Hp.
        destruct Hp as [->|[->|[->| ->]]]; reflexivity. }
      rewrite Hs. reflexivity.
    + destruct (String.eqb_spec s "(") as [->|Hnl].
      { rewrite IH. reflexivity. }
      destruct (String.eqb_spec s ")") as [->|Hnr].
      2:{ exfalso. cbn [lexical In] in Ht.
          destruct Ht as [<-|[<-|[<-|[<-|[<-|[<-|[]]]]]]];
            try discriminate Hp; congruence. }
      destruct (pop_to_paren_inv out st) as (popped & Hst & _ & Hno).
      destruct (pop_to_paren out st) as [out1 st1] eqn:Hpop.
      cbn [snd] in Hst. rewrite Hst, (count_open_popped popped st1 Hno).
      destruct st1 as [|top below].
      * cbn [bind]. split; [intros (rpn & H); discriminate H|discriminate].
      * rewrite (pop_to_paren_head _ _ _ _ _ Hpop).
        change (negb (String.eqb "(" "(")) with false. cbn iota.
        apply IH.
Qed.

(** X11: on tokens as the tokenizer makes them, [infix_to_rpn] returns
    exactly when the parentheses match; when they do not it raises
    [UnbalancedParenthesesError].  Nothing else of the token list decides
    whether the conversion succeeds. *)
Theorem infix_to_rpn_returns_iff_balanced :
  forall tokens,
    Forall lexical tokens ->
    ((exists rpn, infix_to_rpn tokens = Return rpn) <->
     balanced 0 tokens = true)
    /\ (balanced 0 tokens = false ->
        infix_to_rpn tokens = Raise missing_left_error
        \/ infix_to_rpn tokens = Raise missing_right_error).
Proof.
  intros tokens Hlex.
  assert (Hiff : (exists rpn, infix_to_rpn tokens = Return rpn) <->
                 balanced 0 tokens = true).
  { unfold infix_to_rpn. rewrite unary_pass_fold_signs. cbn [bind].
    rewrite (shunting_balanced _ (fold_signs_lexical tokens None Hlex) [] []).
    change (count_open []) with 0. now rewrite fold_signs_balanced. }
  split; [exact Hiff|].
  intros Hbad. destruct (infix_to_rpn tokens) as [rpn|e|] eqn:H.
  - assert (Hgood : balanced 0 tokens = true) by (apply Hiff; now exists rpn).
    rewrite Hgood in Hbad. discriminate Hbad.
  - destruct (infix_to_rpn_failure_cases _ _ H)
      as [->|[->|(s & Hin & Hns & _)]]; [now left|now right|].
    rewrite Forall_forall in Hlex. now apply Hlex in Hin.
  - now apply terminates_infix_to_rpn in H.
Qed.

Lemma infix_to_rpn_returns_iff_balanced_witness :
  Forall lexical [Str "("; Num 1; Str ")"; Str ")"]
  /\ balanced 0 [Str "("; Num 1; Str ")"; Str ")"] = false
  /\ (infix_to_rpn [Str "("; Num 1; Str ")"; Str ")"] = Raise missing_left_error
      \/ infix_to_rpn [Str "("; Num 1; Str ")"; Str ")"] = Raise missing_right_error).
Proof.
  assert (Hlex : Forall lexical [Str "("; Num 1; Str ")"; Str ")"]).
  { repeat constructor; cbn; tauto. }
  split; [exact Hlex|]. split; [reflexivity|].
  apply (proj2 (infix_to_rpn_returns_iff_balanced
                  [Str "("; Num 1; Str ")"; Str ")"] Hlex)).
  reflexivity.
Defined.

(** ** A sign before a group, and an empty group *)

Lemma fold_signs_sign_before_group o e :
  fold_signs None (Str (addop_symbol o) :: factor_tokens (F_paren e)) =
  Str (addop_symbol o) :: factor_folded (F_paren e).
Proof.
  assert (Hkeep : fold_signs None (Str (addop_symbol o) :: factor_tokens (F_paren e))
                  = Str (addop_symbol o)
                      :: fold_signs (Some (Str (addop_symbol o)))
                           (factor_tokens (F_paren e)))
    by now destruct o.
  rewrite Hkeep. f_equal.
  destruct (proj2 (proj2 fold_signs_grammar) (F_paren e)
              (Some (Str (addop_symbol o))) [] (expected_after_addop o))
    as (last & _ & H).
  rewrite !app_nil_r in H. exact H.
Qed.

Lemma infix_to_rpn_sign_before_group o e :
  infix_to_rpn (Str (addop_symbol o) :: factor_tokens (F_paren e)) =
  Return (expr_rpn e ++ [Str (addop_symbol o)]).
Proof.
  unfold infix_to_rpn. rewrite unary_pass_fold_signs. cbn [bind].
  rewrite fold_signs_sign_before_group.
  assert (Hpush : forall rest,
             shunting_loop (Str (addop_symbol o) :: rest) [] [] =
             shunting_loop rest [] [addop_symbol o])
    by (intros rest; now destruct o).
  rewrite Hpush.
  pose proof (proj2 (proj2 shunting_loop_grammar) (F_paren e) [] []
                [addop_symbol o]) as H.
  rewrite app_nil_r in H. rewrite H. cbn [shunting_loop bind app factor_rpn].
  now destruct o.
Qed.

(** X12: where the whole expression is a sign followed by one
    parenthesised expression of the grammar, so that its tokens are the
    sign, ['('], the tokens of the expression and [')'], the sign is not
    folded: the postfix form is the one of the group followed by the sign,
    and the main function raises [InvalidExpressionError] (not enough
    operands) whenever the group has a value, as on ["-(5-3)"].  A sign
    before a group elsewhere in a text is not covered: after an operand it
    is read as a binary operator. *)
Theorem sign_before_group_rejected :
  forall s o e v,
    tokenize (strip s) =
    Return (Str (addop_symbol o) :: Str "(" :: expr_tokens e ++ [Str ")"]) ->
    expr_value e = Some v ->
    infix_to_rpn (Str (addop_symbol o) :: Str "(" :: expr_tokens e ++ [Str ")"])
    = Return (expr_rpn e ++ [Str (addop_symbol o)])
    /\ safe_evaluate_expression (PyStr s) = Raise not_enough_operands_error.
Proof.
  intros s o e v Htok Hv.
  pose proof (infix_to_rpn_sign_before_group o e) as Hrpn.
  cbn [factor_tokens] in Hrpn. split; [exact Hrpn|].
  cbn [safe_evaluate_expression].
  destruct (Nat.eqb_spec (String.length (strip s)) 0) as [Hz|_].
  { apply length_zero_empty in Hz. rewrite Hz, tokenize_empty in Htok.
    discriminate Htok. }
  rewrite Htok. cbn [bind]. rewrite Hrpn. cbn [bind].
  assert (Hev : evaluate_rpn (expr_rpn e ++ [Str (addop_symbol o)]) =
                Raise not_enough_operands_error).
  { unfold evaluate_rpn.
    rewrite (proj1 evaluate_loop_grammar e [Str (addop_symbol o)] []), Hv.
    now destruct o. }
  destruct (expr_rpn e ++ [Str (addop_symbol o)]) as [|r rpn] eqn:Happ.
  { now apply app_eq_nil in Happ. }
  now rewrite Hev.
Qed.

Lemma sign_before_group_rejected_witness :
  tokenize (strip "-(5-3)") =
  Return (Str (addop_symbol Minus) :: Str "("
            :: expr_tokens (E_add (E_term (T_factor (F_number 5))) Minus
                              (T_factor (F_number 3)))
            ++ [Str ")"])
  /\ safe_evaluate_expression (PyStr "-(5-3)") = Raise not_enough_operands_error.
Proof.
  assert (Htok : tokenize (strip "-(5-3)") =
                 Return (Str (addop_symbol Minus) :: Str "("
                           :: expr_tokens (E_add (E_term (T_factor (F_number 5)))
                                             Minus (T_factor (F_number 3)))
                           ++ [Str ")"]))
    by (vm_compute; reflexivity).
  split; [exact Htok|].
  exact (proj2 (sign_before_group_rejected "-(5-3)" Minus _ 2%float Htok eq_refl)).
Defined.

Lemma fold_signs_empty_group e :
  fold_signs None (expr_tokens e ++ [Str "("; Str ")"]) =
  expr_folded e ++ [Str "("; Str ")"].
Proof.
  destruct (proj1 fold_signs_grammar e None [Str "("; Str ")"] eq_refl)
    as (last & _ & ->).
  reflexivity.
Qed.

(** X13: an empty pair of parentheses written after an expression is
    dropped by the conversion: the RPN sequence and the result are those
    of the expression alone, as for ["5 ()"]. *)
Theorem empty_group_after_expression_ignored :
  forall s e,
    tokenize (strip s) = Return (expr_tokens e ++ [Str "("; Str ")"]) ->
    infix_to_rpn (expr_tokens e ++ [Str "("; Str ")"]) = Return (expr_rpn e)
    /\ safe_evaluate_expression (PyStr s) =
       match expr_value e with
       | Some v => Return v
       | None => Raise division_by_zero_error
       end.
Proof.
  intros s e Htok.
  assert (Hrpn : infix_to_rpn (expr_tokens e ++ [Str "("; Str ")"]) =
                 Return (expr_rpn e)).
  { unfold infix_to_rpn. rewrite unary_pass_fold_signs. cbn [bind].
    rewrite fold_signs_empty_group.
    destruct (proj1 shunting_loop_grammar e [Str "("; Str ")"] [] [] I)
      as (q & ops & Hops & Hq & ->).
    rewrite app_nil_r.
    change (shunting_loop [Str "("; Str ")"] ([] ++ q) ops)
      with (shunting_loop [Str ")"] ([] ++ q) ("(" :: ops)).
    pose proof (shunting_loop_close [] ([] ++ q) [] ops (Forall_nil _)) as H.
    cbn [app map] in H. cbn [app]. rewrite H, app_nil_r.
    cbn [shunting_loop bind]. rewrite (drain_operators q ops Hops).
    now rewrite Hq. }
  split; [exact Hrpn|].
  cbn [safe_evaluate_expression].
  destruct (Nat.eqb_spec (String.length (strip s)) 0) as [Hz|_].
  { apply length_zero_empty in Hz. rewrite Hz, tokenize_empty in Htok.
    injection Htok as Htok. symmetry in Htok.
    apply app_eq_nil in Htok. destruct Htok as [_ Htok]. discriminate Htok. }
  rewrite Htok. cbn [bind].
  destruct (expr_tokens e ++ [Str "("; Str ")"]) as [|t0 ts] eqn:Hts.
  { apply app_eq_nil in Hts. destruct Hts as [_ Hts]. discriminate Hts. }
  rewrite Hrpn. cbn [bind].
  destruct (expr_rpn e) as [|r0 rs] eqn:Hrs.
  { now apply (proj1 grammar_rpn_nonempty) in Hrs. }
  rewrite <- Hrs, evaluate_rpn_expr.
  now destruct (expr_value e).
Qed.

Lemma empty_group_after_expression_ignored_witness :
  tokenize (strip "5 ()") =
  Return (expr_tokens (E_term (T_factor (F_number 5))) ++ [Str "("; Str ")"])
  /\ safe_evaluate_expression (PyStr "5 ()") = Return 5%float.
Proof.
  assert (Htok : tokenize (strip "5 ()") =
                 Return (expr_tokens (E_term (T_factor (F_number 5)))
                           ++ [Str "("; Str ")"]))
    by (vm_compute; reflexivity).
  split; [exact Htok|].
  exact (proj2 (empty_group_after_expression_ignored "5 ()" _ Htok)).
Defined.

(** ** calculator_tool *)

Lemma safe_evaluate_expression_terminates s :
  terminates (safe_evaluate_expression (PyStr s)).
Proof.
  cbn [safe_evaluate_expression].
  destruct (String.length (strip s) =? 0); [apply terminates_raise|].
  apply terminates_try_except; [apply terminates_pipeline|].
  intros e. unfold rewrap. destruct (issubclass _ _);
    [discriminate|apply terminates_raise].
Qed.

Lemma calculator_try_specific expression e :
  specific_error (exn_type e) ->
  exists pieces,
    calculator_try expression (Raise e) =
    ([(WARNING, pieces)],
     ToolRaise
       (mk_FastMCPError (exn_msg e) (evaluation_error_code (exn_type e))
          [("input_expression", Obj expression)])).
Proof.
  intros H. unfold calculator_try, evaluation_error_code.
  destruct H as [->|[->|[->| ->]]]; eexists; reflexivity.
Qed.

(** X14: on a string, [calculator_tool] returns [{"value": v}] exactly
    when [safe_evaluate_expression] returns [v]; when the evaluation
    raises, it raises a [FastMCPError] with the message of the evaluation
    error, the code -32001 for a [DivisionByZeroError] and -32000 for
    every other one, and the expression as [input_expression]. *)
Theorem calculator_tool_on_string :
  forall s,
    snd (calculator_tool (PyStr s)) =
    match safe_evaluate_expression (PyStr s) with
    | Return v => ToolReturn [("value", Float v)]
    | Raise e =>
        ToolRaise
          (mk_FastMCPError (exn_msg e)
             (if exn_class_eqb (exn_type e) DivisionByZeroError
              then (-32001)%Z else (-32000)%Z)
             [("input_expression", Obj (PyStr s))])
    | OutOfFuel => ToolOutOfFuel
    end.
Proof.
  intros s. cbn [calculator_tool].
  destruct (safe_evaluate_expression (PyStr s)) as [v|e|] eqn:H;
    [reflexivity| |reflexivity].
  destruct (calculator_try_specific (PyStr s) e
              (safe_evaluate_expression_failure_classes s e H))
    as (pieces & ->).
  reflexivity.
Qed.

(** X15: for every argument [calculator_tool] ends by returning or by
    raising a [FastMCPError] whose code is -32602, -32001 or -32000 and
    whose payload holds [input_expression]; the code is -32602 exactly
    when the argument is not a string, and the internal-error code -32603
    of the last handler is never produced. *)
Theorem calculator_tool_codes :
  forall expression,
    match snd (calculator_tool expression) with
    | ToolReturn d => is_str expression = true
    | ToolRaise err =>
        In (args_code err) [-32602; -32001; -32000]%Z
        /\ (args_code err = (-32602)%Z <-> is_str expression = false)
        /\ args_code err <> (-32603)%Z
        /\ exists v, dict_get (args_data err) "input_expression" = Some v
    | ToolOutOfFuel => False
    end.
Proof.
  intros [s|n|x| |l];
    try (cbn; repeat split; try tauto; try discriminate; eexists; reflexivity).
  cbn [calculator_tool].
  destruct (safe_evaluate_expression (PyStr s)) as [v|e|] eqn:H.
  - reflexivity.
  - destruct (calculator_try_specific (PyStr s) e
                (safe_evaluate_expression_failure_classes s e H))
      as (pieces & ->).
    cbn [snd args_code args_data is_str]. unfold evaluation_error_code.
    destruct (exn_class_eqb (exn_type e) DivisionByZeroError);
      (repeat split; [cbn; tauto|discriminate|discriminate|discriminate
                     |eexists; reflexivity]).
  - now apply safe_evaluate_expression_terminates in H.
Qed.

(** X16: on a string that tokenizes to an expression of the grammar,
    [calculator_tool] returns the standard value of the expression under
    ["value"], or raises with the code -32001 when the expression divides
    by zero. *)
Theorem calculator_tool_standard_value :
  forall s e,
    tokenize (strip s) = Return (expr_tokens e) ->
    snd (calculator_tool (PyStr s)) =
    match expr_value e with
    | Some v => ToolReturn [("value", Float v)]
    | None =>
        ToolRaise
          (mk_FastMCPError msg_division_by_zero ERROR_DIVISION_BY_ZERO
             [("input_expression", Obj (PyStr s))])
    end.
Proof.
  intros s e Htok. cbn [calculator_tool].
  rewrite (safe_evaluate_expression_expr s e Htok).
  destruct (expr_value e); reflexivity.
Qed.

Lemma calculator_tool_standard_value_witness :
  tokenize (strip "(5-3)*8/4") = Return (expr_tokens example_expr)
  /\ snd (calculator_tool (PyStr "(5-3)*8/4")) = ToolReturn [("value", Float 4)].
Proof.
  assert (Htok : tokenize (strip "(5-3)*8/4") = Return (expr_tokens example_expr))
    by (vm_compute; reflexivity).
  split; [exact Htok|].
  exact (calculator_tool_standard_value "(5-3)*8/4" example_expr Htok).
Defined.

(** X17: every call of [calculator_tool] logs two records: first the call,
    at INFO, then the result at INFO when it returns, or the failure, at
    ERROR for an argument that is not a string and at WARNING for every
    failed evaluation. *)
Theorem calculator_tool_log :
  forall expression,
    exists pieces,
      fst (calculator_tool expression) =
      [calculator_called expression;
       (match snd (calculator_tool expression) with
        | ToolReturn _ => INFO
        | ToolRaise err =>
            if Z.eqb (args_code err) (-32602) then ERROR else WARNING
        | ToolOutOfFuel => ERROR
        end, pieces)].
Proof.
  intros [s|n|x| |l]; try (eexists; reflexivity).
  cbn [calculator_tool].
  destruct (safe_evaluate_expression (PyStr s)) as [v|e|] eqn:H.
  - eexists. reflexivity.
  - destruct (calculator_try_specific (PyStr s) e
                (safe_evaluate_expression_failure_classes s e H))
      as (pieces & ->).
    exists pieces. cbn [fst snd args_code]. unfold evaluation_error_code.
    destruct (exn_class_eqb (exn_type e) DivisionByZeroError); reflexivity.
  - now apply safe_evaluate_expression_terminates in H.
Qed.

(** ** shell_tool *)

(** X18: [shell_tool] runs the command only when the command is a string
    and the working directory is [None] or a string; otherwise it raises
    with the code -32602, and no other failure has that code.  When the
    process is run, a completed process is returned and an exception of
    [subprocess.run] becomes a [FastMCPError] with the code -32002 for
    [FileNotFoundError] and [NotADirectoryError] and -32000 for any other
    one, with the command and [str(e)] in the payload. *)
Theorem shell_tool_codes :
  forall run command working_dir,
    match snd (shell_tool run command working_dir) with
    | ToolReturn d =>
        exists cmd out err rc,
          command = PyStr cmd
          /\ valid_shell_arguments command working_dir = true
          /\ run cmd (cwd_argument working_dir) = CompletedProcess out err rc
    | ToolRaise err =>
        (valid_shell_arguments command working_dir = false
         /\ args_code err = (-32602)%Z)
        \/ (exists cmd c str_e,
               command = PyStr cmd
               /\ valid_shell_arguments command working_dir = true
               /\ run cmd (cwd_argument working_dir) = RunRaise c str_e
               /\ args_code err = match c with
                                  | OtherException => (-32000)%Z
                                  | _ => (-32002)%Z
                                  end
               /\ dict_get (args_data err) "command" = Some (Obj command)
               /\ dict_get (args_data err) "error_details" =
                  Some (Obj (PyStr str_e)))
    | ToolOutOfFuel => False
    end.
Proof.
  intros run command working_dir.
  destruct command as [cmd|n|x| |l]; try (left; split; reflexivity).
  destruct working_dir as [dir|n|x| |l];
    try (left; split; reflexivity); cbn [shell_tool snd cwd_argument].
  - destruct (run cmd (if truthy (PyStr dir) then Some dir else None))
      as [out err rc|c str_e] eqn:Hrun.
    + now exists cmd, out, err, rc.
    + destruct c; right; exists cmd; eexists; exists str_e;
        repeat split; reflexivity || exact Hrun.
  - destruct (run cmd None) as [out err rc|c str_e] eqn:Hrun.
    + now exists cmd, out, err, rc.
    + destruct c; right; exists cmd; eexists; exists str_e;
        repeat split; reflexivity || exact Hrun.
Qed.

(** X19: a completed process is always returned, whatever its return
    code: the return code is passed on unchanged, and the standard output
    and error are returned stripped, so that they are empty or start with
    a character that is not whitespace and stripping them again changes
    nothing. *)
Theorem shell_tool_completed :
  forall run cmd working_dir out err rc,
    valid_shell_arguments (PyStr cmd) working_dir = true ->
    run cmd (cwd_argument working_dir) = CompletedProcess out err rc ->
    snd (shell_tool run (PyStr cmd) working_dir) =
    ToolReturn [("stdout", Obj (PyStr (strip out)));
                ("stderr", Obj (PyStr (strip err)));
                ("returncode", Obj (PyInt rc))]
    /\ strip (strip out) = strip out /\ strip (strip err) = strip err
    /\ (forall c r, strip out = String c r -> isspace c = false)
    /\ (forall c r, strip err = String c r -> isspace c = false).
Proof.
  intros run cmd working_dir out err rc Hvalid Hrun.
  split; [|split; [apply strip_idempotent|split; [apply strip_idempotent|]]].
  - destruct working_dir as [dir|n|x| |l]; try discriminate Hvalid;
      cbn [shell_tool snd cwd_argument] in *; now rewrite Hrun.
  - split; intros c r; apply strip_head.
Qed.

Lemma shell_tool_completed_witness :
  valid_shell_arguments (PyStr "echo 'hello world'") PyNone = true
  /\ snd (shell_tool echo_run (PyStr "echo 'hello world'") PyNone) =
     ToolReturn [("stdout", Obj (PyStr "hello world"));
                 ("stderr", Obj (PyStr EmptyString));
                 ("returncode", Obj (PyInt 0))].
Proof.
  split; [reflexivity|].
  exact (proj1 (shell_tool_completed echo_run "echo 'hello world'" PyNone
                  _ _ _ eq_refl eq_refl)).
Defined.

(** X20: an empty working directory counts as none.  The command is run
    without a [cwd] argument, and when the process completes the call
    returns and logs exactly what it does for [None]. *)
Theorem shell_tool_empty_working_dir :
  forall run cmd,
    cwd_argument (PyStr EmptyString) = None
    /\ (forall out err rc,
           run cmd None = CompletedProcess out err rc ->
           shell_tool run (PyStr cmd) (PyStr EmptyString) =
           shell_tool run (PyStr cmd) PyNone).
Proof.
  intros run cmd. split; [reflexivity|].
  intros out err rc Hrun. cbn [shell_tool truthy String.length Nat.eqb negb].
  now rewrite Hrun.
Qed.

Lemma shell_tool_empty_working_dir_witness :
  echo_run "ls" None =
  CompletedProcess ("hello world" ++ String "010"%char EmptyString) EmptyString 0
  /\ shell_tool echo_run (PyStr "ls") (PyStr EmptyString) =
     shell_tool echo_run (PyStr "ls") PyNone.
Proof.
  split; [reflexivity|].
  exact (proj2 (shell_tool_empty_working_dir echo_run "ls") _ _ _ eq_refl).
Defined.

(** ** Number literals *)

Lemma float_of_str_integer_value a :
  string_forallb isdigit a = true -> a <> EmptyString ->
  float_of_str a = Return (decimal_to_float (digits_value a 0) 0).
Proof.
  intros Ha Hne. unfold float_of_str.
  rewrite (drop_while_all _ _ Ha), (take_while_all _ _ Ha).
  destruct a as [|c a]; [congruence|reflexivity].
Qed.

Lemma float_of_str_decimal_value a b :
  string_forallb isdigit a = true -> string_forallb isdigit b = true ->
  0 < String.length a + String.length b ->
  float_of_str (a ++ String "."%char b) =
  Return (decimal_to_float (digits_value (a ++ b) 0) (String.length b)).
Proof.
  intros Ha Hb Hlen. unfold float_of_str.
  rewrite (take_while_app_stop isdigit a "."%char b Ha eq_refl).
  rewrite (drop_while_app_stop isdigit a "."%char b Ha eq_refl).
  rewrite (drop_while_all _ _ Hb).
  change (Ascii.eqb "." ".") with true. cbn [String.length Nat.eqb andb].
  apply Nat.ltb_lt in Hlen. now rewrite Hlen.
Qed.

Lemma re_match_integer a :
  string_forallb isdigit a = true -> a <> EmptyString ->
  re_match a = Some (NUMBER, a).
Proof.
  intros Ha Hne. destruct a as [|c a']; [congruence|].
  unfold re_match. pose proof Ha as Hc. cbn [string_forallb] in Hc.
  apply andb_true_iff in Hc. destruct Hc as [Hc _]. rewrite Hc.
  now rewrite (drop_while_all _ _ Ha), (take_while_all _ _ Ha).
Qed.

Lemma re_match_decimal a b :
  string_forallb isdigit a = true -> string_forallb isdigit b = true ->
  0 < String.length a + String.length b ->
  re_match (a ++ String "."%char b) = Some (NUMBER, (a ++ String "."%char b)%string).
Proof.
  intros Ha Hb Hlen. destruct a as [|c a'].
  - cbn [append]. unfold re_match.
    change (isdigit ".") with false. change (Ascii.eqb "." ".") with true.
    destruct b as [|d b']; [cbn [String.length] in Hlen; lia|].
    pose proof Hb as Hd. cbn [string_forallb] in Hd.
    apply andb_true_iff in Hd. destruct Hd as [Hd _].
    cbn [starts_with_digit andb]. rewrite Hd.
    now rewrite (take_while_all _ _ Hb).
  - pose proof Ha as Hc. cbn [string_forallb] in Hc.
    apply andb_true_iff in Hc. destruct Hc as [Hc _].
    change ((String c a' ++ String "." b)%string)
      with (String c (a' ++ String "." b)) at 1.
    unfold re_match. rewrite Hc.
    change (String c (a' ++ String "." b))
      with ((String c a' ++ String "." b)%string).
    rewrite (take_while_app_stop isdigit _ "."%char b Ha eq_refl).
    rewrite (drop_while_app_stop isdigit _ "."%char b Ha eq_refl).
    change (Ascii.eqb "." ".") with true. cbn iota.
    now rewrite (take_while_all _ _ Hb).
Qed.

Lemma tokenize_single_number value x :
  re_match value = Some (NUMBER, value) ->
  float_of_str value = Return x ->
  tokenize value = Return [Num x].
Proof.
  intros Hm Hx. unfold tokenize.
  pose proof (re_match_consumes _ _ _ Hm) as Hlen.
  destruct (String.length value) as [|n] eqn:Hn; [lia|].
  cbn [tokenize_loop]. rewrite Hn. cbn [Nat.ltb Nat.leb slice_from].
  rewrite Hm, Hx. cbn [bind try_except app Nat.add].
  rewrite Hn. destruct n; cbn [tokenize_loop]; rewrite Hn, Nat.ltb_irrefl;
    reflexivity.
Qed.

(** X21: a decimal literal tokenizes to exactly one number.  Digits alone
    give the float nearest to the integer they write; digits, a dot and
    digits (either part may be missing, not both: ["5."], [".5"]) give the
    float nearest to the written decimal fraction. *)
Theorem tokenize_decimal_literal :
  (forall a,
      string_forallb isdigit a = true -> a <> EmptyString ->
      tokenize a = Return [Num (decimal_to_float (digits_value a 0) 0)])
  /\ (forall a b,
         string_forallb isdigit a = true -> string_forallb isdigit b = true ->
         0 < String.length a + String.length b ->
         tokenize (a ++ String "."%char b) =
         Return [Num (decimal_to_float (digits_value (a ++ b) 0)
                        (String.length b))]).
Proof.
  split.
  - intros a Ha Hne. apply tokenize_single_number.
    + now apply re_match_integer.
    + now apply float_of_str_integer_value.
  - intros a b Ha Hb Hlen. apply tokenize_single_number.
    + now apply re_match_decimal.
    + now apply float_of_str_decimal_value.
Qed.

Lemma tokenize_decimal_literal_witness :
  string_forallb isdigit "10" = true /\ string_forallb isdigit "5" = true
  /\ tokenize ("10" ++ String "."%char "5") = Return [Num 10.5].
Proof.
  split; [reflexivity|]. split; [reflexivity|].
  exact (proj2 tokenize_decimal_literal "10" "5" eq_refl eq_refl
           (Nat.lt_0_succ 2)).
Defined.

(** ** The tokens depend on the text alone *)

(** The tokens handed to the loop are a prefix of its result and do not
    influence the rest. *)
Lemma tokenize_loop_accumulator fuel expression current_pos tokens :
  tokens_of (tokenize_loop fuel expression current_pos tokens) =
  option_map (app tokens)
    (tokens_of (tokenize_loop fuel expression current_pos [])).
Proof.
  revert current_pos tokens; induction fuel as [|fuel IH];
    intros current_pos tokens; cbn [tokenize_loop];
    destruct (current_pos <? String.length expression);
    try (cbn [tokens_of option_map]; now rewrite ?app_nil_r).
  destruct (re_match (slice_from current_pos expression)) as [[k value]|];
    [|reflexivity].
  destruct k; cbn [bind app].
  - destruct (float_of_str value) as [x|e|]; cbn [bind try_except].
    + rewrite (IH _ (tokens ++ [Num x])), (IH _ [Num x]).
      destruct (tokens_of _); cbn [option_map]; [|reflexivity].
      now rewrite <- app_assoc.
    + destruct (issubclass _ _); reflexivity.
    + reflexivity.
  - rewrite (IH _ (tokens ++ [Str value])), (IH _ [Str value]).
    destruct (tokens_of _); cbn [option_map]; [|reflexivity].
    now rewrite <- app_assoc.
  - apply IH.
  - reflexivity.
Qed.

(** With fuel enough, the tokens depend only on the text from the current
    position on. *)
Lemma tokenize_loop_text fuel1 :
  forall fuel2 expression1 expression2 pos1 pos2,
    slice_from pos1 expression1 = slice_from pos2 expression2 ->
    String.length expression1 - pos1 <= fuel1 ->
    String.length expression2 - pos2 <= fuel2 ->
    tokens_of (tokenize_loop fuel1 expression1 pos1 []) =
    tokens_of (tokenize_loop fuel2 expression2 pos2 []).
Proof.
  induction fuel1 as [|fuel1 IH];
    intros fuel2 expression1 expression2 pos1 pos2 Hslice Hf1 Hf2.
  - assert (Hend1 : String.length expression1 <= pos1) by lia.
    pose proof (slice_from_length expression2 pos2) as Hl2.
    rewrite <- Hslice, (slice_from_past_end _ _ Hend1) in Hl2.
    cbn [String.length] in Hl2.
    assert (Hend2 : String.length expression2 <= pos2) by lia.
    apply Nat.ltb_ge in Hend1, Hend2.
    destruct fuel2; cbn [tokenize_loop]; now rewrite Hend1, Hend2.
  - pose proof (slice_from_length expression1 pos1) as Hl1.
    pose proof (slice_from_length expression2 pos2) as Hl2.
    rewrite Hslice in Hl1.
    destruct (Nat.ltb_spec pos1 (String.length expression1)) as [Hlt1|Hge1].
    2:{ assert (Hge2 : String.length expression2 <= pos2) by lia.
        apply Nat.ltb_ge in Hge1, Hge2.
        destruct fuel2; cbn [tokenize_loop]; now rewrite Hge1, Hge2. }
    assert (Hlt2 : pos2 < String.length expression2) by lia.
    destruct fuel2 as [|fuel2]; [lia|].
    apply Nat.ltb_lt in Hlt1 as Hb1. apply Nat.ltb_lt in Hlt2 as Hb2.
    cbn [tokenize_loop]. rewrite Hb1, Hb2, <- Hslice.
    destruct (re_match (slice_from pos1 expression1)) as [[k value]|] eqn:Hm;
      [|reflexivity].
    destruct (re_match_shape _ _ _ Hm) as (rest & Hrest & _).
    pose proof (re_match_consumes _ _ _ Hm) as Hlen.
    assert (Hnext : slice_from (pos1 + String.length value) expression1 =
                    slice_from (pos2 + String.length value) expression2).
    { rewrite (slice_from_next _ _ _ _ Hrest).
      rewrite Hslice in Hrest. now rewrite (slice_from_next _ _ _ _ Hrest). }
    assert (Hrec : forall tokens',
               tokens_of (tokenize_loop fuel1 expression1
                            (pos1 + String.length value) tokens') =
               tokens_of (tokenize_loop fuel2 expression2
                            (pos2 + String.length value) tokens')).
    { intros tokens'.
      rewrite (tokenize_loop_accumulator fuel1),
        (tokenize_loop_accumulator fuel2).
      f_equal. apply IH; [exact Hnext|lia|lia]. }
    destruct k; cbn [bind].
    + destruct (float_of_str value) as [x|e|]; cbn [bind try_except].
      * apply Hrec.
      * destruct (issubclass _ _); reflexivity.
      * reflexivity.
    + apply Hrec.
    + apply Hrec.
    + reflexivity.
Qed.

Lemma lexemes_empty : lexemes EmptyString = Some [].
Proof. reflexivity. Qed.

(** The tokens of a text, from its first match and the tokens of the
    rest. *)
Lemma lexemes_unfold s k value rest :
  re_match s = Some (k, value) -> s = (value ++ rest)%string ->
  lexemes s = lexemes_step k value (lexemes rest).
Proof.
  intros Hm Hs. unfold lexemes at 1, tokenize.
  pose proof (re_match_consumes _ _ _ Hm) as Hlen.
  assert (Hl : String.length s = String.length value + String.length rest)
    by (rewrite Hs; apply length_append).
  destruct (String.length s) as [|n] eqn:Hn; [lia|].
  cbn [tokenize_loop]. rewrite Hn. cbn [Nat.ltb Nat.leb].
  assert (H0 : slice_from 0 s = s) by now destruct s.
  rewrite H0, Hm.
  assert (Hrec : forall tokens',
             tokens_of (tokenize_loop n s (0 + String.length value) tokens') =
             option_map (app tokens') (lexemes rest)).
  { intros tokens'. rewrite tokenize_loop_accumulator. f_equal.
    unfold lexemes, tokenize. apply tokenize_loop_text.
    - rewrite Hs at 1. cbn [Nat.add]. rewrite slice_from_append.
      now destruct rest.
    - rewrite Hn. cbn [Nat.add]. lia.
    - lia. }
  unfold lexemes_step. destruct k; cbn [bind app].
  - destruct (float_of_str value) as [x|e|]; cbn [bind try_except].
    + apply Hrec.
    + destruct (issubclass _ _); reflexivity.
    + reflexivity.
  - apply Hrec.
  - rewrite Hrec. now destruct (lexemes rest).
  - reflexivity.
Qed.

(** ** Token boundaries *)

Lemma take_while_app_boundary p x d b :
  p d = false -> take_while p (x ++ String d b) = take_while p x.
Proof.
  intros Hd. induction x as [|c x IH]; cbn [append take_while].
  - now rewrite Hd.
  - destruct (p c); [now rewrite IH|reflexivity].
Qed.

Lemma drop_while_app_boundary p x d b :
  p d = false ->
  drop_while p (x ++ String d b) = (drop_while p x ++ String d b)%string.
Proof.
  intros Hd. induction x as [|c x IH]; cbn [append drop_while].
  - now rewrite Hd.
  - destruct (p c); [exact IH|reflexivity].
Qed.

Lemma take_while_app_notall p x y :
  string_forallb p x = false -> take_while p (x ++ y) = take_while p x.
Proof.
  induction x as [|c x IH]; cbn [string_forallb append take_while];
    [discriminate|].
  destruct (p c); [|reflexivity]. cbn [andb]. intros H. now rewrite IH.
Qed.

(** A character that is no digit and no dot, put after a text, does not
    change the first match of the text; for a whitespace character this
    holds when the text is not whitespace only. *)
Lemma re_match_boundary x d b :
  x <> EmptyString -> isdigit d = false -> Ascii.eqb d "." = false ->
  isspace d = false \/ string_forallb isspace x = false ->
  re_match (x ++ String d b) = re_match x.
Proof.
  intros Hne Hdigit Hdot Hspace. destruct x as [|c x']; [congruence|].
  change ((String c x' ++ String d b)%string)
    with (String c (x' ++ String d b)).
  unfold re_match.
  change (String c (x' ++ String d b))
    with ((String c x' ++ String d b)%string).
  destruct (isdigit c) eqn:Hc.
  { rewrite (take_while_app_boundary isdigit _ d b Hdigit).
    rewrite (drop_while_app_boundary isdigit _ d b Hdigit).
    destruct (drop_while isdigit (String c x')) as [|e frac]; cbn [append].
    - now rewrite Hdot.
    - destruct (Ascii.eqb e "."); [|reflexivity].
      now rewrite (take_while_app_boundary isdigit frac d b Hdigit). }
  assert (Hstart : starts_with_digit (x' ++ String d b) = starts_with_digit x').
  { destruct x'; cbn [append starts_with_digit]; [exact Hdigit|reflexivity]. }
  rewrite Hstart.
  destruct (Ascii.eqb c "." && starts_with_digit x').
  { now rewrite (take_while_app_boundary isdigit x' d b Hdigit). }
  destruct (is_operator_char c); [reflexivity|].
  destruct (isspace c); [|reflexivity].
  destruct Hspace as [Hs|Hs].
  - now rewrite (take_while_app_boundary isspace _ d b Hs).
  - now rewrite (take_while_app_notall isspace _ _ Hs).
Qed.

Lemma operator_char_facts c :
  is_operator_char c = true ->
  isdigit c = false /\ Ascii.eqb c "." = false /\ isspace c = false.
Proof.
  unfold is_operator_char. cbn [existsb].
  repeat match goal with
         | |- context [Ascii.eqb c ?d] =>
             destruct (Ascii.eqb_spec c d); [subst; now repeat split|]
         end.
  discriminate.
Qed.

Lemma space_char_facts c :
  isspace c = true -> isdigit c = false /\ Ascii.eqb c "." = false.
Proof.
  intros Hs. split.
  - destruct (isdigit c) eqn:Hd; [|reflexivity].
    unfold isspace, isdigit in *. cbv zeta in *.
    repeat match goal with
           | H : _ && _ = true |- _ =>
               apply andb_true_iff in H; destruct H
           | H : _ || _ = true |- _ =>
               apply orb_true_iff in H; destruct H
           | H : (_ <=? _) = true |- _ => apply Nat.leb_le in H
           | H : (_ =? _) = true |- _ => apply Nat.eqb_eq in H
           end; lia.
  - destruct (Ascii.eqb_spec c "."%char) as [->|]; [discriminate Hs|reflexivity].
Qed.

Lemma re_match_operator c rest :
  is_operator_char c = true ->
  re_match (String c rest) = Some (OPERATOR, String c EmptyString).
Proof.
  intros Hc. destruct (operator_char_facts c Hc) as (Hd & Hdot & _).
  unfold re_match. now rewrite Hd, Hdot, Hc.
Qed.

Lemma re_match_space c rest :
  isspace c = true ->
  re_match (String c rest) = Some (SPACE, take_while isspace (String c rest)).
Proof.
  intros Hc. destruct (space_char_facts c Hc) as (Hd & Hdot).
  unfold re_match. rewrite Hd, Hdot, Hc. cbn [andb].
  destruct (is_operator_char c) eqn:Ho; [|reflexivity].
  destruct (operator_char_facts c Ho) as (_ & _ & Hs). congruence.
Qed.

Lemma lexemes_drop_spaces s : lexemes s = lexemes (drop_while isspace s).
Proof.
  destruct s as [|c rest]; [reflexivity|].
  destruct (isspace c) eqn:Hc; [|cbn [drop_while]; now rewrite Hc].
  rewrite (lexemes_unfold _ _ _ (drop_while isspace (String c rest))
             (re_match_space c rest Hc)); [reflexivity|].
  now rewrite take_drop_while.
Qed.

Lemma lexemes_spaces ws :
  string_forallb isspace ws = true -> lexemes ws = Some [].
Proof.
  intros H. now rewrite lexemes_drop_spaces, (drop_while_all _ _ H).
Qed.

Lemma lexemes_leading_spaces ws b :
  string_forallb isspace ws = true -> lexemes (ws ++ b) = lexemes b.
Proof.
  intros H. rewrite lexemes_drop_spaces, (drop_while_app_all _ _ _ H).
  symmetry. apply lexemes_drop_spaces.
Qed.

Lemma lexemes_step_join k value mid x y :
  lexemes_step k value (join_tokens mid x y) =
  join_tokens mid (lexemes_step k value x) y.
Proof.
  unfold lexemes_step, join_tokens.
  destruct k; try reflexivity;
    try destruct (float_of_str value); destruct x, y; reflexivity.
Qed.

Lemma re_match_Some s : s <> EmptyString -> exists k value, re_match s = Some (k, value).
Proof.
  intros Hne. destruct (re_match s) as [[k value]|] eqn:H.
  - now exists k, value.
  - now apply re_match_nonempty in H.
Qed.

Lemma lexemes_operator_boundary n :
  forall a op b,
    String.length a <= n -> is_operator_char op = true ->
    lexemes (a ++ String op b) =
    join_tokens [Str (String op EmptyString)] (lexemes a) (lexemes b).
Proof.
  induction n as [|n IH]; intros a op b Hlen Hop.
  - destruct a; [|cbn [String.length] in Hlen; lia]. cbn [append].
    rewrite (lexemes_unfold _ _ _ b (re_match_operator op b Hop) eq_refl).
    rewrite lexemes_empty. cbn [lexemes_step join_tokens app].
    now destruct (lexemes b).
  - destruct a as [|c a'].
    { cbn [append].
      rewrite (lexemes_unfold _ _ _ b (re_match_operator op b Hop) eq_refl).
      rewrite lexemes_empty. cbn [lexemes_step join_tokens app].
      now destruct (lexemes b). }
    destruct (re_match_Some (String c a')) as (k & value & Hm); [discriminate|].
    destruct (re_match_shape _ _ _ Hm) as (rest & Hrest & _).
    pose proof (re_match_consumes _ _ _ Hm) as Hv.
    destruct (operator_char_facts op Hop) as (Hd & Hdot & Hs).
    assert (Hm' : re_match (String c a' ++ String op b) = Some (k, value)).
    { rewrite re_match_boundary; [exact Hm|discriminate|exact Hd|exact Hdot|].
      now left. }
    rewrite (lexemes_unfold _ _ _ (rest ++ String op b) Hm')
      by (rewrite Hrest; apply append_assoc).
    rewrite (lexemes_unfold _ _ _ rest Hm Hrest).
    rewrite IH; [apply lexemes_step_join| |exact Hop].
    assert (Hl : String.length (String c a') =
                 String.length value + String.length rest)
      by (rewrite Hrest; apply length_append).
    lia.
Qed.

Lemma lexemes_trailing_spaces_aux n :
  forall a ws,
    String.length a <= n -> string_forallb isspace ws = true ->
    lexemes (a ++ ws) = lexemes a.
Proof.
  induction n as [|n IH]; intros a ws Hlen Hws.
  - destruct a; [|cbn [String.length] in Hlen; lia]. cbn [append].
    now rewrite (lexemes_spaces ws Hws).
  - destruct (string_forallb isspace a) eqn:Ha.
    { rewrite (lexemes_spaces a Ha). apply lexemes_spaces.
      now rewrite string_forallb_app, Ha, Hws. }
    destruct ws as [|w ws']; [now rewrite append_empty_r|].
    assert (Hne : a <> EmptyString) by (intros ->; discriminate Ha).
    destruct (re_match_Some a Hne) as (k & value & Hm).
    destruct (re_match_shape _ _ _ Hm) as (rest & Hrest & _).
    pose proof (re_match_consumes _ _ _ Hm) as Hv.
    pose proof Hws as Hw. cbn [string_forallb] in Hw.
    apply andb_true_iff in Hw. destruct Hw as [Hw _].
    destruct (space_char_facts w Hw) as (Hd & Hdot).
    assert (Hm' : re_match (a ++ String w ws') = Some (k, value)).
    { rewrite re_match_boundary; [exact Hm|exact Hne|exact Hd|exact Hdot|].
      now right. }
    rewrite (lexemes_unfold _ _ _ (rest ++ String w ws') Hm')
      by (rewrite Hrest at 1; apply append_assoc).
    rewrite (lexemes_unfold _ _ _ rest Hm Hrest).
    rewrite IH; [reflexivity| |exact Hws].
    assert (Hl : String.length a = String.length value + String.length rest)
      by (rewrite Hrest at 1; apply length_append).
    lia.
Qed.

Lemma lexemes_trailing_spaces a ws :
  string_forallb isspace ws = true -> lexemes (a ++ ws) = lexemes a.
Proof. now apply (lexemes_trailing_spaces_aux (String.length a)). Qed.

(** X22: the tokenizer works on both sides of an operator symbol or
    parenthesis separately: the tokens of a text are the tokens of what
    stands before the symbol, the symbol, and the tokens of what stands
    after it; [tokenize] returns on the whole exactly when it returns on
    both parts. *)
Theorem tokenize_splits_at_symbol :
  forall a op b,
    is_operator_char op = true ->
    tokens_of (tokenize (a ++ String op b)) =
    match tokens_of (tokenize a), tokens_of (tokenize b) with
    | Some ta, Some tb => Some (ta ++ Str (String op EmptyString) :: tb)
    | _, _ => None
    end.
Proof.
  intros a op b Hop.
  exact (lexemes_operator_boundary (String.length a) a op b (le_n _) Hop).
Qed.

Lemma tokenize_splits_at_symbol_witness :
  is_operator_char "*" = true
  /\ tokens_of (tokenize ("5" ++ String "*" "-2")) =
     Some ([Num 5] ++ Str "*" :: [Str "-"; Num 2]).
Proof.
  split; [reflexivity|].
  exact (tokenize_splits_at_symbol "5" "*"%char "-2" eq_refl).
Defined.

(** X23: whitespace is never significant next to an operator symbol or
    parenthesis, nor at either end of the text: with or without it
    [tokenize] returns the same tokens, or does not return. *)
Theorem tokenize_whitespace_insignificant :
  forall ws,
    string_forallb isspace ws = true ->
    (forall a op b,
        is_operator_char op = true ->
        tokens_of (tokenize (a ++ ws ++ String op b)) =
        tokens_of (tokenize (a ++ String op b))
        /\ tokens_of (tokenize (a ++ String op (ws ++ b))) =
           tokens_of (tokenize (a ++ String op b)))
    /\ (forall a,
           tokens_of (tokenize (ws ++ a)) = tokens_of (tokenize a)
           /\ tokens_of (tokenize (a ++ ws)) = tokens_of (tokenize a)).
Proof.
  intros ws Hws. split.
  - intros a op b Hop. split.
    + rewrite <- append_assoc.
      change (tokens_of (tokenize ((a ++ ws) ++ String op b)))
        with (lexemes ((a ++ ws) ++ String op b)).
      change (tokens_of (tokenize (a ++ String op b)))
        with (lexemes (a ++ String op b)).
      rewrite (lexemes_operator_boundary _ (a ++ ws) op b (le_n _) Hop).
      rewrite (lexemes_operator_boundary _ a op b (le_n _) Hop).
      now rewrite (lexemes_trailing_spaces a ws Hws).
    + change (tokens_of (tokenize (a ++ String op (ws ++ b))))
        with (lexemes (a ++ String op (ws ++ b))).
      change (tokens_of (tokenize (a ++ String op b)))
        with (lexemes (a ++ String op b)).
      rewrite (lexemes_operator_boundary _ a op (ws ++ b) (le_n _) Hop).
      rewrite (lexemes_operator_boundary _ a op b (le_n _) Hop).
      now rewrite (lexemes_leading_spaces ws b Hws).
  - intros a. split.
    + exact (lexemes_leading_spaces ws a Hws).
    + exact (lexemes_trailing_spaces a ws Hws).
Qed.

Lemma tokenize_whitespace_insignificant_witness :
  string_forallb isspace "  " = true
  /\ tokens_of (tokenize ("1" ++ "  " ++ String "+" "1")) =
     tokens_of (tokenize ("1" ++ String "+" "1")).
Proof.
  split; [reflexivity|].
  exact (proj1 (proj1 (tokenize_whitespace_insignificant "  " eq_refl)
                  "1" "+"%char "1" eq_refl)).
Defined.

(** ** The model passes the tests of the tools *)

Lemma test_calculator_tool_valid :
  forallb (fun '(expression, expected_value) =>
             returns_value_close_to
               (snd (calculator_tool (PyStr expression))) expected_value)
    VALID_TOOL_CALLS = true.
Proof. vm_compute. reflexivity. Qed.

Lemma test_calculator_tool_errors :
  forallb (fun '(expression, err_code) =>
             raises_code (snd (calculator_tool (PyStr expression))) err_code
             && raises_for_expression
                  (snd (calculator_tool (PyStr expression))) expression)
    ERROR_TOOL_CALLS = true.
Proof. vm_compute. reflexivity. Qed.

Lemma test_calculator_tool_non_string :
  raises_code (snd (calculator_tool (PyInt 123))) (-32602) = true.
Proof. reflexivity. Qed.

Lemma test_shell_tool_invalid_working_dir_non_existent :
  raises_code
    (snd (shell_tool no_directory_run (PyStr "ls")
            (PyStr "non_existent_dir_6789")))
    ERROR_INVALID_WORKING_DIR = true.
Proof. reflexivity. Qed.

Lemma test_shell_tool_invalid_types :
  raises_code (snd (shell_tool echo_run (PyInt 12345) PyNone)) (-32602) = true
  /\ raises_code (snd (shell_tool echo_run (PyStr "ls") (PyInt 123))) (-32602)
     = true.
Proof. split; reflexivity. Qed.

(** * Written expressions *)

(** ** What [strip] removes *)

Lemma strip_padding_parts s :
  exists l r,
    string_forallb isspace l = true /\ string_forallb isspace r = true
    /\ s = (l ++ strip s ++ r)%string.
Proof.
  exists (take_while isspace s).
  exists (reverse (take_while isspace (reverse (drop_while isspace s)))).
  split; [apply take_while_forallb|]. split.
  - rewrite string_forallb_reverse. apply take_while_forallb.
  - rewrite strip_unfold, <- reverse_append, take_drop_while,
      reverse_involutive.
    symmetry. apply take_drop_while.
Qed.

Lemma lexemes_strip s : lexemes (strip s) = lexemes s.
Proof.
  destruct (strip_padding_parts s) as (l & r & Hl & Hr & Hs).
  rewrite Hs at 2.
  now rewrite (lexemes_leading_spaces l _ Hl), (lexemes_trailing_spaces _ r Hr).
Qed.

(** ** Literals *)

Lemma literal_re_match l x : literal l x -> re_match l = Some (NUMBER, l).
Proof.
  intros [a Ha Hne|a b Ha Hb Hlen].
  - now apply re_match_integer.
  - now apply re_match_decimal.
Qed.

Lemma literal_float_of_str l x : literal l x -> float_of_str l = Return x.
Proof.
  intros [a Ha Hne|a b Ha Hb Hlen].
  - now apply float_of_str_integer_value.
  - now apply float_of_str_decimal_value.
Qed.

Lemma digit_not_space c : isdigit c = true -> isspace c = false.
Proof.
  intros Hd. destruct (isspace c) eqn:Hs; [|reflexivity].
  apply space_char_facts in Hs. destruct Hs as [Hs _]. congruence.
Qed.

Lemma digits_not_spaces a :
  string_forallb isdigit a = true -> a <> EmptyString ->
  string_forallb isspace a = false.
Proof.
  intros Ha Hne. destruct a as [|c a]; [congruence|].
  cbn [string_forallb] in *. apply andb_true_iff in Ha. destruct Ha as [Hc _].
  now rewrite (digit_not_space c Hc).
Qed.

Lemma literal_not_spaces l x :
  literal l x -> l <> EmptyString /\ string_forallb isspace l = false.
Proof.
  intros [a Ha Hne|a b Ha Hb Hlen].
  - split; [exact Hne|]. now apply digits_not_spaces.
  - destruct a as [|c a].
    + split; [discriminate|]. reflexivity.
    + split; [discriminate|].
      change ((String c a ++ String "." b)%string)
        with (String c (a ++ String "." b)).
      cbn [string_forallb] in *. apply andb_true_iff in Ha.
      destruct Ha as [Hc _]. now rewrite (digit_not_space c Hc).
Qed.

(** A literal is matched as a whole where no digit and no dot follows
    it. *)
Lemma literal_re_match_rest l x rest :
  literal l x -> number_ends rest ->
  re_match (l ++ rest) = Some (NUMBER, l).
Proof.
  intros Hl Hrest. destruct (literal_not_spaces l x Hl) as [Hne Hsp].
  destruct rest as [|d rest].
  - rewrite append_empty_r. exact (literal_re_match l x Hl).
  - destruct Hrest as [Hd Hdot].
    rewrite re_match_boundary; [|exact Hne|exact Hd|exact Hdot|now right].
    exact (literal_re_match l x Hl).
Qed.

(** ** The tokens of a written token list *)

Lemma writes_lexemes s tokens : writes s tokens -> lexemes s = Some tokens.
Proof.
  induction 1 as [ws Hws|ws op rest tokens Hws Hop _ IH
                 |ws l x rest tokens Hws Hl Hrest _ IH].
  - now apply lexemes_spaces.
  - rewrite (lexemes_leading_spaces ws _ Hws).
    change (String op rest) with ((EmptyString ++ String op rest)%string).
    rewrite (lexemes_operator_boundary _ EmptyString op rest (le_n _) Hop).
    now rewrite lexemes_empty, IH.
  - rewrite (lexemes_leading_spaces ws _ Hws).
    rewrite (lexemes_unfold _ _ _ rest (literal_re_match_rest l x rest Hl Hrest)
               eq_refl).
    cbn [lexemes_step]. now rewrite (literal_float_of_str l x Hl), IH.
Qed.

Lemma writes_tokenize s tokens : writes s tokens -> tokenize s = Return tokens.
Proof.
  intros H. apply writes_lexemes in H. unfold lexemes, tokens_of in H.
  destruct (tokenize s); congruence.
Qed.

Lemma writes_tokenize_strip s tokens :
  writes s tokens -> tokenize (strip s) = Return tokens.
Proof.
  intros H. apply writes_lexemes in H. rewrite <- lexemes_strip in H.
  unfold lexemes, tokens_of in H.
  destruct (tokenize (strip s)); congruence.
Qed.

(** Literals with a given value, for texts written out. *)
Lemma literal_integer_value a x :
  string_forallb isdigit a = true -> a <> EmptyString ->
  decimal_to_float (digits_value a 0) 0 = x -> literal a x.
Proof. intros Ha Hne <-. now apply literal_integer. Qed.

Lemma literal_decimal_value a b x :
  string_forallb isdigit a = true -> string_forallb isdigit b = true ->
  0 < String.length a + String.length b ->
  decimal_to_float (digits_value (a ++ b) 0) (String.length b) = x ->
  literal (a ++ String "."%char b) x.
Proof. intros Ha Hb Hlen <-. now apply literal_decimal. Qed.

(** One step of writing out a text without whitespace. *)
Ltac write_symbol op rest :=
  apply (writes_symbol EmptyString op rest); [reflexivity|reflexivity|].

Ltac write_integer l x rest :=
  apply (writes_number EmptyString l x rest);
  [reflexivity
  |apply literal_integer_value; [reflexivity|discriminate|reflexivity]
  |first [exact I|split; reflexivity]
  |].

Lemma writes_example : writes "(5-3)*8/4" (expr_tokens example_expr).
Proof.
  write_symbol "("%char "5-3)*8/4". write_integer "5" 5%float "-3)*8/4".
  write_symbol "-"%char "3)*8/4". write_integer "3" 3%float ")*8/4".
  write_symbol ")"%char "*8/4". write_symbol "*"%char "8/4".
  write_integer "8" 8%float "/4". write_symbol "/"%char "4".
  write_integer "4" 4%float "". now apply (writes_end "").
Qed.

Ltac write_decimal a b x rest :=
  apply (writes_number EmptyString (a ++ String "."%char b) x rest);
  [reflexivity
  |apply literal_decimal_value;
   [reflexivity|reflexivity|cbn [String.length]; lia|vm_compute; reflexivity]
  |first [exact I|split; reflexivity]
  |].

Lemma writes_decimal_example :
  writes ".5 + 1.5*2" (expr_tokens decimal_example).
Proof.
  write_decimal "" "5" 0.5%float " + 1.5*2".
  apply (writes_symbol " " "+"%char " 1.5*2"); [reflexivity|reflexivity|].
  apply (writes_number " " ("1" ++ String "."%char "5") 1.5%float "*2");
    [reflexivity
    |apply literal_decimal_value;
     [reflexivity|reflexivity|cbn [String.length]; lia|vm_compute; reflexivity]
    |split; reflexivity
    |].
  write_symbol "*"%char "2". write_integer "2" 2%float "".
  now apply (writes_end "").
Qed.

Lemma writes_negated_group : writes "-(5-3)" (sexpr_tokens negated_group).
Proof.
  write_symbol "-"%char "(5-3)". write_symbol "("%char "5-3)".
  write_integer "5" 5%float "-3)". write_symbol "-"%char "3)".
  write_integer "3" 3%float ")". write_symbol ")"%char "".
  now apply (writes_end "").
Qed.

(** ** The standard value of a written expression *)

(** C5, as worded, fails where a sign stands before a parenthesised
    group: ["-(5-3)"] is made of decimal numbers, the operator [-] and
    balanced parentheses only, it writes the negation of the group [(5-3)],
    whose standard value is [-2.0], and the main function raises
    [InvalidExpressionError] (not enough operands) on it.  So the main
    function does not return the standard value of every written
    expression in which a sign may stand before any factor. *)
Lemma standard_precedence_value_counterexample :
  writes "-(5-3)" (sexpr_tokens negated_group)
  /\ sexpr_value negated_group = Some (-2)%float
  /\ safe_evaluate_expression (PyStr "-(5-3)") = Raise not_enough_operands_error
  /\ ~ (forall s e v,
           writes s (sexpr_tokens e) -> sexpr_value e = Some v ->
           safe_evaluate_expression (PyStr s) = Return v).
Proof.
  assert (Hval : sexpr_value negated_group = Some (-2)%float)
    by (vm_compute; reflexivity).
  assert (Hrun : safe_evaluate_expression (PyStr "-(5-3)") =
                 Raise not_enough_operands_error)
    by (vm_compute; reflexivity).
  split; [exact writes_negated_group|]. split; [exact Hval|].
  split; [exact Hrun|].
  intros Hall.
  specialize (Hall "-(5-3)" negated_group (-2)%float writes_negated_group Hval).
  rewrite Hrun in Hall. discriminate Hall.
Qed.

(** C5, amended: take any expression built from decimal numbers, the
    binary operators [+ - * /] and parentheses by the grammar of
    precedence and left associativity, in which a sign stands only
    directly before a number, and any text that writes it: each number as
    a decimal literal, with any whitespace around the tokens.  [tokenize]
    reads the text into the tokens of the expression, [infix_to_rpn] gives
    its postfix form, [evaluate_rpn] its standard value, and the main
    function returns that value; where the standard evaluation divides by
    a zero, the main function raises [DivisionByZeroError].  The same
    holds of every [str] whose tokens are those of the expression.
    ["(2 + 3) * 4"] is [20.0] and ["(5-3)*8/4"] is [4.0]. *)
Theorem standard_precedence_value :
  (forall s tokens, writes s tokens -> tokenize (strip s) = Return tokens)
  /\ (forall e, infix_to_rpn (expr_tokens e) = Return (expr_rpn e))
  /\ (forall e v, expr_value e = Some v -> evaluate_rpn (expr_rpn e) = Return v)
  /\ (forall s e v,
         writes s (expr_tokens e) ->
         expr_value e = Some v ->
         safe_evaluate_expression (PyStr s) = Return v)
  /\ (forall s e,
         writes s (expr_tokens e) ->
         expr_value e = None ->
         safe_evaluate_expression (PyStr s) =
         raise DivisionByZeroError msg_division_by_zero)
  /\ (forall s e,
         tokenize (strip s) = Return (expr_tokens e) ->
         safe_evaluate_expression (PyStr s) =
         match expr_value e with
         | Some v => Return v
         | None => raise DivisionByZeroError msg_division_by_zero
         end)
  /\ t_eval "(2 + 3) * 4" = Return 20%float
  /\ t_eval "(5-3)*8/4" = Return 4%float.
Proof.
  split; [exact writes_tokenize_strip|].
  split; [exact infix_to_rpn_expr|]. split; [|split; [|split; [|split]]].
  - intros e v Hv. now rewrite evaluate_rpn_expr, Hv.
  - intros s e v Hs Hv.
    now rewrite (safe_evaluate_expression_expr s e (writes_tokenize_strip _ _ Hs)),
      Hv.
  - intros s e Hs Hv.
    now rewrite (safe_evaluate_expression_expr s e (writes_tokenize_strip _ _ Hs)),
      Hv.
  - exact safe_evaluate_expression_expr.
  - split; vm_compute; reflexivity.
Qed.

Lemma standard_precedence_value_witness :
  writes ".5 + 1.5*2" (expr_tokens decimal_example)
  /\ expr_value decimal_example = Some 3.5%float
  /\ safe_evaluate_expression (PyStr ".5 + 1.5*2") = Return 3.5%float.
Proof.
  assert (Hval : expr_value decimal_example = Some 3.5%float)
    by (vm_compute; reflexivity).
  split; [exact writes_decimal_example|]. split; [exact Hval|].
  exact (proj1 (proj2 (proj2 (proj2 standard_precedence_value)))
           ".5 + 1.5*2" decimal_example 3.5%float writes_decimal_example Hval).
Defined.
